(** * QTC wallet generation scripts: a shallow embedding and its properties

    The development follows the JavaScript wallet generators of the
    repository (qti2.js, qtc2.js, qti3.js, the two qti3_hd.js variants and the
    older single PQ-HD script) and the C++ helper oqs_wallet_cli.

    - Bytes are integers in [0, 256); a [Buffer] is a [list Z].
    - JavaScript bitwise operators work on 32-bit signed integers: the
      wrap-around of [<<] and unary minus is written out ([toInt32]).
    - A call that can throw returns a [completion]; [process.exit] is the
      third way a computation can end.
    - The operating system's random generator is a tape of future bytes that
      [randomBytes] consumes; liboqs' NIST-KAT DRBG is a state threaded
      through the key generation calls.
    - SHA-3 and SHAKE are the FIPS 202 functions, written out in [Keccak].
    - ML-KEM-1024 and ML-DSA-65 come from outside the repository; they are
      the fields of the records [Noble] and [LibOQS].
    - What a script asks of the machine it runs on (is the tool built, what
      does a build give, can the wallet file be written) is the record
      [Host]. *)

From Stdlib Require Import ZArith List Lia Bool String Ascii DecimalString DecimalPos Btauto.
From stdpp Require Import base strings gmap.
Import ListNotations.
Local Open Scope Z_scope.

(* ===================================================================== *)
(** ** JavaScript values, errors and abrupt completion                    *)
(* ===================================================================== *)

Inductive JsError : Type :=
| Error (message : string)
| TypeError (message : string)
| RangeError (message : string)
| ReferenceError (message : string).

(** How a call ends: it returns, it throws, or the process exits. *)
Inductive completion (A : Type) : Type :=
| Ok (a : A)
| Throw (e : JsError)
| Exit (code : Z).
Arguments Ok {A} a.
Arguments Throw {A} e.
Arguments Exit {A} code.

#[global] Instance completion_ret : MRet completion := fun A a => Ok a.
#[global] Instance completion_bind : MBind completion := fun A B k r =>
  match r with
  | Ok a => k a
  | Throw e => Throw e
  | Exit c => Exit c
  end.

(** [try { body } catch (err) { console.error(..); process.exit(1); }] *)
Definition catch_exit {A} (body : completion A) : completion A :=
  match body with
  | Throw _ => Exit 1
  | other => other
  end.

(** A JavaScript string is kept as its list of code units (all ASCII here);
    messages and identifiers are ordinary [string]s. *)
Definition jsstr : Type := list ascii.

Fixpoint jsstr_eqb (a b : jsstr) : bool :=
  match a, b with
  | [], [] => true
  | x :: a', y :: b' => Ascii.eqb x y && jsstr_eqb a' b'
  | _, _ => false
  end.

Definition charCode (c : ascii) : Z := Z.of_N (N_of_ascii c).

Definition toLowerChar (c : ascii) : ascii :=
  let n := charCode c in
  if (65 <=? n) && (n <=? 90) then ascii_of_N (Z.to_N (n + 32)) else c.

Definition toUpperChar (c : ascii) : ascii :=
  let n := charCode c in
  if (97 <=? n) && (n <=? 122) then ascii_of_N (Z.to_N (n - 32)) else c.

Definition toLowerCase (s : jsstr) : jsstr := map toLowerChar s.
Definition toUpperCase (s : jsstr) : jsstr := map toUpperChar s.

Fixpoint lastIndexOf_from (c : ascii) (s : jsstr) (i found : Z) : Z :=
  match s with
  | [] => found
  | x :: rest => lastIndexOf_from c rest (i + 1) (if Ascii.eqb x c then i else found)
  end.

(** [s.lastIndexOf(c)], -1 when [c] does not occur. *)
Definition lastIndexOf (s : jsstr) (c : ascii) : Z := lastIndexOf_from c s 0 (-1).

Fixpoint indexOf_from (c : ascii) (s : jsstr) (i : Z) : option Z :=
  match s with
  | [] => None
  | x :: rest => if Ascii.eqb x c then Some i else indexOf_from c rest (i + 1)
  end.

(** The values [JSON.stringify] is given: the wallet objects that are
    written out, and the parameters of a JSON-RPC request. *)
#[warnings="-register-all"]
Inductive Json : Type :=
| JNumber (n : Z)
| JString (s : jsstr)
| JBoolean (b : bool)
| JArray (items : list Json)
| JObject (members : list (string * Json)).

(** [key: value] in an object literal. *)
Definition member (key : string) (value : Json) : string * Json := (key, value).

(** Template-literal printing of an integer-valued number: plain decimal,
    as JavaScript prints every integer below 1e21.  The statements that
    depend on the text of a number keep to integers below 2^53. *)
Definition number_toString (n : Z) : jsstr :=
  list_ascii_of_string (NilZero.string_of_int (Z.to_int n)).

(* ===================================================================== *)
(** ** 32-bit integer operators                                           *)
(* ===================================================================== *)

Definition toInt32 (z : Z) : Z := (z + 2 ^ 31) mod 2 ^ 32 - 2 ^ 31.

(** [x << n] *)
Definition shl32 (x n : Z) : Z := toInt32 (Z.shiftl x n).

(** unary minus on a 32-bit operand, as used in [-(bit) & mask] *)
Definition neg32 (x : Z) : Z := toInt32 (- x).

(* ===================================================================== *)
(** ** Buffers                                                            *)
(* ===================================================================== *)

Definition Buffer : Type := list Z.

(** [Buffer.from(text, "utf8")] for ASCII text *)
Definition Buffer_from_utf8 (s : jsstr) : Buffer := map charCode s.

Definition Buffer_concat (parts : list Buffer) : Buffer := concat parts.

(** [buf.slice(0, n)] *)
Definition Buffer_slice0 (n : nat) (buf : Buffer) : Buffer := firstn n buf.

Definition Buffer_alloc (n : nat) : Buffer := repeat 0 n.

(** [buf.writeUInt32BE(value, 0)] on a 4-byte buffer: Node checks the range
    and throws a RangeError outside [0, 2^32 - 1]; the bytes are stored from
    the last to the first, shifting the value right by 8 in between. *)
Definition writeUInt32BE (buf : Buffer) (value : Z) : completion Buffer :=
  if (value <? 0) || (2 ^ 32 - 1 <? value)
  then Throw (RangeError "ERR_OUT_OF_RANGE")
  else
    let b3 := Z.land value 255 in
    let value := Z.shiftr value 8 in
    let b2 := Z.land value 255 in
    let value := Z.shiftr value 8 in
    let b1 := Z.land value 255 in
    let value := Z.shiftr value 8 in
    let b0 := Z.land value 255 in
    Ok ([b0; b1; b2; b3] ++ skipn 4 buf).

Definition hex_digit (n : Z) : ascii :=
  ascii_of_N (Z.to_N (if n <? 10 then 48 + n else 87 + n)).

(** [buf.toString("hex")] *)
Definition toString_hex (buf : Buffer) : jsstr :=
  flat_map (fun b => [hex_digit (Z.shiftr b 4); hex_digit (Z.land b 15)]) buf.

Definition b64_table : jsstr :=
  list_ascii_of_string "ABCDEFGHIJKLMNOPQRSTUVWXYZabcdefghijklmnopqrstuvwxyz0123456789+/".

Definition b64_char (v : Z) : ascii := nth (Z.to_nat v) b64_table "="%char.

(** [b64_encode] of json_emit.cpp: three bytes at a time are packed into
    [v] and cut into four 6-bit groups; a short last group is padded with
    [=]. *)
Fixpoint b64_encode (data : list Z) : jsstr :=
  match data with
  | [] => []
  | [d0] =>
      let v := Z.shiftl d0 16 in
      [b64_char (Z.land (Z.shiftr v 18) 63); b64_char (Z.land (Z.shiftr v 12) 63);
       "="%char; "="%char]
  | [d0; d1] =>
      let v := Z.lor (Z.shiftl d0 16) (Z.shiftl d1 8) in
      [b64_char (Z.land (Z.shiftr v 18) 63); b64_char (Z.land (Z.shiftr v 12) 63);
       b64_char (Z.land (Z.shiftr v 6) 63); "="%char]
  | d0 :: d1 :: d2 :: rest =>
      let v := Z.lor (Z.lor (Z.shiftl d0 16) (Z.shiftl d1 8)) d2 in
      [b64_char (Z.land (Z.shiftr v 18) 63); b64_char (Z.land (Z.shiftr v 12) 63);
       b64_char (Z.land (Z.shiftr v 6) 63); b64_char (Z.land v 63)]
      ++ b64_encode rest
  end.

(** [buf.toString("base64")]: the same standard alphabet and padding. *)
Definition toString_base64 (buf : Buffer) : jsstr := b64_encode buf.

Fixpoint b64_sextets (text : jsstr) : list Z :=
  match text with
  | [] => []
  | c :: rest =>
      match indexOf_from c b64_table 0 with
      | Some v => v :: b64_sextets rest
      | None => []
      end
  end.

Fixpoint b64_bytes (sextets : list Z) : list Z :=
  match sextets with
  | a :: b :: c :: d :: rest =>
      let v := Z.lor (Z.lor (Z.lor (Z.shiftl a 18) (Z.shiftl b 12)) (Z.shiftl c 6)) d in
      [Z.land (Z.shiftr v 16) 255; Z.land (Z.shiftr v 8) 255; Z.land v 255] ++ b64_bytes rest
  | [a; b; c] =>
      let v := Z.lor (Z.lor (Z.shiftl a 18) (Z.shiftl b 12)) (Z.shiftl c 6) in
      [Z.land (Z.shiftr v 16) 255; Z.land (Z.shiftr v 8) 255]
  | [a; b] =>
      let v := Z.lor (Z.shiftl a 18) (Z.shiftl b 12) in
      [Z.land (Z.shiftr v 16) 255]
  | _ => []
  end.

(** [Buffer.from(text, "base64")]: decoding stops at the padding. *)
Definition Buffer_from_base64 (text : jsstr) : Buffer := b64_bytes (b64_sextets text).

(* ===================================================================== *)
(** ** SHA-3 and SHAKE (FIPS 202)                                         *)
(* ===================================================================== *)

Module Keccak.

Definition lane_mask : Z := 2 ^ 64 - 1.

Definition rotl64 (x n : Z) : Z :=
  Z.land (Z.lor (Z.shiftl x n) (Z.shiftr x (64 - n))) lane_mask.

(** The state is 25 lanes of 64 bits, lane (x, y) at index x + 5y. *)
Definition lane (st : list Z) (i : Z) : Z := nth (Z.to_nat i) st 0.

Definition indices : list Z := map Z.of_nat (seq 0 25).

Definition rotation_offsets : list Z :=
  [ 0;  1; 62; 28; 27;
   36; 44;  6; 55; 20;
    3; 10; 43; 25; 39;
   41; 45; 15; 21;  8;
   18;  2; 61; 56; 14].

Definition round_constants : list Z :=
  [0x0000000000000001; 0x0000000000008082; 0x800000000000808A;
   0x8000000080008000; 0x000000000000808B; 0x0000000080000001;
   0x8000000080008081; 0x8000000000008009; 0x000000000000008A;
   0x0000000000000088; 0x0000000080008009; 0x000000008000000A;
   0x000000008000808B; 0x800000000000008B; 0x8000000000008089;
   0x8000000000008003; 0x8000000000008002; 0x8000000000000080;
   0x000000000000800A; 0x800000008000000A; 0x8000000080008081;
   0x8000000000008080; 0x0000000080000001; 0x8000000080008008].

Definition theta (a : list Z) : list Z :=
  let c x := fold_left Z.lxor (map (fun y => lane a (x + 5 * y)) [0; 1; 2; 3; 4]) 0 in
  let cs := map c [0; 1; 2; 3; 4] in
  let d x := Z.lxor (lane cs ((x + 4) mod 5)) (rotl64 (lane cs ((x + 1) mod 5)) 1) in
  let ds := map d [0; 1; 2; 3; 4] in
  map (fun i => Z.lxor (lane a i) (lane ds (i mod 5))) indices.

(** rho and pi together: B[y, 2x+3y] = rot(A[x, y], r[x, y]).  Read from the
    target lane (X, Y), the source is x = (X + 3Y) mod 5, y = X. *)
Definition rho_pi (a : list Z) : list Z :=
  map (fun j => let X := j mod 5 in
                let Y := j / 5 in
                let src := (X + 3 * Y) mod 5 + 5 * X in
                rotl64 (lane a src) (lane rotation_offsets src)) indices.

Definition chi (b : list Z) : list Z :=
  map (fun i => let x := i mod 5 in
                let y := i / 5 in
                Z.lxor (lane b i)
                  (Z.land (Z.lxor (lane b ((x + 1) mod 5 + 5 * y)) lane_mask)
                          (lane b ((x + 2) mod 5 + 5 * y)))) indices.

Definition iota (rc : Z) (a : list Z) : list Z :=
  match a with
  | [] => []
  | a0 :: rest => Z.lxor a0 rc :: rest
  end.

Definition round (a : list Z) (rc : Z) : list Z := iota rc (chi (rho_pi (theta a))).

Definition keccak_f (a : list Z) : list Z := fold_left round round_constants a.

Definition empty_state : list Z := repeat 0 25.

Fixpoint lane_of_bytes (bs : list Z) : Z :=
  match bs with
  | [] => 0
  | b :: rest => Z.lor b (Z.shiftl (lane_of_bytes rest) 8)
  end.

Definition bytes_of_lane (l : Z) : list Z :=
  map (fun k => Z.land (Z.shiftr l (8 * k)) 255) [0; 1; 2; 3; 4; 5; 6; 7].

Fixpoint lanes_of_bytes (n : nat) (bs : list Z) : list Z :=
  match n with
  | O => []
  | S n' => lane_of_bytes (firstn 8 bs) :: lanes_of_bytes n' (skipn 8 bs)
  end.

Definition xor_block (st block : list Z) : list Z :=
  map (fun p => Z.lxor (fst p) (snd p)) (combine st (lanes_of_bytes 25 block)).

(** pad10*1 after the domain suffix (0x06 for SHA-3, 0x1f for SHAKE). *)
Definition pad (rate : nat) (suffix : Z) (msg : list Z) : list Z :=
  let q := (rate - (List.length msg mod rate))%nat in
  match q with
  | 1%nat => msg ++ [Z.lor suffix 128]
  | _ => msg ++ [suffix] ++ repeat 0 (q - 2) ++ [128]
  end.

Fixpoint absorb (fuel rate : nat) (st data : list Z) : list Z :=
  match fuel with
  | O => st
  | S fuel' =>
      match data with
      | [] => st
      | _ => absorb fuel' rate (keccak_f (xor_block st (firstn rate data))) (skipn rate data)
      end
  end.

Definition state_bytes (st : list Z) : list Z := flat_map bytes_of_lane st.

Fixpoint squeeze (fuel rate : nat) (st : list Z) (n : nat) : list Z :=
  match fuel with
  | O => []
  | S fuel' =>
      if (n <=? rate)%nat then firstn n (state_bytes st)
      else firstn rate (state_bytes st) ++ squeeze fuel' rate (keccak_f st) (n - rate)
  end.

Definition sponge (rate : nat) (suffix : Z) (msg : list Z) (n : nat) : list Z :=
  let padded := pad rate suffix msg in
  squeeze (S n) rate (absorb (S (List.length padded)) rate empty_state padded) n.

Definition SHA3_256 (msg : list Z) : list Z := sponge 136 6 msg 32.
Definition SHA3_512 (msg : list Z) : list Z := sponge 72 6 msg 64.
Definition SHAKE256 (msg : list Z) (n : nat) : list Z := sponge 136 31 msg n.

End Keccak.

(** The hash objects of the sha3 package and of Node's crypto module:
    [update] appends to what has been absorbed, [digest] pads and squeezes. *)
Inductive HashKind : Type := SHA3_kind (size : Z) | SHAKE_kind (size : Z).

Record Hash : Type := mkHash { kind : HashKind; absorbed : Buffer }.

(** [new SHA3(size)], [new SHAKE(size)], [crypto.createHash("sha3-512")] *)
Definition new_SHA3 (size : Z) : Hash := mkHash (SHA3_kind size) [].
Definition new_SHAKE (size : Z) : Hash := mkHash (SHAKE_kind size) [].
Definition createHash_sha3_512 : Hash := mkHash (SHA3_kind 512) [].

Definition update (h : Hash) (data : Buffer) : Hash :=
  mkHash (kind h) (absorbed h ++ data).

(** [hash.digest()] of a SHA-3 object. *)
Definition digest (h : Hash) : Buffer :=
  match kind h with
  | SHA3_kind 256 => Keccak.SHA3_256 (absorbed h)
  | SHA3_kind 512 => Keccak.SHA3_512 (absorbed h)
  | _ => []
  end.

(** [shake.digest(n)].  [digest] of the sha3 package takes the name of a
    format or an options object ([{ buffer, format, padding }]).  A number is
    neither: no output buffer comes with it, and the package squeezes into a
    buffer of its own, of [size / 8] bytes.  For [new SHAKE(256)] these are
    the first 32 bytes of the SHAKE256 output, whatever [n] is. *)
Definition digest_n (h : Hash) (n : nat) : Buffer :=
  match kind h with
  | SHAKE_kind 256 => Keccak.SHAKE256 (absorbed h) 32
  | _ => []
  end.

(* ===================================================================== *)
(** ** The bech32 package                                                 *)
(* ===================================================================== *)

(** The scripts [import { bech32 } from "bech32"].  The package builds two
    codecs from one function, [getLibraryFromEncoding]: the export [bech32]
    with checksum constant 1 (BIP-173) and the export [bech32m] with constant
    0x2bc830a3 (BIP-350).  The codec is written here once, over the constant
    [ENCODING_CONST], as in the package. *)
Module Bech32.

Definition ALPHABET : jsstr := list_ascii_of_string "qpzry9x8gf2tvdw0s3jn54khce6mua7l".

(** [ALPHABET.charAt(x)]: the empty string out of range. *)
Definition ALPHABET_charAt (x : Z) : jsstr :=
  if x <? 0 then []
  else match nth_error ALPHABET (Z.to_nat x) with
       | Some c => [c]
       | None => []
       end.

(** [ALPHABET_MAP[c]]: [None] stands for [undefined]. *)
Definition ALPHABET_MAP (c : ascii) : option Z := indexOf_from c ALPHABET 0.

Definition polymodStep (pre : Z) : Z :=
  let b := Z.shiftr pre 25 in
  Z.lxor (Z.lxor (Z.lxor (Z.lxor (Z.lxor
    (shl32 (Z.land pre 0x1ffffff) 5)
    (Z.land (neg32 (Z.land (Z.shiftr b 0) 1)) 0x3b6a57b2))
    (Z.land (neg32 (Z.land (Z.shiftr b 1) 1)) 0x26508e6d))
    (Z.land (neg32 (Z.land (Z.shiftr b 2) 1)) 0x1ea119fa))
    (Z.land (neg32 (Z.land (Z.shiftr b 3) 1)) 0x3d4233dd))
    (Z.land (neg32 (Z.land (Z.shiftr b 4) 1)) 0x2a1462b3).

Definition invalid_prefix (prefix : jsstr) : string :=
  String.append "Invalid prefix (" (String.append (string_of_list_ascii prefix) ")").

(** First loop of [prefixChk]: the high bits of every character. *)
Fixpoint prefixChk_high (whole prefix : jsstr) (chk : Z) : string + Z :=
  match prefix with
  | [] => inr chk
  | ch :: rest =>
      let c := charCode ch in
      if (c <? 33) || (126 <? c) then inl (invalid_prefix whole)
      else prefixChk_high whole rest (Z.lxor (polymodStep chk) (Z.shiftr c 5))
  end.

(** Second loop of [prefixChk]: the low five bits of every character. *)
Fixpoint prefixChk_low (prefix : jsstr) (chk : Z) : Z :=
  match prefix with
  | [] => chk
  | ch :: rest => prefixChk_low rest (Z.lxor (polymodStep chk) (Z.land (charCode ch) 0x1f))
  end.

Definition prefixChk (prefix : jsstr) : string + Z :=
  match prefixChk_high prefix prefix 1 with
  | inl msg => inl msg
  | inr chk => inr (prefixChk_low prefix (polymodStep chk))
  end.

(** [while (bits >= outBits) { bits -= outBits; result.push((value >> bits) & maxV) }];
    the loop runs at most [bits] times. *)
Fixpoint drain (fuel : nat) (outBits value bits : Z) (result : list Z) : Z * list Z :=
  match fuel with
  | O => (bits, result)
  | S fuel' =>
      if outBits <=? bits then
        let bits := bits - outBits in
        drain fuel' outBits value bits
          (result ++ [Z.land (Z.shiftr value bits) (shl32 1 outBits - 1)])
      else (bits, result)
  end.

Fixpoint convert_loop (data : list Z) (inBits outBits value bits : Z) (result : list Z)
  : Z * Z * list Z :=
  match data with
  | [] => (value, bits, result)
  | d :: rest =>
      let value := Z.lor (shl32 value inBits) d in
      let bits := bits + inBits in
      let '(bits, result) := drain (Z.to_nat bits) outBits value bits result in
      convert_loop rest inBits outBits value bits result
  end.

Definition convert (data : list Z) (inBits outBits : Z) (pad : bool) : string + list Z :=
  let maxV := shl32 1 outBits - 1 in
  let '(value, bits, result) := convert_loop data inBits outBits 0 0 [] in
  if pad then
    if 0 <? bits
    then inr (result ++ [Z.land (shl32 value (outBits - bits)) maxV])
    else inr result
  else
    if inBits <=? bits then inl "Excess padding"%string
    else if negb (Z.land (shl32 value (outBits - bits)) maxV =? 0)
         then inl "Non-zero padding"%string
         else inr result.

Definition toWords (bytes : list Z) : list Z :=
  match convert bytes 8 5 true with
  | inr words => words
  | inl _ => []
  end.

Definition fromWords (words : list Z) : completion (list Z) :=
  match convert words 5 8 false with
  | inr bytes => Ok bytes
  | inl msg => Throw (Error msg)
  end.

Record Decoded : Type := mkDecoded { prefix : jsstr; words : list Z }.

Definition with_text (msg : string) (text : jsstr) : string :=
  String.append msg (string_of_list_ascii text).

Section Codec.
Variable ENCODING_CONST : Z.

Fixpoint encode_words (ws : list Z) (chk : Z) (result : jsstr) : completion (Z * jsstr) :=
  match ws with
  | [] => Ok (chk, result)
  | x :: rest =>
      if negb (Z.shiftr x 5 =? 0) then Throw (Error "Non 5-bit word")
      else encode_words rest (Z.lxor (polymodStep chk) x) (result ++ ALPHABET_charAt x)
  end.

Definition encode (prefix : jsstr) (words : list Z) : completion jsstr :=
  let LIMIT := 90 in
  if LIMIT <? Z.of_nat (List.length prefix) + 7 + Z.of_nat (List.length words)
  then Throw (TypeError "Exceeds length limit")
  else
    let prefix := toLowerCase prefix in
    match prefixChk prefix with
    | inl msg => Throw (Error msg)
    | inr chk =>
        match encode_words words chk (prefix ++ ["1"%char]) with
        | Ok (chk, result) =>
            let chk := fold_left (fun c _ => polymodStep c) [0; 1; 2; 3; 4; 5] chk in
            let chk := Z.lxor chk ENCODING_CONST in
            Ok (fold_left
                  (fun res i =>
                     res ++ ALPHABET_charAt (Z.land (Z.shiftr chk ((5 - i) * 5)) 0x1f))
                  [0; 1; 2; 3; 4; 5] result)
        | Throw e => Throw e
        | Exit c => Exit c
        end
    end.

(** The character loop of [__decode]; the last six characters are the
    checksum and are not pushed ([if (i + 6 >= wordChars.length) continue]). *)
Fixpoint decode_chars (wordChars : jsstr) (chk : Z) (words : list Z)
  : string + (Z * list Z) :=
  match wordChars with
  | [] => inr (chk, words)
  | c :: rest =>
      match ALPHABET_MAP c with
      | None => inl (with_text "Unknown character " [c])
      | Some v =>
          let chk := Z.lxor (polymodStep chk) v in
          if Z.of_nat (List.length wordChars) <=? 6
          then decode_chars rest chk words
          else decode_chars rest chk (words ++ [v])
      end
  end.

Definition __decode (str : jsstr) : string + Decoded :=
  let LIMIT := 90 in
  if Z.of_nat (List.length str) <? 8
  then inl (String.append (string_of_list_ascii str) " too short")
  else if LIMIT <? Z.of_nat (List.length str) then inl "Exceeds length limit"%string
  else
    let lowered := toLowerCase str in
    let uppered := toUpperCase str in
    if negb (jsstr_eqb str lowered) && negb (jsstr_eqb str uppered)
    then inl (with_text "Mixed-case string " str)
    else
      let str := lowered in
      let split := lastIndexOf str "1"%char in
      if split =? -1 then inl (with_text "No separator character for " str)
      else if split =? 0 then inl (with_text "Missing prefix for " str)
      else
        let prefix := firstn (Z.to_nat split) str in
        let wordChars := skipn (Z.to_nat (split + 1)) str in
        if Z.of_nat (List.length wordChars) <? 6 then inl "Data too short"%string
        else
          match prefixChk prefix with
          | inl msg => inl msg
          | inr chk =>
              match decode_chars wordChars chk [] with
              | inl msg => inl msg
              | inr (chk, words) =>
                  if negb (chk =? ENCODING_CONST)
                  then inl (with_text "Invalid checksum for " str)
                  else inr (mkDecoded prefix words)
              end
          end.

Definition decode (str : jsstr) : completion Decoded :=
  match __decode str with
  | inr res => Ok res
  | inl msg => Throw (Error msg)
  end.
End Codec.

(** [exports.bech32 = getLibraryFromEncoding('bech32')] *)
Definition bech32_CONST : Z := 1.
(** [exports.bech32m = getLibraryFromEncoding('bech32m')] *)
Definition bech32m_CONST : Z := 0x2bc830a3.

End Bech32.

(** The object the scripts import, [bech32], and the one they do not. *)
Module bech32.
Definition toWords := Bech32.toWords.
Definition fromWords := Bech32.fromWords.
Definition encode := Bech32.encode Bech32.bech32_CONST.
Definition decode := Bech32.decode Bech32.bech32_CONST.
End bech32.

Module bech32m.
Definition toWords := Bech32.toWords.
Definition fromWords := Bech32.fromWords.
Definition encode := Bech32.encode Bech32.bech32m_CONST.
Definition decode := Bech32.decode Bech32.bech32m_CONST.
End bech32m.

(* ===================================================================== *)
(** ** class QTCHDPath                                                    *)
(* ===================================================================== *)

Record QTCHDPath : Type := new_QTCHDPath
  { purpose : Z; account : Z; change : Z; addressIndex : Z }.

(** [new QTCHDPath()]: the constructor's default arguments. *)
Definition QTCHDPath_default : QTCHDPath := new_QTCHDPath 44 0 0 0.

Module HDPath.

(** [`m/${purpose}'/${account}'/${change}/${addressIndex}`] *)
Definition toString (p : QTCHDPath) : jsstr :=
  list_ascii_of_string "m/" ++ number_toString (purpose p) ++
  list_ascii_of_string "'/" ++ number_toString (account p) ++
  list_ascii_of_string "'/" ++ number_toString (change p) ++
  list_ascii_of_string "/" ++ number_toString (addressIndex p).

Definition is_digit (c : ascii) : bool :=
  let n := charCode c in (48 <=? n) && (n <=? 57).

(** The longest run of digits at the front, and what follows it. *)
Fixpoint span_digits (s : jsstr) : jsstr * jsstr :=
  match s with
  | c :: rest =>
      if is_digit c then let '(ds, tl) := span_digits rest in (c :: ds, tl)
      else ([], s)
  | [] => ([], [])
  end.

(** [(\d+)]: the character after each group in the pattern is not a digit,
    so the greedy match is the only one. *)
Definition group_digits (s : jsstr) : option (jsstr * jsstr) :=
  match span_digits s with
  | ([], _) => None
  | (ds, tl) => Some (ds, tl)
  end.

Definition literal (c : ascii) (s : jsstr) : option jsstr :=
  match s with
  | x :: rest => if Ascii.eqb x c then Some rest else None
  | [] => None
  end.

(** [pathString.match(/^m\/(\d+)'\/(\d+)'\/(\d+)\/(\d+)$/)]: the four
    captured groups, or [None] for [null]. *)
Definition path_match (pathString : jsstr) : option (jsstr * jsstr * jsstr * jsstr) :=
  s ← literal "m" pathString;
  s ← literal "/" s;
  '(g1, s) ← group_digits s;
  s ← literal "'" s;
  s ← literal "/" s;
  '(g2, s) ← group_digits s;
  s ← literal "'" s;
  s ← literal "/" s;
  '(g3, s) ← group_digits s;
  s ← literal "/" s;
  '(g4, s) ← group_digits s;
  match s with
  | [] => Some (g1, g2, g3, g4)
  | _ => None
  end.

(** [parseInt] of a run of decimal digits. *)
Definition parseInt (ds : jsstr) : Z :=
  fold_left (fun acc c => acc * 10 + (charCode c - 48)) ds 0.

Definition fromString (pathString : jsstr) : completion QTCHDPath :=
  match path_match pathString with
  | None => Throw (Error "Invalid HD path format")
  | Some (g1, g2, g3, g4) =>
      Ok (new_QTCHDPath (parseInt g1) (parseInt g2) (parseInt g3) (parseInt g4))
  end.

End HDPath.

(* ===================================================================== *)
(** ** The cryptographic libraries and the randomness they draw           *)
(* ===================================================================== *)

(** The bytes the operating system's generator will hand out next. *)
Definition OsRng : Type := list Z.

(** [crypto.randomBytes(n)] *)
Definition randomBytes (n : nat) (rng : OsRng) : Buffer * OsRng :=
  (firstn n rng, skipn n rng).

(** noble-post-quantum, as the scripts call it.  [keygen(seed)] is a
    function of its seed.  [encapsulate(publicKey, msg = randomBytes(32))]
    takes the message as an optional second argument. *)
Record Noble : Type := mkNoble
  { ml_kem1024_keygen : Buffer -> Buffer * Buffer;
    ml_kem1024_encapsulate_msg : Buffer -> Buffer -> Buffer * Buffer;
    ml_kem1024_decapsulate : Buffer -> Buffer -> Buffer;
    ml_dsa65_keygen : Buffer -> Buffer * Buffer }.

(** [ml_kem1024.encapsulate(publicKey)], the one-argument call of the
    scripts: the message is drawn from the operating system. *)
Definition ml_kem1024_encapsulate (N : Noble) (publicKey : Buffer) (rng : OsRng)
  : (Buffer * Buffer) * OsRng :=
  let '(msg, rng) := randomBytes 32 rng in
  (ml_kem1024_encapsulate_msg N publicKey msg, rng).

(** liboqs, as oqs_wallet_cli calls it.  Every operation draws from the
    process-wide generator, which [RngScope] has switched to the NIST-KAT
    DRBG; [Drbg] is the state of that generator. *)
Definition Drbg : Type := list Z.

Record LibOQS : Type := mkLibOQS
  { OQS_randombytes_nist_kat_init_256bit : list Z -> Drbg;
    kem_new_any : bool;
    sig_new_any : bool;
    OQS_KEM_keypair : Drbg -> option (list Z * list Z) * Drbg;
    OQS_KEM_encaps : list Z -> Drbg -> option (list Z * list Z) * Drbg;
    OQS_SIG_keypair : Drbg -> option (list Z * list Z) * Drbg }.

(* ===================================================================== *)
(** ** oqs_wallet_cli (main.cpp, rng_deterministic.cpp, json_emit.cpp)    *)
(* ===================================================================== *)

Module Cli.

Definition nyb (c : ascii) : Z :=
  let n := charCode c in
  if (48 <=? n) && (n <=? 57) then n - 48
  else if (97 <=? n) && (n <=? 102) then n - 97 + 10
  else if (65 <=? n) && (n <=? 70) then n - 65 + 10
  else -1.

Fixpoint hex_pairs (hex : jsstr) : string + list Z :=
  match hex with
  | h :: l :: rest =>
      let hi := nyb h in
      let lo := nyb l in
      if (hi <? 0) || (lo <? 0) then inl "invalid hex"%string
      else match hex_pairs rest with
           | inr out => inr (Z.lor (Z.shiftl hi 4) lo :: out)
           | inl e => inl e
           end
  | _ => inr []
  end.

(** [hex2bin]: [inl] is the thrown [std::runtime_error]. *)
Definition hex2bin (hex : jsstr) : string + list Z :=
  if Nat.odd (List.length hex) then inl "seed_hex length must be even"%string
  else hex_pairs hex.

(** SHAKE256 over the prefix, the domain and the seed, 48 bytes out. *)
Definition shake256_expand_seed_48 (seed : list Z) (domain : jsstr) : list Z :=
  let prefix := list_ascii_of_string "oqs_wallet_cli" in
  Keccak.SHAKE256 (map charCode prefix ++ map charCode domain ++ seed) 48.

Definition init_nist_kat_drbg_48 (L : LibOQS) (seed48 : list Z) : string + Drbg :=
  if negb (Nat.eqb (List.length seed48) 48) then inl "seed48 must be exactly 48 bytes"%string
  else inr (OQS_randombytes_nist_kat_init_256bit L seed48).

(** [RngScope scope(seed, domain)] *)
Definition RngScope (L : LibOQS) (seed : list Z) (dom : jsstr) : string + Drbg :=
  init_nist_kat_drbg_48 L (shake256_expand_seed_48 seed dom).

(** What a run of the tool leaves behind: the exit status and, on standard
    output, one JSON object, kept as its list of members. *)
Record ProcessResult : Type := mkProcessResult
  { status : Z; stdout : list (string * jsstr) }.

Definition json_pair (k : string) (v : jsstr) : string * jsstr := (k, v).

Definition cmd_gen_kyber_from_seed (L : LibOQS) (seed_hex : jsstr) : string + ProcessResult :=
  match hex2bin seed_hex with
  | inl e => inl e
  | inr seed =>
      match RngScope L seed (list_ascii_of_string "kyber_keygen") with
      | inl e => inl e
      | inr scope =>
          if negb (kem_new_any L) then inr (mkProcessResult 2 [])
          else match OQS_KEM_keypair L scope with
               | (None, _) => inr (mkProcessResult 3 [])
               | (Some (pk, sk), _) =>
                   inr (mkProcessResult 0
                          [json_pair "kyber_public_b64" (b64_encode pk);
                           json_pair "kyber_private_b64" (b64_encode sk)])
               end
      end
  end.

Definition cmd_gen_dilithium_from_seed (L : LibOQS) (seed_hex : jsstr)
  : string + ProcessResult :=
  match hex2bin seed_hex with
  | inl e => inl e
  | inr seed =>
      match RngScope L seed (list_ascii_of_string "dilithium_keygen") with
      | inl e => inl e
      | inr scope =>
          if negb (sig_new_any L) then inr (mkProcessResult 2 [])
          else match OQS_SIG_keypair L scope with
               | (None, _) => inr (mkProcessResult 3 [])
               | (Some (pk, sk), _) =>
                   inr (mkProcessResult 0
                          [json_pair "dilithium_public_b64" (b64_encode pk);
                           json_pair "dilithium_private_b64" (b64_encode sk)])
               end
      end
  end.

Definition cmd_kem_self_from_seed (L : LibOQS) (seed_hex : jsstr) : string + ProcessResult :=
  match hex2bin seed_hex with
  | inl e => inl e
  | inr seed =>
      match RngScope L seed (list_ascii_of_string "kyber_kem_self") with
      | inl e => inl e
      | inr scope =>
          if negb (kem_new_any L) then inr (mkProcessResult 2 [])
          else match OQS_KEM_keypair L scope with
               | (None, _) => inr (mkProcessResult 3 [])
               | (Some (pk, sk), scope) =>
                   match OQS_KEM_encaps L pk scope with
                   | (None, _) => inr (mkProcessResult 4 [])
                   | (Some (ct, ss), _) =>
                       inr (mkProcessResult 0
                              [json_pair "kyber_public_b64" (b64_encode pk);
                               json_pair "kyber_private_b64" (b64_encode sk);
                               json_pair "shared_b64" (b64_encode ss)])
                   end
               end
      end
  end.

(** [main]: [argv[1]] is the command, [argv[2]] the seed; an exception ends
    the run with status 99. *)
Definition main (L : LibOQS) (args : list jsstr) : ProcessResult :=
  match args with
  | [cmd; seed_hex] =>
      let run :=
        if jsstr_eqb cmd (list_ascii_of_string "gen_kyber_from_seed")
        then cmd_gen_kyber_from_seed L seed_hex
        else if jsstr_eqb cmd (list_ascii_of_string "gen_dilithium_from_seed")
        then cmd_gen_dilithium_from_seed L seed_hex
        else if jsstr_eqb cmd (list_ascii_of_string "kem_self_from_seed")
        then cmd_kem_self_from_seed L seed_hex
        else inr (mkProcessResult 1 []) in
      match run with
      | inr r => r
      | inl _ => mkProcessResult 99 []
      end
  | _ => mkProcessResult 1 []
  end.

End Cli.

(* ===================================================================== *)
(** ** The machine a script runs on                                       *)
(* ===================================================================== *)

(** Besides random bytes, the scripts ask three things of the machine they
    run on: whether the file build/oqs_wallet_cli is there, a build of it
    when it is not, and the writing of the wallet file.

    - [existsSync_cliBin] is [fs.existsSync(cliBin)] as the run finds it.
    - [build_status] is [mk.status] of the build ([make], or the batch file
      on Windows); [None] is [null], a build that could not be started or
      was killed.  [build_leaves_cliBin] tells whether the tool is in place
      after a build.  A build is taken to end the same way whenever it is
      run, so every call of [ensureCliBuilt] within one run comes to the
      same end.
    - [writeFileSync name value] is
      [fs.writeFileSync(name, JSON.stringify(value, null, 2))]: [None] when
      the text was built and written, the error thrown otherwise. *)
Record Host : Type := mkHost
  { existsSync_cliBin : bool;
    build_status : option Z;
    build_leaves_cliBin : bool;
    writeFileSync : string -> Json -> option JsError }.

(** [ensureCliBuilt()].  The source returns the path [cliBin]; the model
    returns whether the tool is at that path for the [spawnSync] that
    follows. *)
Definition ensureCliBuilt (h : Host) : completion bool :=
  if negb (existsSync_cliBin h) then
    match build_status h with
    | Some 0 => Ok (build_leaves_cliBin h)
    | _ => Exit 1
    end
  else Ok true.

(** [spawnSync(cli, args, { encoding: "utf8" })]: the run of the tool on
    [args], or [None] when there is nothing to run at [cli]; [status] is then
    [null]. *)
Definition spawnSync (cli : bool) (L : LibOQS) (args : list jsstr)
  : option Cli.ProcessResult :=
  if cli then Some (Cli.main L args) else None.

(** [fs.writeFileSync(name, JSON.stringify(value, null, 2))] as a call that
    returns or throws. *)
Definition fs_writeFileSync (h : Host) (name : string) (value : Json) : completion unit :=
  match writeFileSync h name value with
  | None => Ok tt
  | Some e => Throw e
  end.

(** [JSON.parse(r.stdout)] followed by [Buffer.from(o.key, "base64")]; a
    missing member is [undefined], which [Buffer.from] rejects. *)
Definition member_base64 (o : list (string * jsstr)) (key : string) : completion Buffer :=
  match find (fun kv => String.eqb (fst kv) key) o with
  | Some (_, v) => Ok (Buffer_from_base64 v)
  | None => Throw (TypeError "The first argument must be of type string")
  end.

(* ===================================================================== *)
(** ** qti2.js: the Primary method                                        *)
(* ===================================================================== *)

Definition qtc : jsstr := list_ascii_of_string "qtc".
Definition QTC_PQHD_DILITHIUM : jsstr := list_ascii_of_string "QTC_PQHD_DILITHIUM".

(** Step 1 of the three noble scripts (qti2.js, qtc2.js and the older
    qti3.js): a random seed, the key pair from it, and an encapsulation to
    the fresh public key.  Returns [kyber_pk], [kyber_sk], [sharedSecret]. *)
Definition noble_kyber_step (N : Noble) (rng : OsRng)
  : (Buffer * Buffer * Buffer) * OsRng :=
  let '(kyber_seed, rng) := randomBytes 64 rng in
  let '(kyber_pk, kyber_sk) := ml_kem1024_keygen N kyber_seed in
  let '((cipher, ss1), rng) := ml_kem1024_encapsulate N kyber_pk rng in
  let ss2 := ml_kem1024_decapsulate N cipher kyber_sk in
  let sharedSecret := ss1 in
  ((kyber_pk, kyber_sk, sharedSecret), rng).

Module qti2.

(** The variables of [generateWallet] at the end of its body. *)
Record Locals : Type := mkLocals
  { kyber_pk : Buffer; kyber_sk : Buffer; sharedSecret : Buffer;
    entropy : Buffer; dilithium_pk : Buffer; dilithium_sk : Buffer;
    addressBytes : Buffer; address : jsstr }.

(** The object [wallet] that is written and printed. *)
Record Wallet : Type := mkWallet
  { address_ : jsstr; entropy_b64 : jsstr;
    kyber_public_b64 : jsstr; kyber_private_b64 : jsstr;
    dilithium_public_b64 : jsstr; dilithium_private_b64 : jsstr;
    shared_secret_b64 : jsstr }.

(** 2. [crypto.createHash("sha3-512").update(sharedSecret).digest()] *)
Definition step2_entropy (sharedSecret : Buffer) : Buffer :=
  digest (update createHash_sha3_512 sharedSecret).

(** 3. [ml_dsa65.keygen(entropy.slice(0, 32))] *)
Definition step3_dilithium (N : Noble) (entropy : Buffer) : Buffer * Buffer :=
  ml_dsa65_keygen N (Buffer_slice0 32 entropy).

(** 4a, 4b. SHA3-256 of the Dilithium public key, first 20 bytes. *)
Definition step4_addressBytes (dilithium_pk : Buffer) : Buffer :=
  let hash := new_SHA3 256 in
  let hash := update hash dilithium_pk in
  let pkHash := digest hash in
  Buffer_slice0 20 pkHash.

(** 4c. [bech32.encode("qtc", bech32.toWords(addressBytes))] *)
Definition step4c_address (addressBytes : Buffer) : completion jsstr :=
  let words := bech32.toWords addressBytes in
  bech32.encode qtc words.

Definition step5_wallet (l : Locals) : Wallet :=
  {| address_ := address l;
     entropy_b64 := toString_base64 (entropy l);
     kyber_public_b64 := toString_base64 (kyber_pk l);
     kyber_private_b64 := toString_base64 (kyber_sk l);
     dilithium_public_b64 := toString_base64 (dilithium_pk l);
     dilithium_private_b64 := toString_base64 (dilithium_sk l);
     shared_secret_b64 := toString_base64 (sharedSecret l) |}.

(** The object [wallet] as [JSON.stringify] sees it. *)
Definition json_of_wallet (wallet : Wallet) : Json :=
  JObject
    [member "address" (JString (address_ wallet));
     member "entropy_b64" (JString (entropy_b64 wallet));
     member "kyber_public_b64" (JString (kyber_public_b64 wallet));
     member "kyber_private_b64" (JString (kyber_private_b64 wallet));
     member "dilithium_public_b64" (JString (dilithium_public_b64 wallet));
     member "dilithium_private_b64" (JString (dilithium_private_b64 wallet));
     member "shared_secret_b64" (JString (shared_secret_b64 wallet))].

(** 6. The file is written and the same text printed, inside a [try] whose
    handler ends the process. *)
Definition step6_save (h : Host) (wallet : Wallet) : completion unit :=
  catch_exit (fs_writeFileSync h "qti2_wallet.json" (json_of_wallet wallet)).

(** The function prints its wallet and returns nothing; the model returns
    the wallet that was written, with the variables it was made from. *)
Definition generateWallet (h : Host) (N : Noble) (rng : OsRng)
  : completion (Locals * Wallet) * OsRng :=
  let '((kyber_pk, kyber_sk, sharedSecret), rng) := noble_kyber_step N rng in
  let entropy := step2_entropy sharedSecret in
  let '(dilithium_pk, dilithium_sk) := step3_dilithium N entropy in
  let addressBytes := step4_addressBytes dilithium_pk in
  (address ← step4c_address addressBytes;
   let l := mkLocals kyber_pk kyber_sk sharedSecret entropy dilithium_pk dilithium_sk
              addressBytes address in
   let wallet := step5_wallet l in
   _ ← step6_save h wallet;
   Ok (l, wallet),
   rng).

End qti2.

(* ===================================================================== *)
(** ** qtc2.js: the Primary method, SHAKE256 entropy and witness version 1 *)
(* ===================================================================== *)

Module qtc2.

Record Locals : Type := mkLocals
  { kyber_pk : Buffer; kyber_sk : Buffer; sharedSecret : Buffer;
    entropy : Buffer; dilithium_pk : Buffer; dilithium_sk : Buffer;
    addressBytes : Buffer; address : jsstr }.

(** 2. [shake256.update(sharedSecret); shake256.digest(64)] *)
Definition step2_entropy (sharedSecret : Buffer) : Buffer :=
  let shake256 := new_SHAKE 256 in
  let shake256 := update shake256 sharedSecret in
  digest_n shake256 64.

Definition step3_dilithium (N : Noble) (entropy : Buffer) : Buffer * Buffer :=
  ml_dsa65_keygen N (Buffer_slice0 32 entropy).

Definition step4_addressBytes (dilithium_pk : Buffer) : Buffer :=
  let hash := new_SHA3 256 in
  let hash := update hash dilithium_pk in
  let pkHash := digest hash in
  Buffer_slice0 20 pkHash.

(** 4c. witness version 1 in front of the words. *)
Definition step4c_address (addressBytes : Buffer) : completion jsstr :=
  let witnessVersion := 1 in
  let witnessProgram := addressBytes in
  let words := bech32.toWords witnessProgram in
  let data := witnessVersion :: words in
  bech32.encode qtc data.

Definition step5_wallet (l : Locals) : qti2.Wallet :=
  {| qti2.address_ := address l;
     qti2.entropy_b64 := toString_base64 (entropy l);
     qti2.kyber_public_b64 := toString_base64 (kyber_pk l);
     qti2.kyber_private_b64 := toString_base64 (kyber_sk l);
     qti2.dilithium_public_b64 := toString_base64 (dilithium_pk l);
     qti2.dilithium_private_b64 := toString_base64 (dilithium_sk l);
     qti2.shared_secret_b64 := toString_base64 (sharedSecret l) |}.

(** 6. As in qti2.js, and to the same file name. *)
Definition step6_save (h : Host) (wallet : qti2.Wallet) : completion unit :=
  catch_exit (fs_writeFileSync h "qti2_wallet.json" (qti2.json_of_wallet wallet)).

Definition generateWallet (h : Host) (N : Noble) (rng : OsRng)
  : completion (Locals * qti2.Wallet) * OsRng :=
  let '((kyber_pk, kyber_sk, sharedSecret), rng) := noble_kyber_step N rng in
  let entropy := step2_entropy sharedSecret in
  let '(dilithium_pk, dilithium_sk) := step3_dilithium N entropy in
  let addressBytes := step4_addressBytes dilithium_pk in
  (address ← step4c_address addressBytes;
   let l := mkLocals kyber_pk kyber_sk sharedSecret entropy dilithium_pk dilithium_sk
              addressBytes address in
   let wallet := step5_wallet l in
   _ ← step6_save h wallet;
   Ok (l, wallet),
   rng).

End qtc2.

(* ===================================================================== *)
(** ** The single PQ-HD scripts: qti3.js and its older noble variant      *)
(* ===================================================================== *)

(** What an identifier of a function body can be bound to. *)
Inductive JsValue : Type :=
| VBuffer (b : Buffer)
| VString (s : jsstr)
| VNumber (n : Z)
| VWords (ws : list Z).

(** The bindings in force where an expression is evaluated. *)
Abbreviation Scope := (gmap string JsValue).

(** Evaluating an identifier: an unbound one throws a ReferenceError. *)
Definition resolve (scope : Scope) (name : string) : completion JsValue :=
  match scope !! name with
  | Some v => Ok v
  | None => Throw (ReferenceError (String.append name " is not defined"))
  end.

(** [name.toString("base64")] and [Buffer.from(name).toString("base64")] *)
Definition resolve_base64 (scope : Scope) (name : string) : completion jsstr :=
  v ← resolve scope name;
  match v with
  | VBuffer b => Ok (toString_base64 b)
  | _ => Throw (TypeError "not a buffer")
  end.

Definition resolve_string (scope : Scope) (name : string) : completion jsstr :=
  v ← resolve scope name;
  match v with
  | VString s => Ok s
  | _ => Throw (TypeError "not a string")
  end.

Module pqhd.

(** The object [pqhd_wallet]; the constant members ([algorithm],
    [quantum_safe], [version], [description]) are left out. *)
Record Wallet : Type := mkWallet
  { address : jsstr; method : jsstr; witness_version : Z;
    master_entropy_b64 : jsstr;
    kyber_public_b64 : jsstr; kyber_private_b64 : jsstr;
    dilithium_public_b64 : jsstr; dilithium_private_b64 : jsstr;
    kyber_shared_secret_b64 : jsstr;
    combined_input_b64 : jsstr }.

(** 5. The object literal [const pqhd_wallet = { ... }], the same text in
    both scripts; its members are evaluated in order, each identifier
    against the bindings of the enclosing function. *)
Definition step5_wallet (scope : Scope) : completion Wallet :=
  address ← resolve_string scope "address";
  master_entropy_b64 ← resolve_base64 scope "master_entropy";
  kyber_public_b64 ← resolve_base64 scope "kyber_pk";
  kyber_private_b64 ← resolve_base64 scope "kyber_sk";
  dilithium_public_b64 ← resolve_base64 scope "dilithium_pk";
  dilithium_private_b64 ← resolve_base64 scope "dilithium_sk";
  kyber_shared_secret_b64 ← resolve_base64 scope "sharedSecret";
  combined_input_b64 ← resolve_base64 scope "combined_input";
  Ok {| address := address;
        method := list_ascii_of_string "PQ-HD";
        witness_version := 2;
        master_entropy_b64 := master_entropy_b64;
        kyber_public_b64 := kyber_public_b64;
        kyber_private_b64 := kyber_private_b64;
        dilithium_public_b64 := dilithium_public_b64;
        dilithium_private_b64 := dilithium_private_b64;
        kyber_shared_secret_b64 := kyber_shared_secret_b64;
        combined_input_b64 := combined_input_b64 |}.

(** The object [pqhd_wallet] as [JSON.stringify] sees it, with its
    constant members. *)
Definition json_of_wallet (w : Wallet) : Json :=
  JObject
    [member "address" (JString (address w));
     member "method" (JString (method w));
     member "witness_version" (JNumber (witness_version w));
     member "master_entropy_b64" (JString (master_entropy_b64 w));
     member "kyber_public_b64" (JString (kyber_public_b64 w));
     member "kyber_private_b64" (JString (kyber_private_b64 w));
     member "dilithium_public_b64" (JString (dilithium_public_b64 w));
     member "dilithium_private_b64" (JString (dilithium_private_b64 w));
     member "kyber_shared_secret_b64" (JString (kyber_shared_secret_b64 w));
     member "combined_input_b64" (JString (combined_input_b64 w));
     member "algorithm"
       (JString (list_ascii_of_string "Kyber1024-KEM + Dilithium3-DSA (Deterministic PQ-HD)"));
     member "quantum_safe" (JBoolean true);
     member "version" (JString (list_ascii_of_string "QTC-PQHD-1.0"));
     member "description"
       (JString (list_ascii_of_string "QTC PQ-HD Wallet for External Wallet Integration"))].

(** 6. The file is written and the same text printed, inside a [try] whose
    handler ends the process. *)
Definition step6_save (h : Host) (pqhd_wallet : Wallet) : completion unit :=
  catch_exit (fs_writeFileSync h "qti3_pqhd_wallet.json" (json_of_wallet pqhd_wallet)).

(** 2. The seed of the Dilithium key pair:
    [shake256.update(sharedSecret); shake256.update("QTC_PQHD_DILITHIUM");
     shake256.digest(32)] *)
Definition dilithium_seed (sharedSecret : Buffer) : Buffer :=
  let shake256 := new_SHAKE 256 in
  let shake256 := update shake256 sharedSecret in
  let shake256 := update shake256 (Buffer_from_utf8 QTC_PQHD_DILITHIUM) in
  digest_n shake256 32.

(** 4a, 4b. SHA3-256 of the master entropy, first 20 bytes. *)
Definition step4_addressBytes (master_entropy : Buffer) : Buffer :=
  let hash := new_SHA3 256 in
  let hash := update hash master_entropy in
  let entropyHash := digest hash in
  Buffer_slice0 20 entropyHash.

(** 4c. witness version 2 in front of the words. *)
Definition step4c_address (addressBytes : Buffer) : completion jsstr :=
  let witnessVersion := 2 in
  let witnessProgram := addressBytes in
  let words := bech32.toWords witnessProgram in
  let data := witnessVersion :: words in
  bech32.encode qtc data.

(** The variables both scripts declare before the object literal, step by
    step; [common_scope] binds each of them by its name.  (The imported
    modules, the functions and the hash objects are bound too; the object
    literal reads none of them.) *)
Record Locals : Type := mkLocals
  { kyber_pk : Buffer; kyber_sk : Buffer; sharedSecret : Buffer;
    dilithium_pk : Buffer; dilithium_sk : Buffer;
    master_entropy : Buffer; addressBytes : Buffer; address_ : jsstr }.

Definition common_scope (l : Locals) : Scope :=
  <["kyber_pk" := VBuffer (kyber_pk l)]>
  (<["kyber_sk" := VBuffer (kyber_sk l)]>
  (<["sharedSecret" := VBuffer (sharedSecret l)]>
  (<["dilithium_pk" := VBuffer (dilithium_pk l)]>
  (<["dilithium_sk" := VBuffer (dilithium_sk l)]>
  (<["master_entropy" := VBuffer (master_entropy l)]>
  (<["entropyHash" := VBuffer (digest (update (new_SHA3 256) (master_entropy l)))]>
  (<["addressBytes" := VBuffer (addressBytes l)]>
  (<["witnessVersion" := VNumber 2]>
  (<["witnessProgram" := VWords (addressBytes l)]>
  (<["words" := VWords (bech32.toWords (addressBytes l))]>
  (<["data" := VWords (2 :: bech32.toWords (addressBytes l))]>
  (<["address" := VString (address_ l)]> ∅)))))))))))).

End pqhd.

(** src/qti3.js: keys from oqs_wallet_cli. *)
Module qti3.

(** 1. [kem_self_from_seed] on a fresh random seed.  [ensureCliBuilt] is
    called first: when it ends the process, no random byte has been read. *)
Definition step1_kyber (h : Host) (L : LibOQS) (rng : OsRng)
  : completion (Buffer * Buffer * Buffer) * OsRng :=
  match ensureCliBuilt h with
  | Ok cli =>
      let '(seed, rng) := randomBytes 64 rng in
      let seed_hex := toString_hex seed in
      match spawnSync cli L [list_ascii_of_string "kem_self_from_seed"; seed_hex] with
      | Some r1 =>
          (if negb (Cli.status r1 =? 0) then Exit 1
           else catch_exit (
             let o1 := Cli.stdout r1 in
             kyber_pk ← member_base64 o1 "kyber_public_b64";
             kyber_sk ← member_base64 o1 "kyber_private_b64";
             sharedSecret ← member_base64 o1 "shared_b64";
             Ok (kyber_pk, kyber_sk, sharedSecret)),
           rng)
      | None => (Exit 1, rng)
      end
  | Throw _ => (Exit 1, rng)
  | Exit code => (Exit code, rng)
  end.

(** 2. [gen_dilithium_from_seed] on the seed derived from the shared
    secret. *)
Definition step2_dilithium (h : Host) (L : LibOQS) (sharedSecret : Buffer)
  : completion (Buffer * Buffer) :=
  catch_exit (
    let seed_hex := toString_hex (pqhd.dilithium_seed sharedSecret) in
    cli ← ensureCliBuilt h;
    match spawnSync cli L [list_ascii_of_string "gen_dilithium_from_seed"; seed_hex] with
    | Some res2 =>
        if negb (Cli.status res2 =? 0) then Throw (Error "oqs_wallet_cli failed")
        else
          let out2 := Cli.stdout res2 in
          dilithium_pk ← member_base64 out2 "dilithium_public_b64";
          dilithium_sk ← member_base64 out2 "dilithium_private_b64";
          Ok (dilithium_pk, dilithium_sk)
    | None => Throw (Error "oqs_wallet_cli failed")
    end).

(** 3. [combined_input = Buffer.concat([sharedSecret, dilithium_pk])] and
    [shake256_master.update(combined_input); shake256_master.digest(64)] *)
Definition step3_combined_input (sharedSecret dilithium_pk : Buffer) : Buffer :=
  Buffer_concat [sharedSecret; dilithium_pk].

Definition step3_master_entropy (combined_input : Buffer) : Buffer :=
  let shake256_master := new_SHAKE 256 in
  let shake256_master := update shake256_master combined_input in
  digest_n shake256_master 64.

Definition scope (l : pqhd.Locals) (combined_input : Buffer) : Scope :=
  <["combined_input" := VBuffer combined_input]> (pqhd.common_scope l).

(** The function prints its wallet and returns nothing; the model returns
    the wallet that was written, with the variables it was made from. *)
Definition generatePQHDWallet (h : Host) (L : LibOQS) (rng : OsRng)
  : completion (pqhd.Locals * pqhd.Wallet) * OsRng :=
  let '(r, rng) := step1_kyber h L rng in
  ('(kyber_pk, kyber_sk, sharedSecret) ← r;
   '(dilithium_pk, dilithium_sk) ← step2_dilithium h L sharedSecret;
   let combined_input := step3_combined_input sharedSecret dilithium_pk in
   let master_entropy := step3_master_entropy combined_input in
   let addressBytes := pqhd.step4_addressBytes master_entropy in
   address ← pqhd.step4c_address addressBytes;
   let l := pqhd.mkLocals kyber_pk kyber_sk sharedSecret dilithium_pk dilithium_sk
              master_entropy addressBytes address in
   pqhd_wallet ← pqhd.step5_wallet (scope l combined_input);
   _ ← pqhd.step6_save h pqhd_wallet;
   Ok (l, pqhd_wallet),
   rng).

End qti3.

(** src/unnamed/part_002: the same script on noble-post-quantum. *)
Module qti3_noble.

(** 2. [ml_dsa65.keygen(dilithium_seed)] *)
Definition step2_dilithium (N : Noble) (sharedSecret : Buffer) : Buffer * Buffer :=
  ml_dsa65_keygen N (pqhd.dilithium_seed sharedSecret).

(** 3. [shake256_master.update(sharedSecret);
        shake256_master.update(Buffer.from(dilithium_pk));
        shake256_master.digest(64)] *)
Definition step3_master_entropy (sharedSecret dilithium_pk : Buffer) : Buffer :=
  let shake256_master := new_SHAKE 256 in
  let shake256_master := update shake256_master sharedSecret in
  let shake256_master := update shake256_master dilithium_pk in
  digest_n shake256_master 64.

(** No declaration of [combined_input] anywhere in this file. *)
Definition scope (l : pqhd.Locals) : Scope := pqhd.common_scope l.

(** Everything up to the object literal. *)
Definition steps1to4 (N : Noble) (rng : OsRng) : completion pqhd.Locals * OsRng :=
  let '((kyber_pk, kyber_sk, sharedSecret), rng) := noble_kyber_step N rng in
  let '(dilithium_pk, dilithium_sk) := step2_dilithium N sharedSecret in
  let master_entropy := step3_master_entropy sharedSecret dilithium_pk in
  let addressBytes := pqhd.step4_addressBytes master_entropy in
  (address ← pqhd.step4c_address addressBytes;
   Ok (pqhd.mkLocals kyber_pk kyber_sk sharedSecret dilithium_pk dilithium_sk
         master_entropy addressBytes address),
   rng).

Definition generatePQHDWallet (h : Host) (N : Noble) (rng : OsRng)
  : completion (pqhd.Locals * pqhd.Wallet) * OsRng :=
  let '(r, rng) := steps1to4 N rng in
  (l ← r;
   pqhd_wallet ← pqhd.step5_wallet (scope l);
   _ ← pqhd.step6_save h pqhd_wallet;
   Ok (l, pqhd_wallet),
   rng).

End qti3_noble.

(* ===================================================================== *)
(** ** qti3_hd.js: class QTCHDNode and class QTCPQHDWallet                *)
(* ===================================================================== *)

(** [null] fields are [None]. *)
Record QTCHDNode : Type := mkQTCHDNode
  { masterEntropy : Buffer; path : QTCHDPath;
    chainCode : option Buffer;
    privateKey : option Buffer; publicKey : option Buffer }.

(** [new QTCHDNode(masterEntropy, path)] *)
Definition new_QTCHDNode (masterEntropy : Buffer) (path : QTCHDPath) : QTCHDNode :=
  mkQTCHDNode masterEntropy path None None None.

Record AddressEntry : Type := mkAddressEntry
  { index : Z; path_ : jsstr; address : jsstr;
    dilithium_public_b64 : jsstr; dilithium_private_b64 : jsstr }.

Record QTCPQHDWallet : Type := mkQTCPQHDWallet
  { kyberPublicKey : option Buffer; kyberSecretKey : option Buffer;
    sharedSecret : option Buffer; masterEntropy_ : option Buffer;
    masterNode : option QTCHDNode }.

(** [new QTCPQHDWallet()] *)
Definition new_QTCPQHDWallet : QTCPQHDWallet := mkQTCPQHDWallet None None None None None.

(** The object [generateMaster] returns. *)
Record MasterData : Type := mkMasterData
  { m_kyber_public_b64 : jsstr; m_kyber_private_b64 : jsstr;
    m_dilithium_public_b64 : jsstr; m_dilithium_private_b64 : jsstr;
    m_kyber_shared_secret_b64 : jsstr; m_master_entropy_b64 : jsstr;
    m_combined_input_b64 : jsstr }.

(** The object [exportWallet] returns (constant members left out). *)
Record WalletData : Type := mkWalletData
  { witness_version : Z;
    master_kyber_public_b64 : jsstr; master_kyber_private_b64 : jsstr;
    master_kyber_shared_secret_b64 : jsstr; master_master_entropy_b64 : jsstr;
    addresses : list AddressEntry; total_addresses : Z }.

(** The two variants of the file differ in where the keys come from.  The
    classes are written once over [sig_keygen], the Dilithium key generation
    from a 32-byte seed, and [kem_self], step 1 of [generateMaster]. *)
Module HDWallet.
Section Classes.
Variable sig_keygen : Buffer -> completion (Buffer * Buffer).
Variable kem_self : OsRng -> completion (Buffer * Buffer * Buffer) * OsRng.

Definition deriveChild (this : QTCHDNode) (index : Z) : completion QTCHDNode :=
  let childPath :=
    new_QTCHDPath (purpose (path this)) (account (path this)) (change (path this)) index in
  let pathData := Buffer_from_utf8 (HDPath.toString childPath) in
  let indexData := Buffer_alloc 4 in
  indexData ← writeUInt32BE indexData index;
  let derivationData := Buffer_concat [masterEntropy this; pathData; indexData] in
  let hash := new_SHA3 512 in
  let hash := update hash derivationData in
  let childEntropy := digest hash in
  Ok (new_QTCHDNode childEntropy childPath).

(** Sets [privateKey] and [publicKey] of the node; returns the node as it
    is afterwards together with the key pair. *)
Definition generateKeyPair (this : QTCHDNode) : completion (QTCHDNode * (Buffer * Buffer)) :=
  let dilithiumSeed := Buffer_slice0 32 (masterEntropy this) in
  '(pk, sk) ← sig_keygen dilithiumSeed;
  Ok (mkQTCHDNode (masterEntropy this) (path this) (chainCode this) (Some sk) (Some pk),
      (pk, sk)).

Definition generateAddress (this : QTCHDNode) : completion jsstr :=
  match publicKey this with
  | None => Throw (Error "Must generate keypair first")
  | Some publicKey =>
      let hash := new_SHA3 256 in
      let hash := update hash publicKey in
      let publicKeyHash := digest hash in
      let addressBytes := Buffer_slice0 20 publicKeyHash in
      let witnessVersion := 2 in
      let witnessProgram := addressBytes in
      let words := bech32.toWords witnessProgram in
      let data := witnessVersion :: words in
      bech32.encode qtc data
  end.

Definition generateMaster (this : QTCPQHDWallet) (rng : OsRng)
  : completion (QTCPQHDWallet * MasterData) * OsRng :=
  let '(r, rng) := kem_self rng in
  ('(kyberPublicKey, kyberSecretKey, sharedSecret) ← r;
   let shake256 := new_SHAKE 256 in
   let shake256 := update shake256 sharedSecret in
   let shake256 := update shake256 (Buffer_from_utf8 QTC_PQHD_DILITHIUM) in
   let dilithium_seed := digest_n shake256 32 in
   '(dilithiumPublicKey, dilithiumSecretKey) ← sig_keygen dilithium_seed;
   let combinedInput := Buffer_concat [sharedSecret; dilithiumPublicKey] in
   let hash := new_SHA3 512 in
   let hash := update hash combinedInput in
   let masterEntropy := digest hash in
   let masterNode := new_QTCHDNode masterEntropy QTCHDPath_default in
   '(masterNode, _) ← generateKeyPair masterNode;
   Ok (mkQTCPQHDWallet (Some kyberPublicKey) (Some kyberSecretKey) (Some sharedSecret)
         (Some masterEntropy) (Some masterNode),
       {| m_kyber_public_b64 := toString_base64 kyberPublicKey;
          m_kyber_private_b64 := toString_base64 kyberSecretKey;
          m_dilithium_public_b64 := toString_base64 dilithiumPublicKey;
          m_dilithium_private_b64 := toString_base64 dilithiumSecretKey;
          m_kyber_shared_secret_b64 := toString_base64 sharedSecret;
          m_master_entropy_b64 := toString_base64 masterEntropy;
          m_combined_input_b64 := toString_base64 combinedInput |}),
   rng).

(** [addresses.push(entry)]: an array holds at most 2^32 - 1 elements. *)
Definition push (addresses : list AddressEntry) (entry : AddressEntry)
  : completion (list AddressEntry) :=
  if 2 ^ 32 - 1 <=? Z.of_nat (List.length addresses)
  then Throw (RangeError "Invalid array length")
  else Ok (addresses ++ [entry]).

(** The body of [for (let i = 0; i < count; i++)], over the values of [i]
    still to come. *)
Fixpoint generateAddresses_loop (masterNode : QTCHDNode) (todo : list Z)
    (addresses : list AddressEntry) : completion (list AddressEntry) :=
  match todo with
  | [] => Ok addresses
  | i :: rest =>
      childNode ← deriveChild masterNode i;
      '(childNode, keyPair) ← generateKeyPair childNode;
      address ← generateAddress childNode;
      let path := HDPath.toString (path childNode) in
      addresses ←
        push addresses
          {| index := i; path_ := path; address := address;
             dilithium_public_b64 := toString_base64 (fst keyPair);
             dilithium_private_b64 := toString_base64 (snd keyPair) |};
      generateAddresses_loop masterNode rest addresses
  end.

(** [account] and [change] are only printed. *)
Definition generateAddresses (this : QTCPQHDWallet) (count account change : Z)
  : completion (list AddressEntry) :=
  match masterNode this with
  | None => Throw (Error "Must generate master wallet first")
  | Some masterNode =>
      generateAddresses_loop masterNode (map Z.of_nat (seq 0 (Z.to_nat count))) []
  end.

Definition exportWallet (this : QTCPQHDWallet) (addresses : list AddressEntry)
  : completion WalletData :=
  match kyberPublicKey this, kyberSecretKey this, sharedSecret this, masterEntropy_ this with
  | Some pk, Some sk, Some ss, Some me =>
      Ok {| witness_version := 2;
            master_kyber_public_b64 := toString_base64 pk;
            master_kyber_private_b64 := toString_base64 sk;
            master_kyber_shared_secret_b64 := toString_base64 ss;
            master_master_entropy_b64 := toString_base64 me;
            addresses := addresses;
            total_addresses := Z.of_nat (List.length addresses) |}
  | _, _, _, _ => Throw (TypeError "Cannot read properties of null")
  end.

(** [parseInt(args[k]) || fallback] *)
Definition or_default (n fallback : Z) : Z := if n =? 0 then fallback else n.

Definition json_of_entry (e : AddressEntry) : Json :=
  JObject
    [member "index" (JNumber (index e));
     member "path" (JString (path_ e));
     member "address" (JString (address e));
     member "dilithium_public_b64" (JString (dilithium_public_b64 e));
     member "dilithium_private_b64" (JString (dilithium_private_b64 e))].

(** The object [exportWallet] returns as [JSON.stringify] sees it, with its
    constant members. *)
Definition json_of_walletData (walletData : WalletData) : Json :=
  JObject
    [member "wallet_type" (JString (list_ascii_of_string "QTC-PQHD-HD"));
     member "version" (JString (list_ascii_of_string "QTC-PQHD-2.0"));
     member "algorithm"
       (JString (list_ascii_of_string
                   "Kyber1024-KEM + Dilithium3-DSA (Deterministic PQ-HD HD)"));
     member "quantum_safe" (JBoolean true);
     member "witness_version" (JNumber (witness_version walletData));
     member "master"
       (JObject
          [member "kyber_public_b64" (JString (master_kyber_public_b64 walletData));
           member "kyber_private_b64" (JString (master_kyber_private_b64 walletData));
           member "kyber_shared_secret_b64"
             (JString (master_kyber_shared_secret_b64 walletData));
           member "master_entropy_b64" (JString (master_master_entropy_b64 walletData))]);
     member "addresses" (JArray (map json_of_entry (addresses walletData)));
     member "total_addresses" (JNumber (total_addresses walletData));
     member "derivation_method"
       (JString (list_ascii_of_string "SHA3-512 hierarchical derivation"));
     member "description"
       (JString (list_ascii_of_string
                   "QTC PQ-HD Hierarchical Deterministic Wallet for External Integration"))].

(** [main], from the three parsed arguments on.  Everything from
    [generateMaster] to the printing of the wallet stands in one [try] whose
    handler ends the process.  The function returns nothing; the model
    returns the wallet that was written. *)
Definition main (h : Host) (count account change : Z) (rng : OsRng)
  : completion WalletData * OsRng :=
  let count := or_default count 5 in
  let account := or_default account 0 in
  let change := or_default change 0 in
  let wallet := new_QTCPQHDWallet in
  let '(r, rng) := generateMaster wallet rng in
  (catch_exit (
     '(wallet, masterData) ← r;
     addresses ← generateAddresses wallet count account change;
     walletData ← exportWallet wallet addresses;
     let filename := "qti3_pqhd_hd_wallet.json"%string in
     _ ← fs_writeFileSync h filename (json_of_walletData walletData);
     Ok walletData),
   rng).
End Classes.
End HDWallet.

(** src/unnamed/part_001: keys from noble-post-quantum. *)
Module qti3_hd_noble.
Definition sig_keygen (N : Noble) (seed : Buffer) : completion (Buffer * Buffer) :=
  Ok (ml_dsa65_keygen N seed).

Definition kem_self (N : Noble) (rng : OsRng)
  : completion (Buffer * Buffer * Buffer) * OsRng :=
  let '(keys, rng) := noble_kyber_step N rng in (Ok keys, rng).

Definition deriveChild := HDWallet.deriveChild.
Definition generateKeyPair (N : Noble) := HDWallet.generateKeyPair (sig_keygen N).
Definition generateAddress := HDWallet.generateAddress.
Definition generateMaster (N : Noble) :=
  HDWallet.generateMaster (sig_keygen N) (kem_self N).
Definition generateAddresses (N : Noble) := HDWallet.generateAddresses (sig_keygen N).
Definition exportWallet := HDWallet.exportWallet.
Definition main (h : Host) (N : Noble) := HDWallet.main (sig_keygen N) (kem_self N) h.
End qti3_hd_noble.

(** src/unnamed/part_000: keys from oqs_wallet_cli. *)
Module qti3_hd_cli.
(** The Dilithium call of [generateKeyPair] and of step 2 of
    [generateMaster]. *)
Definition sig_keygen (h : Host) (L : LibOQS) (seed : Buffer) : completion (Buffer * Buffer) :=
  let seed_hex := toString_hex seed in
  cli ← ensureCliBuilt h;
  match spawnSync cli L [list_ascii_of_string "gen_dilithium_from_seed"; seed_hex] with
  | Some res =>
      if negb (Cli.status res =? 0) then Throw (Error "oqs_wallet_cli failed")
      else
        let out := Cli.stdout res in
        publicKey ← member_base64 out "dilithium_public_b64";
        privateKey ← member_base64 out "dilithium_private_b64";
        Ok (publicKey, privateKey)
  | None => Throw (Error "oqs_wallet_cli failed")
  end.

(** Step 1 of [generateMaster]: [ensureCliBuilt] comes before the random
    bytes are read. *)
Definition kem_self (h : Host) (L : LibOQS) (rng : OsRng)
  : completion (Buffer * Buffer * Buffer) * OsRng :=
  match ensureCliBuilt h with
  | Ok cli =>
      let '(seed, rng) := randomBytes 64 rng in
      let seed_hex := toString_hex seed in
      match spawnSync cli L [list_ascii_of_string "kem_self_from_seed"; seed_hex] with
      | Some r1 =>
          (if negb (Cli.status r1 =? 0) then Throw (Error "kem_self failed")
           else
             let o1 := Cli.stdout r1 in
             kyberPublicKey ← member_base64 o1 "kyber_public_b64";
             kyberSecretKey ← member_base64 o1 "kyber_private_b64";
             sharedSecret ← member_base64 o1 "shared_b64";
             Ok (kyberPublicKey, kyberSecretKey, sharedSecret),
           rng)
      | None => (Throw (Error "kem_self failed"), rng)
      end
  | Throw e => (Throw e, rng)
  | Exit code => (Exit code, rng)
  end.

Definition deriveChild := HDWallet.deriveChild.
Definition generateKeyPair (h : Host) (L : LibOQS) := HDWallet.generateKeyPair (sig_keygen h L).
Definition generateAddress := HDWallet.generateAddress.
Definition generateMaster (h : Host) (L : LibOQS) :=
  HDWallet.generateMaster (sig_keygen h L) (kem_self h L).
Definition generateAddresses (h : Host) (L : LibOQS) :=
  HDWallet.generateAddresses (sig_keygen h L).
Definition exportWallet := HDWallet.exportWallet.
Definition main (h : Host) (L : LibOQS) := HDWallet.main (sig_keygen h L) (kem_self h L) h.
End qti3_hd_cli.

(* ===================================================================== *)
(** ** The address codec and the derivation formulas, as specified        *)
(* ===================================================================== *)

Module AddressCodec.

(** The encoding every witness-versioned script performs (qtc2.js and the
    PQ-HD scripts, with [witnessVersion] 1 or 2), over the codec with
    checksum constant [K]. *)
Definition encode_with (K : Z) (witnessVersion : Z) (program : list Z) : completion jsstr :=
  let witnessProgram := program in
  let words := Bech32.toWords witnessProgram in
  let data := witnessVersion :: words in
  Bech32.encode K qtc data.

(** With the codec the scripts import. *)
Definition encode : Z -> list Z -> completion jsstr := encode_with Bech32.bech32_CONST.

(** Modelled from the spec: the repository holds no decoder, so
    [decode(text) -> (hrp, witnessVersion, program)] is written from the
    specification's description on the decoding half of the bech32 package:
    the first data value is the witness version, the remaining values are
    repacked into bytes.  [K] is the checksum constant the text is checked
    against. *)
Definition decode_with (K : Z) (text : jsstr) : completion (jsstr * Z * list Z) :=
  d ← Bech32.decode K text;
  match Bech32.words d with
  | [] => Throw (Error "FormatError")
  | witnessVersion :: words =>
      if (witnessVersion <? 0) || (31 <? witnessVersion) then Throw (Error "VersionError")
      else
        program ← Bech32.fromWords words;
        Ok (Bech32.prefix d, witnessVersion, program)
  end.

(** Modelled from the spec: [decode] of section 4.3.  The section
    prescribes the bech32m constant for the checksum of an address, so this
    is the constant the specified decoder verifies. *)
Definition decode : jsstr -> completion (jsstr * Z * list Z) :=
  decode_with Bech32.bech32m_CONST.

End AddressCodec.

Module Spec.

(** [bigEndianUint32]: the four base-256 digits, most significant first. *)
Definition bigEndianUint32 (n : Z) : list Z :=
  [n / 2 ^ 24 mod 256; n / 2 ^ 16 mod 256; n / 2 ^ 8 mod 256; n mod 256].





Definition is_byte (b : Z) : Prop := 0 <= b < 256.

End Spec.

(* ===================================================================== *)
(** ** Stand-ins for the external libraries, for running the scripts      *)
(* ===================================================================== *)

Module Fixtures.

(** A stand-in for noble-post-quantum whose outputs show their inputs: the
    shared secret is the encapsulation message twice, the Dilithium public
    key is the seed followed by its SHA3-256 digest. *)
Definition echo_noble : Noble :=
  {| ml_kem1024_keygen := fun seed => (firstn 32 seed, seed);
     ml_kem1024_encapsulate_msg := fun publicKey msg => (msg ++ publicKey, msg ++ msg);
     ml_kem1024_decapsulate := fun cipherText secretKey =>
       firstn 32 cipherText ++ firstn 32 cipherText;
     ml_dsa65_keygen := fun seed => (seed ++ Keccak.SHA3_256 seed, seed) |}.

(** As [echo_noble], with a Dilithium public key fixed to 32 bytes 0x22. *)
Definition vector_noble : Noble :=
  {| ml_kem1024_keygen := fun seed => (firstn 32 seed, seed);
     ml_kem1024_encapsulate_msg := fun publicKey msg => (msg ++ publicKey, msg ++ msg);
     ml_kem1024_decapsulate := fun cipherText secretKey =>
       firstn 32 cipherText ++ firstn 32 cipherText;
     ml_dsa65_keygen := fun seed => (repeat 0x22 32, seed) |}.

(** Drawing [n] bytes from the stand-in DRBG rotates its state. *)
Definition draw (n : nat) (d : Drbg) : list Z * Drbg :=
  (firstn n d, skipn n d ++ firstn n d).

(** A stand-in for liboqs: the DRBG state is the 48-byte seed, every
    operation draws its output from it. *)
Definition echo_liboqs : LibOQS :=
  {| OQS_randombytes_nist_kat_init_256bit := fun seed48 => seed48;
     kem_new_any := true;
     sig_new_any := true;
     OQS_KEM_keypair := fun d =>
       let '(pk, d) := draw 16 d in
       let '(sk, d) := draw 16 d in (Some (pk, sk), d);
     OQS_KEM_encaps := fun pk d =>
       let '(m, d) := draw 32 d in (Some (m ++ pk, m), d);
     OQS_SIG_keypair := fun d =>
       let '(pk, d) := draw 24 d in
       let '(sk, d) := draw 24 d in (Some (pk, sk), d) |}.

(** A machine on which the tool has been built and the wallet file can be
    written. *)
Definition ready_host : Host :=
  {| existsSync_cliBin := true;
     build_status := Some 0;
     build_leaves_cliBin := true;
     writeFileSync := fun name value => None |}.

(** A machine without the tool, on which the build fails. *)
Definition bare_host : Host :=
  {| existsSync_cliBin := false;
     build_status := Some 2;
     build_leaves_cliBin := false;
     writeFileSync := fun name value => None |}.

(** A machine on which no file can be written. *)
Definition readonly_host : Host :=
  {| existsSync_cliBin := true;
     build_status := Some 0;
     build_leaves_cliBin := true;
     writeFileSync := fun name value => Some (Error "EACCES: permission denied") |}.

(** Two futures of the operating system's generator that agree on the
    first 64 bytes (the Kyber seed) and differ afterwards. *)
Definition tape_a : OsRng := repeat 0 64 ++ repeat 0x11 32.
Definition tape_b : OsRng := repeat 0 64 ++ repeat 0x33 32.

Definition ss11 : Buffer := repeat 0x11 64.
Definition pk22 : Buffer := repeat 0x22 32.

End Fixtures.

(** The address loop: every entry pushed for an index [i] comes from the
    child node derived for [i], its key pair and its address. *)
Definition entry_of (sig_keygen : Buffer -> completion (Buffer * Buffer))
    (masterNode : QTCHDNode) (i : Z) (e : AddressEntry) : Prop :=
  exists child pk sk,
    HDWallet.deriveChild masterNode i = Ok child /\
    sig_keygen (Buffer_slice0 32 (masterEntropy child)) = Ok (pk, sk) /\
    index e = i /\
    path_ e = HDPath.toString (path child) /\
    dilithium_public_b64 e = toString_base64 pk /\
    dilithium_private_b64 e = toString_base64 sk /\
    AddressCodec.encode 2 (firstn 20 (Keccak.SHA3_256 pk)) = Ok (address e).

(* ===================================================================== *)
(** ** Notions used to state the codec's properties                      *)
(* ===================================================================== *)

(** The number a list of [w]-bit digits writes, most significant first,
    continuing from [acc]. *)
Fixpoint num (w acc : Z) (l : list Z) : Z :=
  match l with
  | [] => acc
  | d :: rest => num w (acc * 2 ^ w + d) rest
  end.

(** A [w]-bit value. *)
Definition fits (w x : Z) : Prop := 0 <= x < 2 ^ w.

(** A checksum state: 30 bits, never negative. *)
Definition u30 (x : Z) : Prop := 0 <= x < 2 ^ 30.

(** [g] when [t] holds, else 0: what [-(bit) & g] computes. *)
Definition sel (t : bool) (g : Z) : Z := if t then g else 0.

(** The checksum state after the values [values] have been fed into [chk]
    ([chk = polymodStep(chk) ^ v] for each). *)
Definition polymod (values : list Z) (chk : Z) : Z :=
  fold_left (fun c x => Z.lxor (Bech32.polymodStep c) x) values chk.

(** The six 5-bit groups of a 30-bit value, most significant first: the
    checksum values [encode] appends. *)
Definition groups (c : Z) : list Z :=
  map (fun i => Z.land (Z.shiftr c ((5 - i) * 5)) 0x1f) [0; 1; 2; 3; 4; 5].

(** The characters of a list of 5-bit values. *)
Definition chars (values : list Z) : jsstr := flat_map Bech32.ALPHABET_charAt values.

(** The checksum state after the human-readable part qtc
    ([prefixChk("qtc")]). *)
Definition qtc_chk : Z := 81622586.

(** The text [encode] builds: prefix, separator, one character per data
    value, and the characters of the six checksum groups. *)
Definition encoded_text (K : Z) (data : list Z) : jsstr :=
  qtc ++ ["1"%char] ++ chars data
      ++ chars (groups (Z.lxor (Nat.iter 6 Bech32.polymodStep (polymod data qtc_chk)) K)).

(** [out] is SHAKE256 output for the message [msg]: it is not empty, and it
    is what the function gives for [msg] when as many bytes are asked for as
    [out] has. *)
Definition SHAKE256_output (msg out : Buffer) : Prop :=
  out <> [] /\ out = Keccak.SHAKE256 msg (List.length out).

(** Did the call return? *)
Definition is_Ok {A} (c : completion A) : bool :=
  match c with Ok _ => true | _ => false end.

(** Printing, for reference values. *)
Definition hex_text (b : Buffer) : string := string_of_list_ascii (toString_hex b).
Definition text (s : completion jsstr) : option string :=
  match s with Ok t => Some (string_of_list_ascii t) | _ => None end.

(* ===================================================================== *)
(** ** json_emit.cpp: the text oqs_wallet_cli prints                      *)
(* ===================================================================== *)

Module JsonEmit.

Definition backslash : ascii := ascii_of_N 92.
Definition dquote : ascii := ascii_of_N 34.

(** One turn of the [switch] in [json_escape]. *)
Definition json_escape_char (c : ascii) : jsstr :=
  let n := charCode c in
  if n =? 92 then [backslash; backslash]
  else if n =? 34 then [backslash; dquote]
  else if n =? 10 then [backslash; "n"%char]
  else if n =? 13 then [backslash; "r"%char]
  else if n =? 9 then [backslash; "t"%char]
  else [c].

Definition json_escape (s : jsstr) : jsstr := flat_map json_escape_char s.

Definition json_pair (k v : jsstr) (quote : bool) : jsstr :=
  let out := [dquote] ++ json_escape k ++ [dquote] ++ list_ascii_of_string ": " in
  if quote then out ++ ([dquote] ++ json_escape v ++ [dquote])
  else out ++ v.

(** [for (i = 0; i < pairs.size(); ++i) { if (i > 0) out += ", "; out += pairs[i]; }] *)
Fixpoint json_obj_loop (pairs : list jsstr) (i : nat) (out : jsstr) : jsstr :=
  match pairs with
  | [] => out
  | p :: rest =>
      let out := if (0 <? i)%nat then out ++ list_ascii_of_string ", " else out in
      json_obj_loop rest (S i) (out ++ p)
  end.

Definition json_obj (pairs : list jsstr) : jsstr :=
  json_obj_loop pairs 0 (list_ascii_of_string "{") ++ list_ascii_of_string "}".

(** What a command writes to standard output
    ([std::cout << json_obj({json_pair(..), ..}) << "\n"]): on success the
    object of its members and a newline, otherwise nothing. *)
Definition stdout_text (r : Cli.ProcessResult) : jsstr :=
  if Cli.status r =? 0 then
    json_obj (map (fun kv => json_pair (list_ascii_of_string (fst kv)) (snd kv) true)
                  (Cli.stdout r))
    ++ [ascii_of_N 10]
  else [].

End JsonEmit.

(* ===================================================================== *)
(** ** The command line of qtc2.js and qti3.js                            *)
(* ===================================================================== *)

(** What a property of the object [args] can hold: [true] for an option
    without a value, the text of an option's value, or the array of
    positional arguments under the name [_]. *)
Inductive ArgValue : Type :=
| VTrue
| VText (s : jsstr)
| VArray (items : list jsstr).

Abbreviation Args := (gmap string ArgValue).

Record RpcConfig : Type := mkRpcConfig
  { url : ArgValue; user : ArgValue; pass : ArgValue }.

(** The request [rpcCall] hands to [fetch]: the address, the Authorization
    header and, of the body, the method and its parameters. *)
Record Request : Type := mkRequest
  { request_url : ArgValue; authorization : jsstr;
    method_ : string; params : list Json }.

(** How far an invocation is followed: to the wallet generation, to the
    request a command sends, or to the start of the two commands that first
    read a number ([cmdSend]) or JSON text ([cmdCreateRaw]) from their
    options. *)
Inductive Started : Type :=
| Generates
| Requests (r : Request)
| StartsSend
| StartsCreateRaw.

Module CommandLine.

(** [k.startsWith('--')] *)
Definition startsWith_dashes (k : jsstr) : bool :=
  match k with
  | c1 :: c2 :: _ => Ascii.eqb c1 "-" && Ascii.eqb c2 "-"
  | _ => false
  end.

(** [args[key] = val]: an own property is set, except under the name
    [__proto__], where assigning a string or a boolean changes nothing. *)
Definition set_property (args : Args) (key : jsstr) (val : ArgValue) : Args :=
  if jsstr_eqb key (list_ascii_of_string "__proto__") then args
  else <[string_of_list_ascii key := val]> args.

(** [args._.push(k)]: only an array has [push]. *)
Definition push_positional (args : Args) (k : jsstr) : completion Args :=
  match args !! "_"%string with
  | Some (VArray items) => Ok (<["_"%string := VArray (items ++ [k])]> args)
  | _ => Throw (TypeError "args._.push is not a function")
  end.

(** The loop of [parseArgs] over [process.argv] from index 2 on. *)
Fixpoint parseArgs_loop (argv : list jsstr) (args : Args) : completion Args :=
  match argv with
  | [] => Ok args
  | k :: rest =>
      if startsWith_dashes k then
        let key := skipn 2 k in
        match rest with
        | next :: rest' =>
            if negb (startsWith_dashes next)
            then parseArgs_loop rest' (set_property args key (VText next))
            else parseArgs_loop rest (set_property args key VTrue)
        | [] => Ok (set_property args key VTrue)
        end
      else
        args ← push_positional args k;
        parseArgs_loop rest args
  end.

Definition parseArgs (argv : list jsstr) : completion Args :=
  parseArgs_loop argv (<["_"%string := VArray []]> ∅).

(** Truthiness of a property; [None] is [undefined]. *)
Definition truthy (v : option ArgValue) : bool :=
  match v with
  | None => false
  | Some VTrue => true
  | Some (VText []) => false
  | Some (VText (_ :: _)) => true
  | Some (VArray _) => true
  end.

(** [a || e || fallback], with [e] from the environment. *)
Definition or_env (a : option ArgValue) (e : option jsstr) (fallback : string) : ArgValue :=
  match a with
  | Some v => if truthy a then v
              else match e with
                   | Some (c :: s) => VText (c :: s)
                   | _ => VText (list_ascii_of_string fallback)
                   end
  | None => match e with
            | Some (c :: s) => VText (c :: s)
            | _ => VText (list_ascii_of_string fallback)
            end
  end.

Definition rpcConfigFromEnvOrArgs (env : gmap string jsstr) (args : Args) : RpcConfig :=
  {| url := or_env (args !! "rpc"%string) (env !! "QTC_RPC_URL"%string) "http://127.0.0.1:8332";
     user := or_env (args !! "rpcuser"%string) (env !! "QTC_RPC_USER"%string) "user";
     pass := or_env (args !! "rpcpass"%string) (env !! "QTC_RPC_PASS"%string) "pass" |}.

(** [items.join(",")] *)
Fixpoint join_comma (items : list jsstr) : jsstr :=
  match items with
  | [] => []
  | [x] => x
  | x :: rest => x ++ [","%char] ++ join_comma rest
  end.

(** What [+] makes of a value next to a string. *)
Definition to_text (v : ArgValue) : jsstr :=
  match v with
  | VTrue => list_ascii_of_string "true"
  | VText s => s
  | VArray items => join_comma items
  end.

Definition json_of (v : ArgValue) : Json :=
  match v with
  | VTrue => JBoolean true
  | VText s => JString s
  | VArray items => JArray (map JString items)
  end.

(** [rpcCall(cfg, method, params)] up to the call of [fetch]. *)
Definition rpcCall (cfg : RpcConfig) (method : string) (params : list Json) : Request :=
  {| request_url := url cfg;
     authorization :=
       list_ascii_of_string "Basic "
       ++ toString_base64
            (Buffer_from_utf8 (to_text (user cfg) ++ [":"%char] ++ to_text (pass cfg)));
     method_ := method;
     params := params |}.

(** [args.label || ''] *)
Definition label_of (args : Args) : Json :=
  match args !! "label"%string with
  | Some v => if truthy (Some v) then json_of v else JString []
  | None => JString []
  end.

(** [args.rescan === 'false' ? false : true] *)
Definition rescan_of (args : Args) : Json :=
  match args !! "rescan"%string with
  | Some (VText s) => JBoolean (negb (jsstr_eqb s (list_ascii_of_string "false")))
  | _ => JBoolean true
  end.

Definition cmdBalance (env : gmap string jsstr) (args : Args) : completion Request :=
  let cfg := rpcConfigFromEnvOrArgs env args in
  match args !! "address"%string with
  | Some address =>
      if negb (truthy (Some address)) then Throw (Error "--address is required")
      else Ok (rpcCall cfg "listunspent" [JNumber 0; JNumber 999999; JArray [json_of address]])
  | None => Throw (Error "--address is required")
  end.

Definition cmdImportAddress (env : gmap string jsstr) (args : Args) : completion Request :=
  let cfg := rpcConfigFromEnvOrArgs env args in
  match args !! "address"%string with
  | Some address =>
      if negb (truthy (Some address)) then Throw (Error "--address required")
      else Ok (rpcCall cfg "importaddress" [json_of address; label_of args; rescan_of args])
  | None => Throw (Error "--address required")
  end.

Definition cmdImportPrivKey (env : gmap string jsstr) (args : Args) : completion Request :=
  let cfg := rpcConfigFromEnvOrArgs env args in
  match args !! "privkey"%string with
  | Some privkey =>
      if negb (truthy (Some privkey)) then Throw (Error "--privkey required")
      else Ok (rpcCall cfg "importprivkey" [json_of privkey; label_of args; rescan_of args])
  | None => Throw (Error "--privkey required")
  end.

Definition cmdFundRaw (env : gmap string jsstr) (args : Args) : completion Request :=
  let cfg := rpcConfigFromEnvOrArgs env args in
  match args !! "hex"%string with
  | Some hex =>
      if negb (truthy (Some hex)) then Throw (Error "--hex required")
      else Ok (rpcCall cfg "fundrawtransaction"
                 [json_of hex; JObject [("replaceable"%string, JBoolean false)]])
  | None => Throw (Error "--hex required")
  end.

Definition cmdSignRaw (env : gmap string jsstr) (args : Args) : completion Request :=
  let cfg := rpcConfigFromEnvOrArgs env args in
  match args !! "hex"%string with
  | Some hex =>
      if negb (truthy (Some hex)) then Throw (Error "--hex required")
      else Ok (rpcCall cfg "signrawtransactionwithwallet" [json_of hex])
  | None => Throw (Error "--hex required")
  end.

Definition cmdBroadcast (env : gmap string jsstr) (args : Args) : completion Request :=
  let cfg := rpcConfigFromEnvOrArgs env args in
  match args !! "hex"%string with
  | Some hex =>
      if negb (truthy (Some hex)) then Throw (Error "--hex required")
      else Ok (rpcCall cfg "sendrawtransaction" [json_of hex])
  | None => Throw (Error "--hex required")
  end.

(** [args._[0]]; [None] is [undefined].  Indexing a string gives its first
    character. *)
Definition first_positional (args : Args) : option jsstr :=
  match args !! "_"%string with
  | Some (VArray (x :: _)) => Some x
  | Some (VText (c :: _)) => Some [c]
  | _ => None
  end.

(** [args._[0] || 'generate'] *)
Definition command_name (args : Args) : jsstr :=
  match first_positional args with
  | Some (c :: s) => c :: s
  | _ => list_ascii_of_string "generate"
  end.

Definition is_command (cmd : jsstr) (name : string) : bool :=
  jsstr_eqb cmd (list_ascii_of_string name).

(** The [if] chain of the script's last block. *)
Definition dispatch (env : gmap string jsstr) (args : Args) (cmd : jsstr)
  : completion Started :=
  if is_command cmd "generate" then Ok Generates
  else if is_command cmd "balance" then r ← cmdBalance env args; Ok (Requests r)
  else if is_command cmd "send" then Ok StartsSend
  else if is_command cmd "import-address" then r ← cmdImportAddress env args; Ok (Requests r)
  else if is_command cmd "import-privkey" then r ← cmdImportPrivKey env args; Ok (Requests r)
  else if is_command cmd "create-raw" then Ok StartsCreateRaw
  else if is_command cmd "fund-raw" then r ← cmdFundRaw env args; Ok (Requests r)
  else if is_command cmd "sign-raw" then r ← cmdSignRaw env args; Ok (Requests r)
  else if is_command cmd "broadcast" then r ← cmdBroadcast env args; Ok (Requests r)
  else Throw (Error (String.append "Unknown command: " (string_of_list_ascii cmd))).

(** The script's last block: [parseArgs] runs before the [try]; what the
    [try] catches ends the process with status 1. *)
Definition top_level (env : gmap string jsstr) (argv : list jsstr) : completion Started :=
  args ← parseArgs argv;
  let cmd := command_name args in
  catch_exit (dispatch env args cmd).

End CommandLine.

(* ===================================================================== *)
(** ** Notions used to state the further properties                      *)
(* ===================================================================== *)

(** A call ended in an address of [len] characters that begins with [head]
    and whose characters after [qtc1] all belong to the bech32 alphabet. *)
Definition well_formed_address (len : nat) (head : jsstr) (r : completion jsstr) : Prop :=
  exists address,
    r = Ok address /\
    List.length address = len /\
    firstn (List.length head) address = head /\
    Forall (fun c => In c Bech32.ALPHABET) (skipn 4 address).

(** A call that ended without an uncaught exception: it returned, or the
    process exited with status 1. *)
Definition returned_or_exit_1 {A} (c : completion A) : Prop :=
  match c with Ok _ => True | Exit code => code = 1 | Throw _ => False end.

(** A character [hex2bin] takes for a digit. *)
Definition is_hex_char (c : ascii) : bool := 0 <=? Cli.nyb c.

(** A character of base64 text: of the table, or the padding. *)
Definition is_b64_char (c : ascii) : Prop := In c b64_table \/ c = "="%char.

Definition is_padding (c : ascii) : bool := Ascii.eqb c "="%char.

(** A text between double quotes, as it stands. *)
Definition quoted (s : jsstr) : jsstr := [JsonEmit.dquote] ++ s ++ [JsonEmit.dquote].

(** The members of an object, written without any escaping. *)
Fixpoint members_text (members : list (string * jsstr)) : jsstr :=
  match members with
  | [] => []
  | [(k, v)] => quoted (list_ascii_of_string k) ++ list_ascii_of_string ": " ++ quoted v
  | (k, v) :: rest =>
      quoted (list_ascii_of_string k) ++ list_ascii_of_string ": " ++ quoted v
      ++ list_ascii_of_string ", " ++ members_text rest
  end.

(** The commands of oqs_wallet_cli. *)
Definition gen_kyber_from_seed : jsstr := list_ascii_of_string "gen_kyber_from_seed".
Definition gen_dilithium_from_seed : jsstr := list_ascii_of_string "gen_dilithium_from_seed".
Definition kem_self_from_seed : jsstr := list_ascii_of_string "kem_self_from_seed".

Definition known_command (cmd : jsstr) : bool :=
  jsstr_eqb cmd gen_kyber_from_seed || jsstr_eqb cmd gen_dilithium_from_seed
  || jsstr_eqb cmd kem_self_from_seed.

(** The member names a successful command prints. *)
Definition printed_keys (cmd : jsstr) : list string :=
  if jsstr_eqb cmd gen_kyber_from_seed then ["kyber_public_b64"; "kyber_private_b64"]%string
  else if jsstr_eqb cmd gen_dilithium_from_seed
       then ["dilithium_public_b64"; "dilithium_private_b64"]%string
       else ["kyber_public_b64"; "kyber_private_b64"; "shared_b64"]%string.

(** The same library with another decapsulation. *)
Definition with_decapsulate (N : Noble) (decapsulate : Buffer -> Buffer -> Buffer) : Noble :=
  {| ml_kem1024_keygen := ml_kem1024_keygen N;
     ml_kem1024_encapsulate_msg := ml_kem1024_encapsulate_msg N;
     ml_kem1024_decapsulate := decapsulate;
     ml_dsa65_keygen := ml_dsa65_keygen N |}.

(** The generator state a command starts from: the DRBG seeded with the
    48 bytes expanded from the seed and the command's domain. *)
Definition drbg_of (L : LibOQS) (seed : list Z) (domain : string) : Drbg :=
  OQS_randombytes_nist_kat_init_256bit L
    (Cli.shake256_expand_seed_48 seed (list_ascii_of_string domain)).

(** The digits of an unsigned decimal, as characters. *)
Definition digits_of (d : Decimal.uint) : jsstr :=
  list_ascii_of_string (NilEmpty.string_of_uint d).

Definition all_digits (s : jsstr) : bool := forallb HDPath.is_digit s.

(** Where a run of digits ends: at the end of the text or at a character
    that is not a digit. *)
Definition stops (rest : jsstr) : Prop :=
  match rest with [] => True | c :: _ => HDPath.is_digit c = false end.

(** A non-negative integer below 2^53, the range in which JavaScript
    numbers are exact. *)
Definition safe_integer (n : Z) : Prop := 0 <= n < 2 ^ 53.

Definition safe_path (p : QTCHDPath) : Prop :=
  safe_integer (purpose p) /\ safe_integer (account p) /\
  safe_integer (change p) /\ safe_integer (addressIndex p).

(** The file [name] can be written on the machine, whatever goes into
    it. *)
Definition can_write (h : Host) (name : string) : Prop :=
  forall value, writeFileSync h name value = None.

(** What [writeUInt32BE] accepts. *)
Definition uint32 (i : Z) : Prop := 0 <= i < 2 ^ 32.



(** A token that does not begin with two dashes. *)
Definition clean (s : jsstr) : Prop := CommandLine.startsWith_dashes s = false.

(** The token [--name]. *)
Definition option_token (name : string) : jsstr :=
  list_ascii_of_string "--" ++ list_ascii_of_string name.

(** What [parseArgs] keeps true of [args]: the positional arguments are an
    array of clean tokens, and every text stored for an option is clean. *)
Definition tidy (args : Args) (items : list jsstr) : Prop :=
  args !! "_"%string = Some (VArray items) /\
  Forall clean items /\
  (forall name s, args !! name = Some (VText s) -> clean s).

Definition command_names : list string :=
  ["generate"; "balance"; "send"; "import-address"; "import-privkey";
   "create-raw"; "fund-raw"; "sign-raw"; "broadcast"]%string.

(** The commands that check for an option before anything else, each with
    the option it checks. *)
Definition checked_options : list (string * string) :=
  [("balance", "address"); ("import-address", "address"); ("import-privkey", "privkey");
   ("fund-raw", "hex"); ("sign-raw", "hex"); ("broadcast", "hex")]%string.

(** Inputs for running the code. *)
Definition is_byteb (b : Z) : bool := (0 <=? b) && (b <? 256).

Definition node_with_key : QTCHDNode :=
  mkQTCHDNode [] QTCHDPath_default None None (Some [1; 2; 3]).

Definition argv_options : list jsstr :=
  [list_ascii_of_string "--rpc"; list_ascii_of_string "http://node:8332";
   list_ascii_of_string "--label"].

(* ===================================================================== *)
(** * Properties                                                          *)
(* ===================================================================== *)

Arguments Keccak.SHA3_256 : simpl never.
Arguments Keccak.SHA3_512 : simpl never.
Arguments Keccak.SHAKE256 : simpl never.
Arguments toString_base64 : simpl never.
Arguments toString_hex : simpl never.
Arguments Bech32.encode : simpl never.
Arguments Bech32.toWords : simpl never.

(** ** Sequencing *)

Lemma bind_Ok {A B} (a : A) (k : A -> completion B) : (Ok a ≫= k) = k a.
Proof. reflexivity. Qed.

Lemma bind_Throw {A B} (e : JsError) (k : A -> completion B) : (Throw e ≫= k) = Throw e.
Proof. reflexivity. Qed.

Lemma bind_Exit {A B} (c : Z) (k : A -> completion B) : (Exit c ≫= k) = Exit c.
Proof. reflexivity. Qed.

(** One step of a run that is known to have returned: a call that returned
    is passed on, one that threw or exited contradicts the hypothesis. *)
Ltac step_bind H :=
  first [ rewrite bind_Ok in H; cbv beta iota in H
        | rewrite bind_Throw in H; discriminate H
        | rewrite bind_Exit in H; discriminate H ].

(** ** Reference values of the hash functions and of the codec *)

Example SHA3_256_empty :
  hex_text (Keccak.SHA3_256 []) =
  "a7ffc6f8bf1ed76651c14756a061d662f580ff4de43b49fa82d80a4b80f8434a"%string.
Proof. vm_compute. reflexivity. Qed.

Example SHA3_512_empty :
  hex_text (Keccak.SHA3_512 []) =
  String.append "a69f73cca23a9ac5c8b567dc185a756e97c982164fe25859e0d1dcc1475c80a6"
                "15b2123af1f5f94c11e3e9402c3ac558f500199d95b6d3e301758586281dcd26".
Proof. vm_compute. reflexivity. Qed.

Example SHAKE256_empty_32 :
  hex_text (Keccak.SHAKE256 [] 32) =
  "46b9dd2b0ba88d13233b3feb743eeb243fcd52ea62b81b82b50c27646ed5762f"%string.
Proof. vm_compute. reflexivity. Qed.

(** A full-rate block: the padding takes a block of its own. *)
Example SHA3_256_one_block :
  hex_text (Keccak.SHA3_256 (repeat 0x11 136)) =
  "9b6510bedf1ede4cafc752be05b2fa3aa4e049fabfd0dd574af6ea004172b179"%string.
Proof. vm_compute. reflexivity. Qed.

(** The test vectors of BIP-173 and BIP-350 tell the two codecs apart. *)
Example bech32_vector :
  text (Bech32.encode Bech32.bech32_CONST [ "a"%char ] []) = Some "a12uel5l"%string.
Proof. vm_compute. reflexivity. Qed.

Example bech32m_vector :
  text (Bech32.encode Bech32.bech32m_CONST [ "a"%char ] []) = Some "a1lqfn3a"%string.
Proof. vm_compute. reflexivity. Qed.

Example bech32_segwit_vector :
  text (Bech32.encode Bech32.bech32_CONST (list_ascii_of_string "bc")
          (0 :: Bech32.toWords
                  [0x75; 0x1e; 0x76; 0xe8; 0x19; 0x91; 0x96; 0xd4; 0x54; 0x94;
                   0x1c; 0x45; 0xd1; 0xb3; 0xa3; 0x23; 0xf1; 0x43; 0x3b; 0xd6]))
  = Some "bc1qw508d6qejxtdg4y5r3zarvary0c5xw7kv8f3t4"%string.
Proof. vm_compute. reflexivity. Qed.

(** ** Hash objects *)

Lemma digest_SHA3_512 (data : Buffer) :
  digest (update (new_SHA3 512) data) = Keccak.SHA3_512 data.
Proof. reflexivity. Qed.

Lemma digest_SHA3_256 (data : Buffer) :
  digest (update (new_SHA3 256) data) = Keccak.SHA3_256 data.
Proof. reflexivity. Qed.

Lemma digest_createHash (data : Buffer) :
  digest (update createHash_sha3_512 data) = Keccak.SHA3_512 data.
Proof. reflexivity. Qed.

(** Two [update]s absorb the concatenation; the number given to [digest]
    does not reach the output. *)
Lemma digest_n_two_updates (a b : Buffer) (n : nat) :
  digest_n (update (update (new_SHAKE 256) a) b) n = Keccak.SHAKE256 (a ++ b) 32.
Proof. reflexivity. Qed.

Lemma digest_n_one_update (a : Buffer) (n : nat) :
  digest_n (update (new_SHAKE 256) a) n = Keccak.SHAKE256 a 32.
Proof. reflexivity. Qed.

(** ** Digests: lengths and bytes *)

Lemma bytes_of_lane_length (l : Z) : List.length (Keccak.bytes_of_lane l) = 8%nat.
Proof. reflexivity. Qed.

Lemma bytes_of_lane_bytes (l : Z) : Forall (fits 8) (Keccak.bytes_of_lane l).
Proof.
  unfold Keccak.bytes_of_lane. apply Forall_map, Forall_forall. intros k _.
  unfold fits. change 255 with (Z.ones 8). rewrite Z.land_ones by lia.
  apply Z.mod_pos_bound. lia.
Qed.

Lemma state_bytes_length (st : list Z) :
  List.length (Keccak.state_bytes st) = (8 * List.length st)%nat.
Proof.
  unfold Keccak.state_bytes. induction st as [|l st IH]; [reflexivity|].
  cbn [flat_map]. rewrite length_app, IH, bytes_of_lane_length. cbn [List.length]. lia.
Qed.

Lemma state_bytes_bytes (st : list Z) : Forall (fits 8) (Keccak.state_bytes st).
Proof.
  unfold Keccak.state_bytes. induction st as [|l st IH]; [constructor|].
  cbn [flat_map]. apply Forall_app. split; [apply bytes_of_lane_bytes|exact IH].
Qed.

Lemma round_length (a : list Z) (rc : Z) : List.length (Keccak.round a rc) = 25%nat.
Proof.
  unfold Keccak.round, Keccak.chi, Keccak.indices. 
  cbn [seq map Keccak.iota List.length]. reflexivity.
Qed.

Lemma keccak_f_length (a : list Z) : List.length (Keccak.keccak_f a) = 25%nat.
Proof.
  unfold Keccak.keccak_f, Keccak.round_constants.
  cbn [fold_left]. apply round_length.
Qed.

Lemma absorb_length (fuel rate : nat) (st data : list Z) :
  List.length st = 25%nat -> List.length (Keccak.absorb fuel rate st data) = 25%nat.
Proof.
  revert st data. induction fuel as [|fuel IH]; intros st data Hst; [exact Hst|].
  cbn [Keccak.absorb]. destruct data as [|d data]; [exact Hst|].
  apply IH, keccak_f_length.
Qed.

Lemma squeeze_length (fuel rate : nat) (st : list Z) (n : nat) :
  (0 < rate <= 200)%nat -> (n < fuel)%nat -> List.length st = 25%nat ->
  List.length (Keccak.squeeze fuel rate st n) = n.
Proof.
  intros Hr. revert st n. induction fuel as [|fuel IH]; intros st n Hn Hst; [lia|].
  cbn [Keccak.squeeze]. destruct (n <=? rate)%nat eqn:E.
  - apply Nat.leb_le in E. rewrite length_firstn, state_bytes_length, Hst. lia.
  - apply Nat.leb_gt in E. rewrite length_app, length_firstn, state_bytes_length, Hst.
    rewrite IH; [lia|lia|apply keccak_f_length].
Qed.

Lemma squeeze_bytes (fuel rate : nat) (st : list Z) (n : nat) :
  Forall (fits 8) (Keccak.squeeze fuel rate st n).
Proof.
  revert st n. induction fuel as [|fuel IH]; intros st n; [constructor|].
  cbn [Keccak.squeeze]. destruct (n <=? rate)%nat.
  - apply Forall_take, state_bytes_bytes.
  - apply Forall_app. split; [apply Forall_take, state_bytes_bytes|apply IH].
Qed.

Lemma sponge_length (rate : nat) (suffix : Z) (msg : list Z) (n : nat) :
  (0 < rate <= 200)%nat -> List.length (Keccak.sponge rate suffix msg n) = n.
Proof.
  intros Hr. unfold Keccak.sponge. apply squeeze_length; [exact Hr|lia|].
  apply absorb_length. reflexivity.
Qed.

Lemma sponge_bytes (rate : nat) (suffix : Z) (msg : list Z) (n : nat) :
  Forall (fits 8) (Keccak.sponge rate suffix msg n).
Proof. apply squeeze_bytes. Qed.

Lemma SHA3_256_length (msg : list Z) : List.length (Keccak.SHA3_256 msg) = 32%nat.
Proof. apply sponge_length. lia. Qed.

Lemma SHA3_512_length (msg : list Z) : List.length (Keccak.SHA3_512 msg) = 64%nat.
Proof. apply sponge_length. lia. Qed.

Lemma SHAKE256_length (msg : list Z) (n : nat) : List.length (Keccak.SHAKE256 msg n) = n.
Proof. apply sponge_length. lia. Qed.

Lemma program_bytes (x : Buffer) :
  List.length (firstn 20 (Keccak.SHA3_256 x)) = 20%nat /\
  Forall (fits 8) (firstn 20 (Keccak.SHA3_256 x)).
Proof.
  split.
  - rewrite length_firstn, SHA3_256_length. reflexivity.
  - apply Forall_take, sponge_bytes.
Qed.

Lemma bytes_checked (l : list Z) : forallb is_byteb l = true -> Forall (fits 8) l.
Proof.
  intros H. apply List.Forall_forall. intros b Hb.
  apply (proj1 (forallb_forall _ _) H) in Hb. unfold is_byteb in Hb.
  apply andb_true_iff in Hb as [A B]. unfold fits. lia.
Qed.

(** The output of SHAKE256 is a stream: fewer bytes are the first of
    more (here within one block of 136 bytes). *)
Lemma SHAKE256_prefix (msg : list Z) (a b : nat) :
  (a <= b <= 136)%nat -> Keccak.SHAKE256 msg a = firstn a (Keccak.SHAKE256 msg b).
Proof.
  intros H. unfold Keccak.SHAKE256, Keccak.sponge. cbn [Keccak.squeeze].
  replace (a <=? 136)%nat with true by (symmetry; apply Nat.leb_le; lia).
  replace (b <=? 136)%nat with true by (symmetry; apply Nat.leb_le; lia).
  rewrite firstn_firstn. replace (Nat.min a b) with a by lia. reflexivity.
Qed.

(** ** HD paths *)

Example fromString_accepts :
  HDPath.fromString (list_ascii_of_string "m/44'/0'/0/17") = Ok (new_QTCHDPath 44 0 0 17).
Proof. reflexivity. Qed.

Example toString_default :
  string_of_list_ascii (HDPath.toString QTCHDPath_default) = "m/44'/0'/0/0"%string.
Proof. reflexivity. Qed.

(** C8. Parsing the path text m/44/0/0/0, which lacks the hardened markers,
    fails with the format error, and so does parsing m/44'/0'/0/-1 with its
    negative address index; neither call returns a path. *)
Theorem fromString_rejects_malformed :
  HDPath.fromString (list_ascii_of_string "m/44/0/0/0")
    = Throw (Error "Invalid HD path format") /\
  HDPath.fromString (list_ascii_of_string "m/44'/0'/0/-1")
    = Throw (Error "Invalid HD path format").
Proof. split; reflexivity. Qed.

(** ** Child derivation *)

Lemma Buffer_concat2 (a b : Buffer) : Buffer_concat [a; b] = a ++ b.
Proof. unfold Buffer_concat. cbn [concat]. rewrite app_nil_r. reflexivity. Qed.

Lemma Buffer_concat3 (a b c : Buffer) : Buffer_concat [a; b; c] = a ++ b ++ c.
Proof. unfold Buffer_concat. cbn [concat]. rewrite app_nil_r. reflexivity. Qed.


Lemma writeUInt32BE_bigEndian (value : Z) :
  0 <= value < 2 ^ 32 ->
  writeUInt32BE (Buffer_alloc 4) value = Ok (Spec.bigEndianUint32 value).
Proof.
  intros Hv. unfold writeUInt32BE, Spec.bigEndianUint32.
  replace ((value <? 0) || (2 ^ 32 - 1 <? value)) with false
    by (symmetry; apply orb_false_iff; split; apply Z.ltb_ge; lia).
  change 255 with (Z.ones 8).
  rewrite !Z.land_ones, !Z.shiftr_div_pow2 by lia.
  rewrite !Z.div_div by lia.
  reflexivity.
Qed.

Lemma writeUInt32BE_out_of_range (value : Z) :
  value < 0 \/ 2 ^ 32 <= value ->
  writeUInt32BE (Buffer_alloc 4) value = Throw (RangeError "ERR_OUT_OF_RANGE").
Proof.
  intros Hv. unfold writeUInt32BE.
  replace ((value <? 0) || (2 ^ 32 - 1 <? value)) with true; [reflexivity|].
  symmetry. apply orb_true_iff. destruct Hv; [left | right]; apply Z.ltb_lt; lia.
Qed.





(** ** Master entropy *)

(** What a successful run of qti2.js has computed. *)
Lemma qti2_generateWallet_inv (h : Host) (N : Noble) (rng : OsRng)
    (l : qti2.Locals) (w : qti2.Wallet) :
  fst (qti2.generateWallet h N rng) = Ok (l, w) ->
  qti2.sharedSecret l = snd (fst (noble_kyber_step N rng)) /\
  qti2.entropy l = qti2.step2_entropy (qti2.sharedSecret l) /\
  qti2.dilithium_pk l = fst (qti2.step3_dilithium N (qti2.entropy l)) /\
  qti2.addressBytes l = qti2.step4_addressBytes (qti2.dilithium_pk l) /\
  qti2.step4c_address (qti2.addressBytes l) = Ok (qti2.address l) /\
  w = qti2.step5_wallet l.
Proof.
  unfold qti2.generateWallet.
  destruct (noble_kyber_step N rng) as [[[kpk ksk] ss] rng'].
  destruct (qti2.step3_dilithium N (qti2.step2_entropy ss)) as [dpk dsk] eqn:E3.
  cbn [fst snd]. intros H.
  destruct (qti2.step4c_address (qti2.step4_addressBytes dpk)) as [addr| |] eqn:E4;
    step_bind H.
  destruct (qti2.step6_save h _) as [[]| |] eqn:E6; step_bind H.
  injection H as <- <-.
  cbn [qti2.sharedSecret qti2.entropy qti2.dilithium_pk qti2.addressBytes qti2.address].
  rewrite E3. cbn [fst].
  split; [reflexivity|]. split; [reflexivity|]. split; [reflexivity|].
  split; [reflexivity|]. split; [exact E4|reflexivity].
Qed.

(** [generateMaster] of the noble HD script never throws; this is what it
    computes. *)
Lemma hd_noble_generateMaster_eq (N : Noble) (rng : OsRng) :
  fst (qti3_hd_noble.generateMaster N new_QTCPQHDWallet rng) =
  let '(kpk, ksk, ss) := fst (noble_kyber_step N rng) in
  let '(dpk, dsk) := ml_dsa65_keygen N (pqhd.dilithium_seed ss) in
  let me := Keccak.SHA3_512 (ss ++ dpk) in
  let '(npk, nsk) := ml_dsa65_keygen N (Buffer_slice0 32 me) in
  Ok (mkQTCPQHDWallet (Some kpk) (Some ksk) (Some ss) (Some me)
        (Some (mkQTCHDNode me QTCHDPath_default None (Some nsk) (Some npk))),
      {| m_kyber_public_b64 := toString_base64 kpk;
         m_kyber_private_b64 := toString_base64 ksk;
         m_dilithium_public_b64 := toString_base64 dpk;
         m_dilithium_private_b64 := toString_base64 dsk;
         m_kyber_shared_secret_b64 := toString_base64 ss;
         m_master_entropy_b64 := toString_base64 me;
         m_combined_input_b64 := toString_base64 (ss ++ dpk) |}).
Proof.
  unfold qti3_hd_noble.generateMaster, HDWallet.generateMaster, qti3_hd_noble.kem_self,
    HDWallet.generateKeyPair, qti3_hd_noble.sig_keygen, pqhd.dilithium_seed, new_QTCHDNode.
  destruct (noble_kyber_step N rng) as [[[kpk ksk] ss] rng'].
  cbn [fst snd]. rewrite !bind_Ok.
  destruct (ml_dsa65_keygen N _) as [dpk dsk].
  rewrite bind_Ok. cbn [masterEntropy path chainCode].
  rewrite Buffer_concat2, digest_SHA3_512.
  destruct (ml_dsa65_keygen N _) as [npk nsk].
  rewrite !bind_Ok. reflexivity.
Qed.

(** C2. With a KEM shared secret of 64 bytes 0x11 and a signature public key
    of 32 bytes 0x22, the master entropy of the Primary method is SHA3-512 of
    the shared secret, and the master entropy of the HD multi-address method
    is SHA3-512 of the shared secret followed by the public key. *)
Theorem master_entropy_vectors (h : Host) (N : Noble) (rng : OsRng)
    (l : qti2.Locals) (w : qti2.Wallet) (this : QTCPQHDWallet) (md : MasterData) :
  fst (qti2.generateWallet h N rng) = Ok (l, w) ->
  qti2.sharedSecret l = Fixtures.ss11 ->
  fst (qti3_hd_noble.generateMaster N new_QTCPQHDWallet rng) = Ok (this, md) ->
  sharedSecret this = Some Fixtures.ss11 ->
  fst (ml_dsa65_keygen N (pqhd.dilithium_seed Fixtures.ss11)) = Fixtures.pk22 ->
  qti2.entropy l = Keccak.SHA3_512 Fixtures.ss11 /\
  qti2.entropy_b64 w = toString_base64 (Keccak.SHA3_512 Fixtures.ss11) /\
  masterEntropy_ this = Some (Keccak.SHA3_512 (Fixtures.ss11 ++ Fixtures.pk22)) /\
  m_master_entropy_b64 md
    = toString_base64 (Keccak.SHA3_512 (Fixtures.ss11 ++ Fixtures.pk22)).
Proof.
  intros Hrun Hss Hmaster Hss' Hpk.
  apply qti2_generateWallet_inv in Hrun as (_ & He & _ & _ & _ & Hw).
  rewrite hd_noble_generateMaster_eq in Hmaster.
  destruct (fst (noble_kyber_step N rng)) as [[kpk ksk] ss].
  destruct (ml_dsa65_keygen N (pqhd.dilithium_seed ss)) as [dpk dsk] eqn:Ek.
  cbv zeta in Hmaster.
  destruct (ml_dsa65_keygen N _) as [npk nsk] in Hmaster.
  injection Hmaster as <- <-.
  cbn [sharedSecret] in Hss'. injection Hss' as ->.
  rewrite Ek in Hpk. cbn [fst] in Hpk. subst dpk.
  rewrite Hss in He. unfold qti2.step2_entropy in He. rewrite digest_createHash in He.
  subst w. cbn [qti2.step5_wallet qti2.entropy_b64 masterEntropy_ m_master_entropy_b64].
  rewrite He.
  split; [reflexivity|]. split; [reflexivity|]. split; reflexivity.
Qed.

Lemma master_entropy_vectors_witness :
  exists l w this md,
    fst (qti2.generateWallet Fixtures.ready_host Fixtures.vector_noble Fixtures.tape_a)
      = Ok (l, w) /\
    fst (qti3_hd_noble.generateMaster Fixtures.vector_noble new_QTCPQHDWallet Fixtures.tape_a)
      = Ok (this, md) /\
    qti2.entropy l = Keccak.SHA3_512 Fixtures.ss11 /\
    masterEntropy_ this = Some (Keccak.SHA3_512 (Fixtures.ss11 ++ Fixtures.pk22)).
Proof.
  eassert (E1 : fst (qti2.generateWallet Fixtures.ready_host Fixtures.vector_noble
                       Fixtures.tape_a) = Ok _)
    by (vm_compute; reflexivity).
  eassert (E2 : fst (qti3_hd_noble.generateMaster Fixtures.vector_noble new_QTCPQHDWallet
                       Fixtures.tape_a) = Ok _)
    by (vm_compute; reflexivity).
  assert (H3 : fst (ml_dsa65_keygen Fixtures.vector_noble
                      (pqhd.dilithium_seed Fixtures.ss11)) = Fixtures.pk22)
    by reflexivity.
  epose proof (fun H1 H2 => master_entropy_vectors _ _ _ _ _ _ _ E1 H1 E2 H2 H3) as T.
  specialize (T ltac:(vm_compute; reflexivity) ltac:(vm_compute; reflexivity)).
  destruct T as (A & _ & B & _).
  eexists _, _, _, _.
  split; [exact E1|]. split; [exact E2|]. split; [exact A | exact B].
Defined.

(** What the older single PQ-HD script has computed when it reaches its
    object literal. *)
Lemma qti3_noble_steps_inv (N : Noble) (rng : OsRng) (l : pqhd.Locals) :
  fst (qti3_noble.steps1to4 N rng) = Ok l ->
  pqhd.sharedSecret l = snd (fst (noble_kyber_step N rng)) /\
  pqhd.dilithium_pk l = fst (qti3_noble.step2_dilithium N (pqhd.sharedSecret l)) /\
  pqhd.master_entropy l
    = qti3_noble.step3_master_entropy (pqhd.sharedSecret l) (pqhd.dilithium_pk l) /\
  pqhd.addressBytes l = pqhd.step4_addressBytes (pqhd.master_entropy l) /\
  pqhd.step4c_address (pqhd.addressBytes l) = Ok (pqhd.address_ l).
Proof.
  unfold qti3_noble.steps1to4.
  destruct (noble_kyber_step N rng) as [[[kpk ksk] ss] rng'].
  destruct (qti3_noble.step2_dilithium N ss) as [dpk dsk] eqn:E2.
  cbn [fst snd]. intros H.
  destruct (pqhd.step4c_address _) as [addr| |] eqn:E4; step_bind H.
  injection H as <-.
  cbn [pqhd.sharedSecret pqhd.dilithium_pk pqhd.master_entropy pqhd.addressBytes
       pqhd.address_].
  rewrite E2. cbn [fst]. split; [reflexivity|]. split; [reflexivity|].
  split; [reflexivity|]. split; [reflexivity|exact E4].
Qed.

(** What a successful run of qti3.js has computed. *)
Lemma qti3_generatePQHDWallet_inv (h : Host) (L : LibOQS) (rng : OsRng)
    (l : pqhd.Locals) (w : pqhd.Wallet) :
  fst (qti3.generatePQHDWallet h L rng) = Ok (l, w) ->
  fst (qti3.step1_kyber h L rng)
    = Ok (pqhd.kyber_pk l, pqhd.kyber_sk l, pqhd.sharedSecret l) /\
  qti3.step2_dilithium h L (pqhd.sharedSecret l)
    = Ok (pqhd.dilithium_pk l, pqhd.dilithium_sk l) /\
  pqhd.master_entropy l
    = qti3.step3_master_entropy
        (qti3.step3_combined_input (pqhd.sharedSecret l) (pqhd.dilithium_pk l)) /\
  pqhd.addressBytes l = pqhd.step4_addressBytes (pqhd.master_entropy l) /\
  pqhd.step4c_address (pqhd.addressBytes l) = Ok (pqhd.address_ l) /\
  pqhd.step5_wallet
    (qti3.scope l (qti3.step3_combined_input (pqhd.sharedSecret l) (pqhd.dilithium_pk l)))
    = Ok w.
Proof.
  unfold qti3.generatePQHDWallet.
  destruct (qti3.step1_kyber h L rng) as [r rng'].
  cbn [fst snd]. intros H.
  destruct r as [[[kpk ksk] ss]| |]; step_bind H.
  destruct (qti3.step2_dilithium h L ss) as [[dpk dsk]| |] eqn:E2; step_bind H.
  destruct (pqhd.step4c_address _) as [addr| |] eqn:E4; step_bind H.
  destruct (pqhd.step5_wallet _) as [pw| |] eqn:E5; step_bind H.
  destruct (pqhd.step6_save h pw) as [[]| |] eqn:E6; step_bind H.
  injection H as <- <-.
  cbn [pqhd.kyber_pk pqhd.kyber_sk pqhd.sharedSecret pqhd.dilithium_pk pqhd.dilithium_sk
       pqhd.master_entropy pqhd.addressBytes pqhd.address_].
  split; [reflexivity|]. split; [exact E2|]. split; [reflexivity|].
  split; [reflexivity|]. split; [exact E4|exact E5].
Qed.

Lemma SHAKE256_output_32 (msg : Buffer) : SHAKE256_output msg (Keccak.SHAKE256 msg 32).
Proof.
  unfold SHAKE256_output. rewrite SHAKE256_length. split; [|reflexivity].
  intros E. apply (f_equal (@List.length Z)) in E. rewrite SHAKE256_length in E.
  discriminate E.
Qed.

(** C3, as amended. In the Single PQ-HD method the master entropy is
    SHAKE256 output for the KEM shared secret followed directly by the
    provisional signature public key, in both variants of the script; no
    domain tag stands between them.  The tag QTC_PQHD_DILITHIUM is absorbed
    after the shared secret only where the seed of the provisional key pair
    is derived.  How many bytes of that output the master entropy holds is no
    part of this statement. *)
Theorem single_pqhd_master_entropy (h' : Host) (N : Noble) (L : LibOQS) (rng rng' : OsRng)
    (l l' : pqhd.Locals) (w' : pqhd.Wallet) :
  fst (qti3_noble.steps1to4 N rng) = Ok l ->
  fst (qti3.generatePQHDWallet h' L rng') = Ok (l', w') ->
  SHAKE256_output (pqhd.sharedSecret l ++ pqhd.dilithium_pk l) (pqhd.master_entropy l) /\
  SHAKE256_output (pqhd.sharedSecret l' ++ pqhd.dilithium_pk l') (pqhd.master_entropy l') /\
  pqhd.dilithium_pk l
    = fst (ml_dsa65_keygen N
             (Keccak.SHAKE256
                (pqhd.sharedSecret l ++ Buffer_from_utf8 QTC_PQHD_DILITHIUM) 32)).
Proof.
  intros H H'.
  apply qti3_noble_steps_inv in H as (_ & Hpk & Hme & _).
  apply qti3_generatePQHDWallet_inv in H' as (_ & _ & Hme' & _).
  split; [|split; [|exact Hpk]].
  - rewrite Hme. unfold qti3_noble.step3_master_entropy.
    rewrite digest_n_two_updates. apply SHAKE256_output_32.
  - rewrite Hme'. unfold qti3.step3_master_entropy, qti3.step3_combined_input.
    rewrite Buffer_concat2, digest_n_one_update. apply SHAKE256_output_32.
Qed.

Lemma single_pqhd_master_entropy_witness :
  exists l l' w',
    fst (qti3_noble.steps1to4 Fixtures.echo_noble Fixtures.tape_a) = Ok l /\
    fst (qti3.generatePQHDWallet Fixtures.ready_host Fixtures.echo_liboqs Fixtures.tape_a)
      = Ok (l', w') /\
    SHAKE256_output (pqhd.sharedSecret l ++ pqhd.dilithium_pk l) (pqhd.master_entropy l) /\
    SHAKE256_output (pqhd.sharedSecret l' ++ pqhd.dilithium_pk l') (pqhd.master_entropy l').
Proof.
  eassert (E : fst (qti3_noble.steps1to4 Fixtures.echo_noble Fixtures.tape_a) = Ok _)
    by (vm_compute; reflexivity).
  eassert (E' : fst (qti3.generatePQHDWallet Fixtures.ready_host Fixtures.echo_liboqs
                       Fixtures.tape_a) = Ok (_, _))
    by (vm_compute; reflexivity).
  destruct (single_pqhd_master_entropy _ _ _ _ _ _ _ _ E E') as (A & B & _).
  eexists _, _, _.
  split; [exact E|]. split; [exact E'|]. split; [exact A | exact B].
Defined.

(** C3 as stated fails: on a run of the older script the master entropy is
    not the 64-byte digest of shared secret, tag and public key, nor any
    shorter output for that message; it is not 64 bytes long either, with or
    without the tag. *)
Lemma single_pqhd_master_entropy_has_no_tag :
  exists l,
    fst (qti3_noble.steps1to4 Fixtures.echo_noble Fixtures.tape_a) = Ok l /\
    pqhd.master_entropy l
    <> Keccak.SHAKE256
         (pqhd.sharedSecret l ++ Buffer_from_utf8 QTC_PQHD_DILITHIUM
            ++ pqhd.dilithium_pk l) 64 /\
    ~ SHAKE256_output
        (pqhd.sharedSecret l ++ Buffer_from_utf8 QTC_PQHD_DILITHIUM ++ pqhd.dilithium_pk l)
        (pqhd.master_entropy l) /\
    pqhd.master_entropy l
    <> Keccak.SHAKE256 (pqhd.sharedSecret l ++ pqhd.dilithium_pk l) 64.
Proof.
  eexists. split; [vm_compute; reflexivity|]. split; [|split].
  - vm_compute. intros H. discriminate H.
  - intros [_ H]. vm_compute in H. discriminate H.
  - vm_compute. intros H. discriminate H.
Qed.

(** ** Addresses *)

(** The scripts with a witness version all encode the same way. *)
Lemma pqhd_step4c_is_encode (addressBytes : Buffer) :
  pqhd.step4c_address addressBytes = AddressCodec.encode 2 addressBytes.
Proof. reflexivity. Qed.

Lemma qtc2_step4c_is_encode (addressBytes : Buffer) :
  qtc2.step4c_address addressBytes = AddressCodec.encode 1 addressBytes.
Proof. reflexivity. Qed.

Lemma generateAddress_is_encode (this : QTCHDNode) (pk : Buffer) :
  publicKey this = Some pk ->
  HDWallet.generateAddress this
  = AddressCodec.encode 2 (firstn 20 (Keccak.SHA3_256 pk)).
Proof. intros H. unfold HDWallet.generateAddress. rewrite H. reflexivity. Qed.

Ltac lookup_scope :=
  repeat (rewrite lookup_insert_ne by done);
  first [rewrite lookup_insert_eq | rewrite lookup_empty].

(** The object literal, evaluated where [combined_input] is bound. *)
Lemma step5_wallet_qti3 (l : pqhd.Locals) (combined_input : Buffer) :
  pqhd.step5_wallet (qti3.scope l combined_input)
  = Ok {| pqhd.address := pqhd.address_ l;
          pqhd.method := list_ascii_of_string "PQ-HD";
          pqhd.witness_version := 2;
          pqhd.master_entropy_b64 := toString_base64 (pqhd.master_entropy l);
          pqhd.kyber_public_b64 := toString_base64 (pqhd.kyber_pk l);
          pqhd.kyber_private_b64 := toString_base64 (pqhd.kyber_sk l);
          pqhd.dilithium_public_b64 := toString_base64 (pqhd.dilithium_pk l);
          pqhd.dilithium_private_b64 := toString_base64 (pqhd.dilithium_sk l);
          pqhd.kyber_shared_secret_b64 := toString_base64 (pqhd.sharedSecret l);
          pqhd.combined_input_b64 := toString_base64 combined_input |}.
Proof.
  unfold pqhd.step5_wallet, resolve_string, resolve_base64, resolve,
    qti3.scope, pqhd.common_scope.
  repeat (lookup_scope; cbn [mbind completion_bind]).
  reflexivity.
Qed.

(** The same literal, evaluated where it is not. *)
Lemma step5_wallet_qti3_noble (l : pqhd.Locals) :
  pqhd.step5_wallet (qti3_noble.scope l)
  = Throw (ReferenceError "combined_input is not defined").
Proof.
  unfold pqhd.step5_wallet, resolve_string, resolve_base64, resolve,
    qti3_noble.scope, pqhd.common_scope.
  repeat (lookup_scope; cbn [mbind completion_bind]).
  reflexivity.
Qed.

Lemma generateAddresses_loop_spec (sig_keygen : Buffer -> completion (Buffer * Buffer))
    (masterNode : QTCHDNode) (todo : list Z) :
  forall acc entries,
    HDWallet.generateAddresses_loop sig_keygen masterNode todo acc = Ok entries ->
    exists new, entries = acc ++ new /\ Forall2 (entry_of sig_keygen masterNode) todo new.
Proof.
  induction todo as [|i rest IH]; intros acc entries H.
  - cbn in H. injection H as <-. exists []. rewrite app_nil_r. split; [reflexivity|constructor].
  - cbn [HDWallet.generateAddresses_loop] in H.
    destruct (HDWallet.deriveChild masterNode i) as [child| |] eqn:Ed; step_bind H.
    unfold HDWallet.generateKeyPair in H.
    destruct (sig_keygen (Buffer_slice0 32 (masterEntropy child))) as [[pk sk]| |] eqn:Ek;
      step_bind H.
    step_bind H.
    rewrite (generateAddress_is_encode _ pk) in H by reflexivity.
    destruct (AddressCodec.encode 2 (firstn 20 (Keccak.SHA3_256 pk))) as [addr| |] eqn:Ea;
      step_bind H.
    unfold HDWallet.push in H.
    destruct (2 ^ 32 - 1 <=? Z.of_nat (List.length acc)); step_bind H.
    apply IH in H as (new & -> & Hnew).
    eexists (_ :: new). rewrite <- app_assoc. split; [reflexivity|].
    constructor; [|exact Hnew].
    exists child, pk, sk. cbn [index path_ dilithium_public_b64 dilithium_private_b64 address
                                 path fst snd].
    split; [exact Ed|]. split; [exact Ek|]. split; [reflexivity|].
    split; [reflexivity|]. split; [reflexivity|]. split; [reflexivity|exact Ea].
Qed.

Lemma deriveChild_path (this child : QTCHDNode) (i : Z) :
  HDWallet.deriveChild this i = Ok child ->
  path child = new_QTCHDPath (purpose (path this)) (account (path this)) (change (path this)) i.
Proof.
  unfold HDWallet.deriveChild. intros H.
  destruct (writeUInt32BE (Buffer_alloc 4) i) as [indexData| |]; step_bind H.
  injection H as <-. reflexivity.
Qed.

(** What a successful run of qtc2.js has computed. *)
Lemma qtc2_generateWallet_inv (h : Host) (N : Noble) (rng : OsRng)
    (l : qtc2.Locals) (w : qti2.Wallet) :
  fst (qtc2.generateWallet h N rng) = Ok (l, w) ->
  qtc2.addressBytes l = qtc2.step4_addressBytes (qtc2.dilithium_pk l) /\
  qtc2.step4c_address (qtc2.addressBytes l) = Ok (qtc2.address l) /\
  w = qtc2.step5_wallet l.
Proof.
  unfold qtc2.generateWallet.
  destruct (noble_kyber_step N rng) as [[[kpk ksk] ss] rng'].
  destruct (qtc2.step3_dilithium N (qtc2.step2_entropy ss)) as [dpk dsk] eqn:E3.
  cbn [fst snd]. intros H.
  destruct (qtc2.step4c_address (qtc2.step4_addressBytes dpk)) as [addr| |] eqn:E4;
    step_bind H.
  destruct (qtc2.step6_save h _) as [[]| |] eqn:E6; step_bind H.
  injection H as <- <-.
  cbn [qtc2.dilithium_pk qtc2.addressBytes qtc2.address].
  split; [reflexivity|]. split; [exact E4|reflexivity].
Qed.

(** The entries of the address loop, each by its own index. *)
Lemma entries_by_index (sig_keygen : Buffer -> completion (Buffer * Buffer))
    (mn : QTCHDNode) (todo : list Z) (new : list AddressEntry) :
  Forall2 (entry_of sig_keygen mn) todo new ->
  map index new = todo /\
  forall e, In e new -> entry_of sig_keygen mn (index e) e.
Proof.
  intros Hall. induction Hall as [|i e todo new Hie _ [IH1 IH2]].
  - split; [reflexivity|]. intros e [].
  - assert (Hi : index e = i) by (destruct Hie as (c & pk & sk & _ & _ & Hi & _); exact Hi).
    split; [cbn [map]; rewrite Hi, IH1; reflexivity|].
    intros e' [<-|Hin]; [rewrite Hi; exact Hie|exact (IH2 e' Hin)].
Qed.

(** C4, as amended. Every address program is the first 20 bytes of a
    SHA3-256 digest.  The input hashed is the Dilithium public key in the
    Primary method (qti2.js and qtc2.js) and in the HD multi-address method,
    and the master entropy in the Single PQ-HD method (both variants of the
    script).  In the HD method the entries carry the indices 0, 1, ... in
    order, and the key hashed for an entry is the public key generated for the
    child node that deriveChild gives for the entry's own index. *)
Theorem address_program_inputs (h1 h1' h3 : Host) (N : Noble) (L : LibOQS)
    (sig_keygen : Buffer -> completion (Buffer * Buffer))
    (rng1 rng1' rng2 rng3 : OsRng)
    (l1 : qti2.Locals) (w1 : qti2.Wallet) (l1' : qtc2.Locals) (w1' : qti2.Wallet)
    (l2 l3 : pqhd.Locals) (w3 : pqhd.Wallet)
    (this : QTCPQHDWallet) (count account change : Z)
    (entries : list AddressEntry) :
  fst (qti2.generateWallet h1 N rng1) = Ok (l1, w1) ->
  fst (qtc2.generateWallet h1' N rng1') = Ok (l1', w1') ->
  fst (qti3_noble.steps1to4 N rng2) = Ok l2 ->
  fst (qti3.generatePQHDWallet h3 L rng3) = Ok (l3, w3) ->
  HDWallet.generateAddresses sig_keygen this count account change = Ok entries ->
  bech32.encode qtc (bech32.toWords (firstn 20 (Keccak.SHA3_256 (qti2.dilithium_pk l1))))
    = Ok (qti2.address_ w1) /\
  AddressCodec.encode 1 (firstn 20 (Keccak.SHA3_256 (qtc2.dilithium_pk l1')))
    = Ok (qti2.address_ w1') /\
  AddressCodec.encode 2 (firstn 20 (Keccak.SHA3_256 (pqhd.master_entropy l2)))
    = Ok (pqhd.address_ l2) /\
  AddressCodec.encode 2 (firstn 20 (Keccak.SHA3_256 (pqhd.master_entropy l3)))
    = Ok (pqhd.address w3) /\
  exists mn,
    masterNode this = Some mn /\
    map index entries = map Z.of_nat (seq 0 (Z.to_nat count)) /\
    forall e, In e entries ->
      exists child pk sk,
        HDWallet.deriveChild mn (index e) = Ok child /\
        sig_keygen (Buffer_slice0 32 (masterEntropy child)) = Ok (pk, sk) /\
        dilithium_public_b64 e = toString_base64 pk /\
        AddressCodec.encode 2 (firstn 20 (Keccak.SHA3_256 pk)) = Ok (address e).
Proof.
  intros H1 H1' H2 H3 H4.
  apply qti2_generateWallet_inv in H1 as (_ & _ & _ & Hb1 & Ha1 & ->).
  apply qtc2_generateWallet_inv in H1' as (Hb1' & Ha1' & ->).
  apply qti3_noble_steps_inv in H2 as (_ & _ & _ & Hb2 & Ha2).
  apply qti3_generatePQHDWallet_inv in H3 as (_ & _ & _ & Hb3 & Ha3 & Hw3).
  split.
  { rewrite Hb1 in Ha1. exact Ha1. }
  split.
  { rewrite Hb1' in Ha1'. exact Ha1'. }
  split.
  { rewrite Hb2 in Ha2. exact Ha2. }
  split.
  { rewrite step5_wallet_qti3 in Hw3. injection Hw3 as <-. cbn [pqhd.address].
    rewrite Hb3 in Ha3. exact Ha3. }
  unfold HDWallet.generateAddresses in H4.
  destruct (masterNode this) as [mn|]; [|discriminate H4].
  apply generateAddresses_loop_spec in H4 as (new & -> & Hall).
  rewrite app_nil_l.
  apply entries_by_index in Hall as [Hidx Hin].
  exists mn. split; [reflexivity|]. split; [exact Hidx|].
  intros e He. destruct (Hin e He) as (child & pk & sk & Hd & Hk & _ & _ & Hp & _ & Ha).
  exists child, pk, sk. split; [exact Hd|]. split; [exact Hk|]. split; [exact Hp|exact Ha].
Qed.

Lemma address_program_inputs_witness :
  exists l1 w1 l3 w3 this md mn entries,
    fst (qti2.generateWallet Fixtures.ready_host Fixtures.echo_noble Fixtures.tape_a)
      = Ok (l1, w1) /\
    fst (qti3.generatePQHDWallet Fixtures.ready_host Fixtures.echo_liboqs Fixtures.tape_a)
      = Ok (l3, w3) /\
    fst (qti3_hd_noble.generateMaster Fixtures.echo_noble new_QTCPQHDWallet Fixtures.tape_a)
      = Ok (this, md) /\
    qti3_hd_noble.generateAddresses Fixtures.echo_noble this 2 0 0 = Ok entries /\
    bech32.encode qtc (bech32.toWords (firstn 20 (Keccak.SHA3_256 (qti2.dilithium_pk l1))))
      = Ok (qti2.address_ w1) /\
    AddressCodec.encode 2 (firstn 20 (Keccak.SHA3_256 (pqhd.master_entropy l3)))
      = Ok (pqhd.address w3) /\
    masterNode this = Some mn /\
    map index entries = [0; 1] /\
    forall e, In e entries ->
      exists child pk sk,
        HDWallet.deriveChild mn (index e) = Ok child /\
        qti3_hd_noble.sig_keygen Fixtures.echo_noble (Buffer_slice0 32 (masterEntropy child))
          = Ok (pk, sk) /\
        dilithium_public_b64 e = toString_base64 pk /\
        AddressCodec.encode 2 (firstn 20 (Keccak.SHA3_256 pk)) = Ok (address e).
Proof.
  eassert (E1 : fst (qti2.generateWallet Fixtures.ready_host Fixtures.echo_noble
                       Fixtures.tape_a) = Ok (_, _))
    by (vm_compute; reflexivity).
  eassert (E1' : fst (qtc2.generateWallet Fixtures.ready_host Fixtures.echo_noble
                        Fixtures.tape_a) = Ok (_, _))
    by (vm_compute; reflexivity).
  eassert (E2 : fst (qti3_noble.steps1to4 Fixtures.echo_noble Fixtures.tape_a) = Ok _)
    by (vm_compute; reflexivity).
  eassert (E3 : fst (qti3.generatePQHDWallet Fixtures.ready_host Fixtures.echo_liboqs
                       Fixtures.tape_a) = Ok (_, _))
    by (vm_compute; reflexivity).
  eassert (E0 : fst (qti3_hd_noble.generateMaster Fixtures.echo_noble new_QTCPQHDWallet
                       Fixtures.tape_a) = Ok (_, _))
    by (vm_compute; reflexivity).
  eassert (E4 : qti3_hd_noble.generateAddresses Fixtures.echo_noble _ 2 0 0 = Ok _).
  { match type of E0 with _ = Ok (?this, _) =>
      instantiate (2 := this) end.
    vm_compute. reflexivity. }
  destruct (address_program_inputs _ _ _ _ _ _ _ _ _ _ _ _ _ _ _ _ _ _ _ _ _ _
              E1 E1' E2 E3 E4)
    as (A & _ & _ & B & mn & Hmn & Hidx & Hall).
  eexists _, _, _, _, _, _, mn, _.
  split; [exact E1|]. split; [exact E3|]. split; [exact E0|]. split; [exact E4|].
  split; [exact A|]. split; [exact B|]. split; [exact Hmn|]. split; [exact Hidx|exact Hall].
Defined.

(** C4 as stated fails for the HD multi-address method: the address of index
    0 does not encode the hash of the wallet's master entropy, nor the hash of
    the child node's entropy. *)
Lemma hd_address_does_not_hash_entropy :
  exists this md mn child me e,
    fst (qti3_hd_noble.generateMaster Fixtures.echo_noble new_QTCPQHDWallet Fixtures.tape_a)
      = Ok (this, md) /\
    masterEntropy_ this = Some me /\
    masterNode this = Some mn /\
    qti3_hd_noble.deriveChild mn 0 = Ok child /\
    qti3_hd_noble.generateAddresses Fixtures.echo_noble this 1 0 0 = Ok [e] /\
    AddressCodec.encode 2 (firstn 20 (Keccak.SHA3_256 me)) <> Ok (address e) /\
    AddressCodec.encode 2 (firstn 20 (Keccak.SHA3_256 (masterEntropy child)))
      <> Ok (address e).
Proof.
  eexists _, _, _, _, _, _.
  split; [vm_compute; reflexivity|].
  split; [reflexivity|]. split; [reflexivity|].
  split; [vm_compute; reflexivity|].
  split; [vm_compute; reflexivity|].
  split; vm_compute; intros H; discriminate H.
Qed.

(** ** The export record of the single PQ-HD scripts *)

(** C9. In the older single PQ-HD script the member combined_input_b64 of
    the export record reads a variable that is bound nowhere on that path:
    evaluating the record throws, so no record, and no populated field, is
    produced.  In qti3.js the combined input is computed before the record is
    built and the field holds its base64 text. *)
Theorem combined_input_unbound_in_noble_variant (h h' : Host) (N : Noble) (L : LibOQS)
    (rng rng' : OsRng) (l : pqhd.Locals) (w : pqhd.Wallet) :
  fst (qti3.generatePQHDWallet h' L rng') = Ok (l, w) ->
  (forall l0, pqhd.step5_wallet (qti3_noble.scope l0)
              = Throw (ReferenceError "combined_input is not defined")) /\
  (forall l0, qti3_noble.scope l0 !! "combined_input"%string = None) /\
  is_Ok (fst (qti3_noble.generatePQHDWallet h N rng)) = false /\
  pqhd.combined_input_b64 w
    = toString_base64 (pqhd.sharedSecret l ++ pqhd.dilithium_pk l).
Proof.
  intros H.
  split; [exact step5_wallet_qti3_noble|].
  split.
  { intros l0. unfold qti3_noble.scope, pqhd.common_scope. lookup_scope. reflexivity. }
  split.
  - unfold qti3_noble.generatePQHDWallet.
    destruct (qti3_noble.steps1to4 N rng) as [r rng0]. cbn [fst snd].
    destruct r as [l0| |]; [|reflexivity..].
    rewrite bind_Ok, step5_wallet_qti3_noble. reflexivity.
  - apply qti3_generatePQHDWallet_inv in H as (_ & _ & _ & _ & _ & Hw).
    rewrite step5_wallet_qti3 in Hw. injection Hw as <-.
    cbn [pqhd.combined_input_b64]. unfold qti3.step3_combined_input.
    rewrite Buffer_concat2. reflexivity.
Qed.

Lemma combined_input_unbound_in_noble_variant_witness :
  exists l w,
    fst (qti3.generatePQHDWallet Fixtures.ready_host Fixtures.echo_liboqs Fixtures.tape_a)
      = Ok (l, w) /\
    is_Ok (fst (qti3_noble.generatePQHDWallet Fixtures.ready_host Fixtures.echo_noble
                  Fixtures.tape_a)) = false /\
    pqhd.combined_input_b64 w
      = toString_base64 (pqhd.sharedSecret l ++ pqhd.dilithium_pk l).
Proof.
  eassert (E : fst (qti3.generatePQHDWallet Fixtures.ready_host Fixtures.echo_liboqs
                      Fixtures.tape_a) = Ok (_, _))
    by (vm_compute; reflexivity).
  destruct (combined_input_unbound_in_noble_variant Fixtures.ready_host _ Fixtures.echo_noble
              _ Fixtures.tape_a _ _ _ E) as (_ & _ & A & B).
  eexists _, _. split; [exact E|]. split; [exact A|exact B].
Defined.

Example noble_variant_throws :
  fst (qti3_noble.generatePQHDWallet Fixtures.ready_host Fixtures.echo_noble Fixtures.tape_a)
  = Throw (ReferenceError "combined_input is not defined").
Proof. vm_compute. reflexivity. Qed.

(** ** The HD wallet: account and change *)

Lemma entries_paths (sig_keygen : Buffer -> completion (Buffer * Buffer))
    (mn : QTCHDNode) (todo : list Z) (new : list AddressEntry) :
  path mn = QTCHDPath_default ->
  Forall2 (entry_of sig_keygen mn) todo new ->
  map path_ new = map (fun i => HDPath.toString (new_QTCHDPath 44 0 0 i)) todo /\
  map index new = todo.
Proof.
  intros Hp Hall. induction Hall as [|i e todo new Hie _ [IH1 IH2]]; [split; reflexivity|].
  destruct Hie as (child & pk & sk & Hd & _ & Hi & Hpath & _).
  apply deriveChild_path in Hd. rewrite Hp in Hd. cbn [purpose account change] in Hd.
  cbn [map]. rewrite IH1, IH2, Hpath, Hd, Hi. split; reflexivity.
Qed.

(** C10. In the HD multi-address wallet the generated entries do not depend
    on the account and change arguments of generateAddresses: any two pairs
    of arguments give the same list, because every child path takes purpose,
    account and change from the master node, whose path is the default
    m/44'/0'/0, and only the address index varies. *)
Theorem generateAddresses_ignores_account_and_change (h : Host) (N : Noble) (rng : OsRng)
    (this : QTCPQHDWallet) (md : MasterData)
    (count account1 change1 account2 change2 : Z) (entries : list AddressEntry) :
  fst (qti3_hd_noble.generateMaster N new_QTCPQHDWallet rng) = Ok (this, md) ->
  qti3_hd_noble.generateAddresses N this count account1 change1 = Ok entries ->
  qti3_hd_noble.generateAddresses N this count account2 change2 = Ok entries /\
  map path_ entries
    = map (fun i => HDPath.toString (new_QTCHDPath 44 0 0 i))
        (map Z.of_nat (seq 0 (Z.to_nat count))) /\
  map index entries = map Z.of_nat (seq 0 (Z.to_nat count)) /\
  fst (qti3_hd_noble.main h N count account1 change1 rng)
    = fst (qti3_hd_noble.main h N count account2 change2 rng).
Proof.
  intros Hm Hg.
  split; [exact Hg|].
  rewrite hd_noble_generateMaster_eq in Hm.
  destruct (fst (noble_kyber_step N rng)) as [[kpk ksk] ss].
  destruct (ml_dsa65_keygen N (pqhd.dilithium_seed ss)) as [dpk dsk].
  cbv zeta in Hm.
  destruct (ml_dsa65_keygen N _) as [npk nsk] in Hm.
  injection Hm as <- <-.
  unfold qti3_hd_noble.generateAddresses, HDWallet.generateAddresses in Hg.
  cbn [masterNode] in Hg.
  apply generateAddresses_loop_spec in Hg as (new & -> & Hall).
  rewrite app_nil_l.
  apply entries_paths in Hall as [Hpaths Hidx]; [|reflexivity].
  split; [exact Hpaths|]. split; [exact Hidx|reflexivity].
Qed.

Lemma generateAddresses_ignores_account_and_change_witness :
  exists this md entries,
    fst (qti3_hd_noble.generateMaster Fixtures.echo_noble new_QTCPQHDWallet Fixtures.tape_a)
      = Ok (this, md) /\
    qti3_hd_noble.generateAddresses Fixtures.echo_noble this 3 0 0 = Ok entries /\
    qti3_hd_noble.generateAddresses Fixtures.echo_noble this 3 2 1 = Ok entries /\
    map path_ entries
      = map (fun i => HDPath.toString (new_QTCHDPath 44 0 0 i)) [0; 1; 2].
Proof.
  eassert (E0 : fst (qti3_hd_noble.generateMaster Fixtures.echo_noble new_QTCPQHDWallet
                       Fixtures.tape_a) = Ok (_, _))
    by (vm_compute; reflexivity).
  eassert (E1 : qti3_hd_noble.generateAddresses Fixtures.echo_noble _ 3 0 0 = Ok _).
  { match type of E0 with _ = Ok (?this, _) => instantiate (2 := this) end.
    vm_compute. reflexivity. }
  destruct (generateAddresses_ignores_account_and_change Fixtures.ready_host
              _ _ _ _ 3 0 0 2 1 _ E0 E1)
    as (A & B & _).
  eexists _, _, _. split; [exact E0|]. split; [exact E1|]. split; [exact A|exact B].
Defined.

(** ** Randomness *)

(** Step 1 of the noble scripts reads the operating system's generator
    twice: 64 bytes for the key-generation seed, then 32 bytes for the
    encapsulation message. *)
Lemma noble_kyber_step_draws_twice (N : Noble) (rng : OsRng) :
  noble_kyber_step N rng
  = (let '(pk, sk) := ml_kem1024_keygen N (firstn 64 rng) in
     (pk, sk, snd (ml_kem1024_encapsulate_msg N pk (firstn 32 (skipn 64 rng)))),
     skipn 32 (skipn 64 rng)).
Proof.
  unfold noble_kyber_step, ml_kem1024_encapsulate, randomBytes.
  destruct (ml_kem1024_keygen N (firstn 64 rng)) as [pk sk].
  destruct (ml_kem1024_encapsulate_msg N pk (firstn 32 (skipn 64 rng))) as [ct ss].
  reflexivity.
Qed.

(** The scripts that go through oqs_wallet_cli draw the 64-byte seed and
    nothing else: two runs from the same seed give the same wallet. *)
Lemma qti3_determined_by_seed (h : Host) (L : LibOQS) (rng1 rng2 : OsRng) :
  firstn 64 rng1 = firstn 64 rng2 ->
  fst (qti3.generatePQHDWallet h L rng1) = fst (qti3.generatePQHDWallet h L rng2).
Proof.
  intros H. unfold qti3.generatePQHDWallet, qti3.step1_kyber, randomBytes.
  destruct (ensureCliBuilt h) as [cli| |]; [|reflexivity..].
  rewrite H. destruct (spawnSync cli L _); reflexivity.
Qed.

Lemma qti3_hd_cli_determined_by_seed (h : Host) (L : LibOQS) (count account change : Z)
    (rng1 rng2 : OsRng) :
  firstn 64 rng1 = firstn 64 rng2 ->
  fst (qti3_hd_cli.main h L count account change rng1)
  = fst (qti3_hd_cli.main h L count account change rng2).
Proof.
  intros H. unfold qti3_hd_cli.main, HDWallet.main, HDWallet.generateMaster,
    qti3_hd_cli.kem_self, randomBytes.
  destruct (ensureCliBuilt h) as [cli| |]; [|reflexivity..].
  rewrite H. destruct (spawnSync cli L _); reflexivity.
Qed.

(** C1, at the failing input. Two runs of qti2.js from the same 64-byte
    seed, with the operating system's generator continuing differently after
    it: the wallets differ in master entropy, Dilithium key and address. *)
Theorem primary_wallet_not_determined_by_seed :
  firstn 64 Fixtures.tape_a = firstn 64 Fixtures.tape_b /\
  exists la wa lb wb,
    fst (qti2.generateWallet Fixtures.ready_host Fixtures.echo_noble Fixtures.tape_a)
      = Ok (la, wa) /\
    fst (qti2.generateWallet Fixtures.ready_host Fixtures.echo_noble Fixtures.tape_b)
      = Ok (lb, wb) /\
    qti2.kyber_pk la = qti2.kyber_pk lb /\
    qti2.sharedSecret la <> qti2.sharedSecret lb /\
    qti2.entropy la <> qti2.entropy lb /\
    qti2.dilithium_pk la <> qti2.dilithium_pk lb /\
    qti2.address_ wa <> qti2.address_ wb.
Proof.
  split; [reflexivity|].
  eexists _, _, _, _.
  split; [vm_compute; reflexivity|]. split; [vm_compute; reflexivity|].
  split; [reflexivity|].
  split; [vm_compute; intros H; discriminate H|].
  split; [vm_compute; intros H; discriminate H|].
  split; vm_compute; intros H; discriminate H.
Qed.

(** ** The checksum constant *)

(** Every script encodes with the export [bech32], constant 1. *)
Lemma scripts_encode_with_bech32_constant (addressBytes : Buffer) (this : QTCHDNode)
    (pk : Buffer) :
  publicKey this = Some pk ->
  qti2.step4c_address addressBytes
    = Bech32.encode 1 qtc (Bech32.toWords addressBytes) /\
  qtc2.step4c_address addressBytes
    = Bech32.encode 1 qtc (1 :: Bech32.toWords addressBytes) /\
  pqhd.step4c_address addressBytes
    = Bech32.encode 1 qtc (2 :: Bech32.toWords addressBytes) /\
  HDWallet.generateAddress this
    = Bech32.encode 1 qtc (2 :: Bech32.toWords (firstn 20 (Keccak.SHA3_256 pk))).
Proof.
  intros H. split; [reflexivity|]. split; [reflexivity|]. split; [reflexivity|].
  rewrite (generateAddress_is_encode this pk H). reflexivity.
Qed.

(** C5, at the failing input (witness version 2, a program of 20 zero
    bytes). The PQ-HD scripts produce the address whose checksum is computed
    with the bech32 constant 1; the bech32m constant gives another text, and
    a bech32m decoder rejects the address.  qti2.js, the Primary script,
    produces an address whose first data value is not the witness version:
    the words of the program follow the separator directly. *)
Theorem addresses_checksummed_with_bech32_constant :
  text (pqhd.step4c_address (repeat 0 20))
    = Some "qtc1zqqqqqqqqqqqqqqqqqqqqqqqqqqqqqqqqk2xrsp"%string /\
  text (AddressCodec.encode_with Bech32.bech32m_CONST 2 (repeat 0 20))
    = Some "qtc1zqqqqqqqqqqqqqqqqqqqqqqqqqqqqqqqqrkk04r"%string /\
  (a ← pqhd.step4c_address (repeat 0 20); AddressCodec.decode_with Bech32.bech32m_CONST a)
    = Throw (Error "Invalid checksum for qtc1zqqqqqqqqqqqqqqqqqqqqqqqqqqqqqqqqk2xrsp") /\
  text (qti2.step4c_address (repeat 0 20))
    = Some "qtc1qqqqqqqqqqqqqqqqqqqqqqqqqqqqqqqqh587al"%string /\
  text (AddressCodec.encode_with Bech32.bech32m_CONST 1 (repeat 0 20))
    = Some "qtc1pqqqqqqqqqqqqqqqqqqqqqqqqqqqqqqqq7axjz7"%string.
Proof.
  split; [vm_compute; reflexivity|]. split; [vm_compute; reflexivity|].
  split; [vm_compute; reflexivity|]. split; vm_compute; reflexivity.
Qed.

(* ===================================================================== *)
(** * The address codec round trip                                        *)
(* ===================================================================== *)

Lemma testbit_high (k x n : Z) : 0 <= x < 2 ^ k -> 0 <= k <= n -> Z.testbit x n = false.
Proof.
  intros Hx Hn. rewrite <- (Z.mod_small x (2 ^ k)) by exact Hx.
  apply Z.mod_pow2_bits_high. exact Hn.
Qed.
Lemma toInt32_small (z : Z) : - 2 ^ 31 <= z < 2 ^ 31 -> toInt32 z = z.
Proof. intros H. unfold toInt32. rewrite Z.mod_small by lia. lia. Qed.

(** ** Repacking *)

Lemma toInt32_mod (z : Z) : toInt32 z mod 2 ^ 32 = z mod 2 ^ 32.
Proof.
  unfold toInt32. rewrite Zminus_mod_idemp_l. f_equal. lia.
Qed.

Lemma shl32_divide (value k : Z) : 0 <= k <= 31 -> (2 ^ k | shl32 value k).
Proof.
  intros Hk. unfold shl32, toInt32. rewrite Z.shiftl_mul_pow2 by lia.
  assert (H32 : (2 ^ k | 2 ^ 32)).
  { exists (2 ^ (32 - k)). rewrite <- Z.pow_add_r by lia. f_equal. lia. }
  assert (H31 : (2 ^ k | 2 ^ 31)).
  { exists (2 ^ (31 - k)). rewrite <- Z.pow_add_r by lia. f_equal. lia. }
  apply Z.divide_sub_r; [|exact H31].
  rewrite Z.mod_eq by lia.
  apply Z.divide_sub_r.
  - apply Z.divide_add_r; [apply Z.divide_factor_r | exact H31].
  - apply Z.divide_mul_l. exact H32.
Qed.

Lemma lor_disjoint (a d k : Z) :
  0 <= k -> (2 ^ k | a) -> 0 <= d < 2 ^ k -> Z.lor a d = a + d.
Proof.
  intros Hk [q ->] Hd.
  assert (Hland : Z.land (q * 2 ^ k) d = 0).
  { apply Z.bits_inj'. intros n Hn. rewrite Z.land_spec, Z.bits_0.
    destruct (Z.lt_ge_cases n k) as [Hlt|Hge].
    - rewrite Z.mul_pow2_bits_low by exact Hlt. reflexivity.
    - rewrite (testbit_high k d n) by lia. apply andb_false_r. }
  rewrite <- Z.lxor_lor by exact Hland.
  symmetry. apply Z.add_nocarry_lxor. exact Hland.
Qed.

(** [value = (value << inBits) | d], up to the 32-bit wrap-around. *)
Lemma accumulate (value T d inBits : Z) :
  value mod 2 ^ 32 = T mod 2 ^ 32 ->
  0 < inBits <= 31 -> 0 <= d < 2 ^ inBits ->
  Z.lor (shl32 value inBits) d mod 2 ^ 32 = (T * 2 ^ inBits + d) mod 2 ^ 32.
Proof.
  intros Hv Hin Hd.
  rewrite (lor_disjoint _ d inBits) by (try apply shl32_divide; lia).
  unfold shl32. rewrite Z.shiftl_mul_pow2 by lia.
  rewrite Zplus_mod, toInt32_mod, Zmult_mod, Hv, <- Zmult_mod, <- Zplus_mod.
  reflexivity.
Qed.

Lemma maxV_ones (outBits : Z) : 0 < outBits <= 30 -> shl32 1 outBits - 1 = Z.ones outBits.
Proof.
  intros Ho. unfold shl32. rewrite Z.shiftl_mul_pow2, Z.mul_1_l by lia.
  assert (2 ^ outBits <= 2 ^ 30) by (apply Z.pow_le_mono_r; lia).
  assert (0 < 2 ^ outBits) by (apply Z.pow_pos_nonneg; lia).
  rewrite toInt32_small by lia. rewrite Z.ones_equiv. lia.
Qed.

(** [(value >> bits) & maxV] reads bits of the unwrapped value. *)
Lemma extract (value T b outBits : Z) :
  value mod 2 ^ 32 = T mod 2 ^ 32 ->
  0 <= b -> 0 < outBits <= 30 -> b + outBits <= 32 ->
  Z.land (Z.shiftr value b) (shl32 1 outBits - 1) = (T / 2 ^ b) mod 2 ^ outBits.
Proof.
  intros Hv Hb Ho Hsum.
  rewrite maxV_ones, Z.land_ones, Z.shiftr_div_pow2 by lia.
  apply Z.bits_inj'. intros n Hn.
  destruct (Z.lt_ge_cases n outBits) as [Hlt|Hge].
  - rewrite !Z.mod_pow2_bits_low, !Z.div_pow2_bits by lia.
    rewrite <- (Z.mod_pow2_bits_low value 32), <- (Z.mod_pow2_bits_low T 32) by lia.
    rewrite Hv. reflexivity.
  - rewrite !Z.mod_pow2_bits_high by lia. reflexivity.
Qed.

Lemma num_snoc (w acc x : Z) (l : list Z) :
  num w acc (l ++ [x]) = num w acc l * 2 ^ w + x.
Proof. revert acc. induction l as [|d l IH]; intros acc; [reflexivity | apply IH]. Qed.

Lemma pow2_pos (k : Z) : 0 <= k -> 0 < 2 ^ k.
Proof. intros. apply Z.pow_pos_nonneg; lia. Qed.

(** One more group: [T / 2^(b - w)] is [T / 2^b] followed by the next [w]
    bits. *)
Lemma next_group (T b w : Z) :
  0 < w -> w <= b ->
  T / 2 ^ b * 2 ^ w + T / 2 ^ (b - w) mod 2 ^ w = T / 2 ^ (b - w).
Proof.
  intros Hw Hb.
  replace (2 ^ b) with (2 ^ (b - w) * 2 ^ w) by (rewrite <- Z.pow_add_r by lia; f_equal; lia).
  pose proof (pow2_pos w ltac:(lia)). pose proof (pow2_pos (b - w) ltac:(lia)).
  rewrite <- Z.div_div by lia.
  pose proof (Z.div_mod (T / 2 ^ (b - w)) (2 ^ w) ltac:(lia)). lia.
Qed.

Lemma drain_spec (fuel : nat) (outBits value T : Z) :
  value mod 2 ^ 32 = T mod 2 ^ 32 -> 0 < outBits <= 30 ->
  forall bits result,
    0 <= bits <= 32 -> (Z.to_nat bits <= fuel)%nat ->
    num outBits 0 result = T / 2 ^ bits ->
    Forall (fits outBits) result ->
    exists bits' result',
      Bech32.drain fuel outBits value bits result = (bits', result') /\
      0 <= bits' < outBits /\
      num outBits 0 result' = T / 2 ^ bits' /\
      Forall (fits outBits) result' /\
      Z.of_nat (List.length result') * outBits + bits'
        = Z.of_nat (List.length result) * outBits + bits.
Proof.
  intros Hv Ho. induction fuel as [|fuel IH]; intros bits result Hb Hfuel Hnum Hfits.
  - exists bits, result. cbn [Bech32.drain]. repeat split; try assumption; lia.
  - cbn [Bech32.drain]. destruct (Z.leb_spec outBits bits) as [Hge|Hlt].
    + rewrite (extract value T) by (try assumption; lia).
      destruct (IH (bits - outBits)
                  (result ++ [T / 2 ^ (bits - outBits) mod 2 ^ outBits]))
        as (bits' & result' & E & Hb' & Hnum' & Hfits' & Hlen); try lia.
      * rewrite num_snoc, Hnum. apply next_group; lia.
      * apply Forall_app. split; [exact Hfits|]. constructor; [|constructor].
        apply Z.mod_pos_bound, pow2_pos. lia.
      * exists bits', result'. split; [exact E|]. split; [exact Hb'|].
        split; [exact Hnum'|]. split; [exact Hfits'|].
        rewrite Hlen, length_app. cbn [List.length]. lia.
    + exists bits, result. repeat split; try assumption; lia.
Qed.

Lemma shift_in (T d inBits bits : Z) :
  0 <= T -> 0 < inBits -> 0 <= bits -> 0 <= d < 2 ^ inBits ->
  (T * 2 ^ inBits + d) / 2 ^ (bits + inBits) = T / 2 ^ bits.
Proof.
  intros HT Hin Hb Hd.
  pose proof (pow2_pos inBits ltac:(lia)). pose proof (pow2_pos bits ltac:(lia)).
  replace (2 ^ (bits + inBits)) with (2 ^ inBits * 2 ^ bits)
    by (rewrite <- Z.pow_add_r by lia; f_equal; lia).
  rewrite <- Z.div_div by lia. f_equal.
  rewrite Z.div_add_l by lia. rewrite (Z.div_small d) by lia. lia.
Qed.

Lemma convert_loop_spec (inBits outBits : Z) (data : list Z) :
  0 < inBits -> 0 < outBits <= 30 -> inBits + outBits <= 32 ->
  Forall (fits inBits) data ->
  forall value T bits result,
    value mod 2 ^ 32 = T mod 2 ^ 32 -> 0 <= T ->
    0 <= bits < outBits ->
    num outBits 0 result = T / 2 ^ bits ->
    Forall (fits outBits) result ->
    exists value' bits' result',
      Bech32.convert_loop data inBits outBits value bits result = (value', bits', result') /\
      value' mod 2 ^ 32 = num inBits T data mod 2 ^ 32 /\
      0 <= bits' < outBits /\
      num outBits 0 result' = num inBits T data / 2 ^ bits' /\
      Forall (fits outBits) result' /\
      Z.of_nat (List.length result') * outBits + bits'
        = Z.of_nat (List.length result) * outBits + bits
          + inBits * Z.of_nat (List.length data).
Proof.
  intros Hin Ho Hsum Hdata.
  induction Hdata as [|d data Hd _ IH]; intros value T bits result Hv HT Hb Hnum Hfits.
  - exists value, bits, result. cbn [Bech32.convert_loop num List.length].
    repeat split; try assumption; lia.
  - cbn [Bech32.convert_loop num].
    set (value1 := Z.lor (shl32 value inBits) d).
    set (T1 := T * 2 ^ inBits + d).
    assert (Hv1 : value1 mod 2 ^ 32 = T1 mod 2 ^ 32)
      by (apply accumulate; [exact Hv | lia | exact Hd]).
    assert (HT1 : 0 <= T1).
    { unfold T1. pose proof (pow2_pos inBits ltac:(lia)). destruct Hd. nia. }
    destruct (drain_spec (Z.to_nat (bits + inBits)) outBits value1 T1 Hv1 Ho
                (bits + inBits) result)
      as (bits2 & result2 & E & Hb2 & Hnum2 & Hfits2 & Hlen2); try lia.
    { rewrite Hnum. symmetry. apply shift_in; try lia. exact Hd. }
    { exact Hfits. }
    rewrite E.
    destruct (IH value1 T1 bits2 result2 Hv1 HT1 Hb2 Hnum2 Hfits2)
      as (value' & bits' & result' & E' & Hv' & Hb' & Hnum' & Hfits' & Hlen').
    exists value', bits', result'. split; [exact E'|]. split; [exact Hv'|].
    split; [exact Hb'|]. split; [exact Hnum'|]. split; [exact Hfits'|].
    rewrite Hlen', Hlen2. cbn [List.length]. lia.
Qed.

Lemma shl32_clear (value outBits : Z) :
  0 < outBits <= 30 -> Z.land (shl32 value outBits) (shl32 1 outBits - 1) = 0.
Proof.
  intros Ho. rewrite maxV_ones, Z.land_ones by lia.
  apply Z.mod_divide; [pose proof (pow2_pos outBits); lia|].
  apply shl32_divide. lia.
Qed.

(** Bytes to words: 20 bytes are 32 words, nothing left over. *)
Lemma toWords_20 (bytes : list Z) :
  List.length bytes = 20%nat -> Forall (fits 8) bytes ->
  List.length (Bech32.toWords bytes) = 32%nat /\
  Forall (fits 5) (Bech32.toWords bytes) /\
  num 5 0 (Bech32.toWords bytes) = num 8 0 bytes.
Proof.
  intros Hlen Hbytes. unfold Bech32.toWords, Bech32.convert.
  destruct (convert_loop_spec 8 5 bytes ltac:(lia) ltac:(lia) ltac:(lia) Hbytes
              0 0 0 [] eq_refl ltac:(lia) ltac:(lia) eq_refl ltac:(constructor))
    as (value' & bits' & result' & E & _ & Hb & Hnum & Hfits & Hl).
  rewrite E. rewrite Hlen in Hl. cbn [List.length] in Hl.
  assert (bits' = 0) by lia. subst bits'.
  cbn [Z.ltb Z.compare]. rewrite Z.div_1_r in Hnum.
  split; [lia|]. split; [exact Hfits|exact Hnum].
Qed.

(** Words to bytes: 32 words are 20 bytes, no padding to check. *)
Lemma fromWords_32 (words : list Z) :
  List.length words = 32%nat -> Forall (fits 5) words ->
  exists bytes,
    Bech32.fromWords words = Ok bytes /\
    List.length bytes = 20%nat /\
    Forall (fits 8) bytes /\
    num 8 0 bytes = num 5 0 words.
Proof.
  intros Hlen Hwords. unfold Bech32.fromWords, Bech32.convert.
  destruct (convert_loop_spec 5 8 words ltac:(lia) ltac:(lia) ltac:(lia) Hwords
              0 0 0 [] eq_refl ltac:(lia) ltac:(lia) eq_refl ltac:(constructor))
    as (value' & bits' & result' & E & _ & Hb & Hnum & Hfits & Hl).
  rewrite E. rewrite Hlen in Hl. cbn [List.length] in Hl.
  assert (bits' = 0) by lia. subst bits'.
  cbn [Z.leb Z.compare]. rewrite Z.sub_0_r, shl32_clear by lia.
  cbn [Z.eqb negb]. rewrite Z.div_1_r in Hnum.
  exists result'. split; [reflexivity|]. split; [lia|]. split; [exact Hfits|exact Hnum].
Qed.

Lemma num_acc (w acc : Z) (l : list Z) :
  0 <= w ->
  num w acc l = acc * 2 ^ (w * Z.of_nat (List.length l)) + num w 0 l.
Proof.
  intros Hw. revert acc. induction l as [|d l IH]; intros acc.
  - cbn. rewrite Z.mul_0_r. cbn. lia.
  - cbn [num List.length]. rewrite IH, (IH (0 * 2 ^ w + d)).
    rewrite Nat2Z.inj_succ.
    replace (w * Z.succ (Z.of_nat (List.length l))) with (w + w * Z.of_nat (List.length l))
      by lia.
    rewrite Z.pow_add_r by lia. lia.
Qed.

Lemma num_bound (w : Z) (l : list Z) :
  0 <= w -> Forall (fits w) l -> 0 <= num w 0 l < 2 ^ (w * Z.of_nat (List.length l)).
Proof.
  intros Hw Hl. induction Hl as [|d l Hd _ IH].
  - cbn. rewrite Z.mul_0_r. cbn. lia.
  - cbn [num List.length]. rewrite num_acc by exact Hw.
    rewrite Nat2Z.inj_succ.
    replace (w * Z.succ (Z.of_nat (List.length l))) with (w + w * Z.of_nat (List.length l))
      by lia.
    rewrite Z.pow_add_r by lia. unfold fits in Hd.
    pose proof (pow2_pos (w * Z.of_nat (List.length l)) ltac:(lia)). nia.
Qed.

(** Lists of [w]-bit values of one length are told apart by their number. *)
Lemma num_inj (w : Z) (l1 l2 : list Z) :
  0 <= w -> Forall (fits w) l1 -> Forall (fits w) l2 ->
  List.length l1 = List.length l2 ->
  num w 0 l1 = num w 0 l2 -> l1 = l2.
Proof.
  intros Hw H1. revert l2. induction H1 as [|d1 l1 Hd1 Hl1 IH]; intros l2 H2 Hlen Hnum.
  - destruct l2; [reflexivity|discriminate Hlen].
  - destruct H2 as [|d2 l2 Hd2 Hl2]; [discriminate Hlen|].
    cbn [List.length] in Hlen. injection Hlen as Hlen.
    cbn [num] in Hnum. rewrite (num_acc w _ l1), (num_acc w _ l2) in Hnum by exact Hw.
    rewrite <- Hlen in Hnum.
    pose proof (num_bound w l1 Hw Hl1) as B1. pose proof (num_bound w l2 Hw Hl2) as B2.
    rewrite <- Hlen in B2.
    pose proof (pow2_pos (w * Z.of_nat (List.length l1)) ltac:(lia)) as Hp.
    unfold fits in Hd1, Hd2.
    assert (d1 = d2) by nia. subst d2.
    f_equal. apply IH; [exact Hl2 | exact Hlen | lia].
Qed.

Lemma fromWords_toWords (bytes : list Z) :
  List.length bytes = 20%nat -> Forall (fits 8) bytes ->
  Bech32.fromWords (Bech32.toWords bytes) = Ok bytes.
Proof.
  intros Hlen Hbytes.
  destruct (toWords_20 bytes Hlen Hbytes) as (Hl & Hf & Hn).
  destruct (fromWords_32 _ Hl Hf) as (bytes' & E & Hl' & Hf' & Hn').
  rewrite E. f_equal. apply (num_inj 8); try assumption; [lia|lia|lia].
Qed.

(** ** The checksum *)

Lemma below_pow2 (k x : Z) :
  0 <= k -> 0 <= x -> (forall n, k <= n -> Z.testbit x n = false) -> x < 2 ^ k.
Proof.
  intros Hk Hx Hbits.
  destruct (Z.eq_dec x 0) as [->|Hnz]; [apply Z.pow_pos_nonneg; lia|].
  apply Z.log2_lt_pow2; [lia|].
  destruct (Z.lt_ge_cases (Z.log2 x) k) as [Hlt|Hge]; [exact Hlt|].
  specialize (Hbits (Z.log2 x) Hge).
  rewrite Z.bit_log2 in Hbits by lia. discriminate Hbits.
Qed.

Lemma lxor_u30 (a b : Z) : u30 a -> u30 b -> u30 (Z.lxor a b).
Proof.
  intros Ha Hb. unfold u30 in *. split.
  - apply Z.lxor_nonneg. lia.
  - apply below_pow2; [lia | apply Z.lxor_nonneg; lia |].
    intros n Hn. rewrite Z.lxor_spec.
    rewrite (testbit_high 30 a n), (testbit_high 30 b n) by lia. reflexivity.
Qed.

Lemma testbit_sel (t : bool) (g n : Z) : Z.testbit (sel t g) n = t && Z.testbit g n.
Proof. destruct t; [reflexivity | apply Z.bits_0]. Qed.


(** [-((b >> i) & 1) & g]: the generator [g] when bit [i] of [b] is set. *)
Lemma masked_generator (b i g : Z) :
  0 <= i ->
  Z.land (neg32 (Z.land (Z.shiftr b i) 1)) g = sel (Z.testbit b i) g.
Proof.
  intros Hi. change 1 with (Z.ones 1) at 1. rewrite Z.land_ones by lia.
  change (2 ^ 1) with 2. rewrite <- Z.bit0_mod, Z.shiftr_spec by lia.
  rewrite Z.add_0_l. destruct (Z.testbit b i); cbn [Z.b2z sel].
  - change (neg32 1) with (-1). apply Z.land_m1_l.
  - change (neg32 0) with 0. apply Z.land_0_l.
Qed.

Lemma polymodStep_bits (pre : Z) :
  u30 pre ->
  Bech32.polymodStep pre =
  Z.lxor (Z.lxor (Z.lxor (Z.lxor (Z.lxor
    (Z.shiftl (Z.land pre (Z.ones 25)) 5)
    (sel (Z.testbit pre 25) 0x3b6a57b2))
    (sel (Z.testbit pre 26) 0x26508e6d))
    (sel (Z.testbit pre 27) 0x1ea119fa))
    (sel (Z.testbit pre 28) 0x3d4233dd))
    (sel (Z.testbit pre 29) 0x2a1462b3).
Proof.
  intros Hp. unfold Bech32.polymodStep.
  rewrite !masked_generator by lia.
  rewrite !Z.shiftr_spec by lia. cbn [Z.add Pos.add Pos.succ].
  change 0x1ffffff with (Z.ones 25).
  unfold shl32. rewrite toInt32_small; [reflexivity|].
  rewrite Z.land_ones, Z.shiftl_mul_pow2 by lia.
  pose proof (Z.mod_pos_bound pre (2 ^ 25) ltac:(lia)). lia.
Qed.

Opaque Bech32.polymodStep.

Lemma sel_u30 (t : bool) (g : Z) : u30 g -> u30 (sel t g).
Proof. intros Hg. destruct t; [exact Hg | unfold u30, sel; lia]. Qed.

Lemma polymodStep_u30 (pre : Z) : u30 pre -> u30 (Bech32.polymodStep pre).
Proof.
  intros Hp. rewrite polymodStep_bits by exact Hp.
  repeat apply lxor_u30; try (apply sel_u30; unfold u30; lia).
  unfold u30. rewrite Z.land_ones, Z.shiftl_mul_pow2 by lia.
  pose proof (Z.mod_pos_bound pre (2 ^ 25) ltac:(lia)). lia.
Qed.

(** The step is linear over exclusive or. *)
Lemma polymodStep_lxor (a b : Z) :
  u30 a -> u30 b ->
  Bech32.polymodStep (Z.lxor a b)
  = Z.lxor (Bech32.polymodStep a) (Bech32.polymodStep b).
Proof.
  intros Ha Hb.
  rewrite !polymodStep_bits by (try apply lxor_u30; assumption).
  apply Z.bits_inj'. intros n Hn.
  rewrite !Z.lxor_spec, !testbit_sel, !Z.shiftl_spec, !Z.land_spec, !Z.lxor_spec by exact Hn.
  btauto.
Qed.

Lemma polymodStep_small (x : Z) :
  0 <= x < 2 ^ 25 -> Bech32.polymodStep x = Z.shiftl x 5.
Proof.
  intros Hx. rewrite polymodStep_bits by (unfold u30; lia).
  rewrite !(testbit_high 25 x) by lia. cbn [sel]. rewrite !Z.lxor_0_r.
  rewrite Z.land_ones, Z.mod_small by lia. reflexivity.
Qed.

(** A value below 32 fed [k] steps earlier has moved up by [5k] bits. *)
Lemma polymodStep_iter_small (k : nat) (x : Z) :
  (k <= 5)%nat -> 0 <= x < 32 ->
  Nat.iter k Bech32.polymodStep x = Z.shiftl x (5 * Z.of_nat k).
Proof.
  intros Hk Hx. induction k as [|k IH].
  - reflexivity.
  - rewrite Nat.iter_succ, IH by lia.
    assert (Hb : 0 <= Z.shiftl x (5 * Z.of_nat k) < 2 ^ 25).
    { rewrite Z.shiftl_mul_pow2 by lia.
      assert (2 ^ (5 * Z.of_nat k) <= 2 ^ 20) by (apply Z.pow_le_mono_r; lia).
      assert (0 < 2 ^ (5 * Z.of_nat k)) by (apply Z.pow_pos_nonneg; lia).
      nia. }
    rewrite polymodStep_small by exact Hb.
    rewrite Z.shiftl_shiftl by lia. f_equal. lia.
Qed.

Lemma polymodStep_iter_u30 (k : nat) (x : Z) :
  u30 x -> u30 (Nat.iter k Bech32.polymodStep x).
Proof.
  intros Hx. induction k as [|k IH]; [exact Hx|].
  rewrite Nat.iter_succ. apply polymodStep_u30, IH.
Qed.

Lemma polymodStep_iter_lxor (k : nat) (a b : Z) :
  u30 a -> u30 b ->
  Nat.iter k Bech32.polymodStep (Z.lxor a b)
  = Z.lxor (Nat.iter k Bech32.polymodStep a) (Nat.iter k Bech32.polymodStep b).
Proof.
  intros Ha Hb. induction k as [|k IH]; [reflexivity|].
  rewrite !Nat.iter_succ, IH. apply polymodStep_lxor; apply polymodStep_iter_u30; assumption.
Qed.

Lemma u30_small (x : Z) : 0 <= x < 32 -> u30 x.
Proof. unfold u30. lia. Qed.

(** Feeding values [vs] into the checksum state [s]: the state moves on by
    one step per value, and each value enters where it was fed. *)
Lemma polymod_app (xs ys : list Z) (s : Z) :
  polymod (xs ++ ys) s = polymod ys (polymod xs s).
Proof. unfold polymod. apply fold_left_app. Qed.

Lemma polymod_u30 (vs : list Z) (s : Z) :
  u30 s -> Forall (fun v => 0 <= v < 32) vs -> u30 (polymod vs s).
Proof.
  intros Hs Hvs. revert s Hs. induction Hvs as [|v vs Hv _ IH]; intros s Hs; [exact Hs|].
  cbn. apply IH. apply lxor_u30; [apply polymodStep_u30, Hs | apply u30_small, Hv].
Qed.

Lemma groups_range (c : Z) : Forall (fun v => 0 <= v < 32) (groups c).
Proof.
  unfold groups. apply Forall_map, Forall_forall. intros i _.
  change 0x1f with (Z.ones 5). rewrite Z.land_ones by lia.
  apply Z.mod_pos_bound. lia.
Qed.

Ltac decide_cmp :=
  repeat match goal with
    | |- context [?a <=? ?b] =>
        first [ rewrite (proj2 (Z.leb_le a b)) by lia
              | rewrite (proj2 (Z.leb_gt a b)) by lia ]
    | |- context [?a <? ?b] =>
        first [ rewrite (proj2 (Z.ltb_lt a b)) by lia
              | rewrite (proj2 (Z.ltb_ge a b)) by lia ]
    end.

Lemma testbit_group (c k n : Z) :
  0 <= k -> 0 <= n ->
  Z.testbit (Z.shiftl (Z.land (Z.shiftr c k) 0x1f) k) n
  = (k <=? n) && (n <? k + 5) && Z.testbit c n.
Proof.
  intros Hk Hn. rewrite Z.shiftl_spec by exact Hn.
  destruct (Z.ltb_spec n k) as [Hlt|Hge].
  - rewrite Z.testbit_neg_r by lia. decide_cmp. reflexivity.
  - rewrite Z.land_spec, Z.shiftr_spec by lia.
    change 0x1f with (Z.ones 5). rewrite Z.testbit_ones by lia.
    replace (n - k + k) with n by lia.
    decide_cmp. destruct (Z.ltb_spec (n - k) 5); decide_cmp; btauto.
Qed.

(** Putting the six groups back where they came from gives the value. *)
Lemma groups_recompose (c : Z) :
  u30 c ->
  Z.lxor (Z.lxor (Z.lxor (Z.lxor (Z.lxor
    (Z.shiftl (Z.land (Z.shiftr c 25) 0x1f) 25)
    (Z.shiftl (Z.land (Z.shiftr c 20) 0x1f) 20))
    (Z.shiftl (Z.land (Z.shiftr c 15) 0x1f) 15))
    (Z.shiftl (Z.land (Z.shiftr c 10) 0x1f) 10))
    (Z.shiftl (Z.land (Z.shiftr c 5) 0x1f) 5))
    (Z.shiftl (Z.land (Z.shiftr c 0) 0x1f) 0) = c.
Proof.
  intros Hc. apply Z.bits_inj'. intros n Hn.
  rewrite !Z.lxor_spec, !testbit_group by lia.
  assert (Hcases : n < 5 \/ 5 <= n < 10 \/ 10 <= n < 15 \/ 15 <= n < 20
                   \/ 20 <= n < 25 \/ 25 <= n < 30 \/ 30 <= n) by lia.
  destruct Hcases as [H|[H|[H|[H|[H|[H|H]]]]]]; decide_cmp;
    try rewrite (testbit_high 30 c n) by (unfold u30 in Hc; lia);
    cbn [andb xorb]; btauto.
Qed.

Lemma polymodStep_shifted (x k : Z) :
  0 <= x < 32 -> 0 <= k <= 20 ->
  Bech32.polymodStep (Z.shiftl x k) = Z.shiftl x (k + 5).
Proof.
  intros Hx Hk.
  assert (Hb : 0 <= Z.shiftl x k < 2 ^ 25).
  { rewrite Z.shiftl_mul_pow2 by lia.
    assert (2 ^ k <= 2 ^ 20) by (apply Z.pow_le_mono_r; lia).
    assert (0 < 2 ^ k) by (apply Z.pow_pos_nonneg; lia).
    nia. }
  rewrite polymodStep_small by exact Hb.
  rewrite Z.shiftl_shiftl by lia. reflexivity.
Qed.

Lemma shifted_u30 (x k : Z) : 0 <= x < 32 -> 0 <= k <= 25 -> u30 (Z.shiftl x k).
Proof.
  intros Hx Hk. unfold u30. rewrite Z.shiftl_mul_pow2 by lia.
  assert (2 ^ k <= 2 ^ 25) by (apply Z.pow_le_mono_r; lia).
  assert (0 < 2 ^ k) by (apply Z.pow_pos_nonneg; lia).
  nia.
Qed.

(** The checksum verifies: after the six groups of [step^6 s xor K] have
    been fed into the state [s], the state is [K]. *)
Lemma checksum_verifies (s K : Z) :
  u30 s -> u30 K ->
  polymod (groups (Z.lxor (Nat.iter 6 Bech32.polymodStep s) K)) s = K.
Proof.
  intros Hs HK.
  set (t := Nat.iter 6 Bech32.polymodStep s).
  assert (Ht : u30 t) by (apply polymodStep_iter_u30, Hs).
  set (c := Z.lxor t K).
  assert (Hc : u30 c) by (apply lxor_u30; assumption).
  pose proof (groups_range c) as Hg.
  unfold groups in *. cbn [map] in *.
  change ((5 - 0) * 5) with 25 in *. change ((5 - 1) * 5) with 20 in *.
  change ((5 - 2) * 5) with 15 in *. change ((5 - 3) * 5) with 10 in *.
  change ((5 - 4) * 5) with 5 in *. change ((5 - 5) * 5) with 0 in *.
  set (c0 := Z.land (Z.shiftr c 25) 31) in *. set (c1 := Z.land (Z.shiftr c 20) 31) in *.
  set (c2 := Z.land (Z.shiftr c 15) 31) in *. set (c3 := Z.land (Z.shiftr c 10) 31) in *.
  set (c4 := Z.land (Z.shiftr c 5) 31) in *. set (c5 := Z.land (Z.shiftr c 0) 31) in *.
  inversion Hg as [|? ? H0 Hg1]; subst. inversion Hg1 as [|? ? H1 Hg2]; subst.
  inversion Hg2 as [|? ? H2 Hg3]; subst. inversion Hg3 as [|? ? H3 Hg4]; subst.
  inversion Hg4 as [|? ? H4 Hg5]; subst. inversion Hg5 as [|? ? H5 _]; subst.
  clear Hg Hg1 Hg2 Hg3 Hg4 Hg5.
  pose proof (groups_recompose c Hc) as R. fold c0 c1 c2 c3 c4 c5 in R.
  clearbody c0 c1 c2 c3 c4 c5.
  pose proof (polymodStep_u30 s Hs) as Hs1.
  pose proof (polymodStep_u30 _ Hs1) as Hs2.
  pose proof (polymodStep_u30 _ Hs2) as Hs3.
  pose proof (polymodStep_u30 _ Hs3) as Hs4.
  pose proof (polymodStep_u30 _ Hs4) as Hs5.
  unfold polymod. cbn [fold_left].
  rewrite <- (Z.shiftl_0_r c0), <- (Z.shiftl_0_r c1), <- (Z.shiftl_0_r c2),
    <- (Z.shiftl_0_r c3), <- (Z.shiftl_0_r c4), <- (Z.shiftl_0_r c5).
  repeat (rewrite polymodStep_lxor
            by (repeat first [ assumption | apply polymodStep_u30 | apply shifted_u30; lia
                             | apply lxor_u30 ]);
          rewrite ?polymodStep_shifted by lia;
          cbn [Z.add Pos.add Pos.succ]).
  change (0 + 5 + 5 + 5 + 5 + 5) with 25. change (0 + 5 + 5 + 5 + 5) with 20.
  change (0 + 5 + 5 + 5) with 15. change (0 + 5 + 5) with 10. change (0 + 5) with 5.
  change (Bech32.polymodStep (Bech32.polymodStep (Bech32.polymodStep
            (Bech32.polymodStep (Bech32.polymodStep (Bech32.polymodStep s)))))) with t.
  rewrite !Z.lxor_assoc in R. rewrite !Z.lxor_assoc. rewrite R.
  unfold c. rewrite <- Z.lxor_assoc, Z.lxor_nilpotent, Z.lxor_0_l. reflexivity.
Qed.

(** ** Text *)


(** Every 5-bit value has its character: lower-case, mapped back to the
    value, and not the separator. *)
Lemma alphabet_char (x : Z) :
  fits 5 x ->
  exists c,
    Bech32.ALPHABET_charAt x = [c] /\
    Bech32.ALPHABET_MAP c = Some x /\
    toLowerChar c = c /\
    Ascii.eqb c "1" = false.
Proof.
  intros Hx. unfold fits in Hx.
  assert (Hn : x = Z.of_nat (Z.to_nat x)) by lia.
  assert (Hlt : (Z.to_nat x < 32)%nat) by lia.
  revert Hn Hlt. generalize (Z.to_nat x). intros n -> Hlt.
  do 32 (destruct n as [|n];
         [eexists; split; [reflexivity|]; split; [reflexivity|]; split; reflexivity|]).
  lia.
Qed.

Lemma chars_cons (x : Z) (rest : list Z) :
  chars (x :: rest) = Bech32.ALPHABET_charAt x ++ chars rest.
Proof. reflexivity. Qed.

Lemma chars_app (xs ys : list Z) : chars (xs ++ ys) = chars xs ++ chars ys.
Proof. unfold chars. apply flat_map_app. Qed.

Lemma chars_length (vs : list Z) :
  Forall (fits 5) vs -> List.length (chars vs) = List.length vs.
Proof.
  intros H. induction H as [|x vs Hx _ IH]; [reflexivity|].
  destruct (alphabet_char x Hx) as (c & Hc & _).
  rewrite chars_cons, Hc. cbn [app List.length]. rewrite IH. reflexivity.
Qed.

Lemma chars_lower (vs : list Z) :
  Forall (fits 5) vs -> toLowerCase (chars vs) = chars vs.
Proof.
  intros H. induction H as [|x vs Hx _ IH]; [reflexivity|].
  destruct (alphabet_char x Hx) as (c & Hc & _ & Hl & _).
  rewrite chars_cons, Hc. cbn [app]. unfold toLowerCase in *. cbn [map].
  rewrite Hl, IH. reflexivity.
Qed.

Lemma chars_no_separator (vs : list Z) (i found : Z) :
  Forall (fits 5) vs -> lastIndexOf_from "1" (chars vs) i found = found.
Proof.
  intros H. revert i. induction H as [|x vs Hx _ IH]; intros i; [reflexivity|].
  destruct (alphabet_char x Hx) as (c & Hc & _ & _ & Hs).
  rewrite chars_cons, Hc. cbn [app lastIndexOf_from]. rewrite Hs. apply IH.
Qed.

Lemma jsstr_eqb_refl (s : jsstr) : jsstr_eqb s s = true.
Proof.
  induction s as [|c s IH]; [reflexivity|].
  cbn [jsstr_eqb]. rewrite Ascii.eqb_refl, IH. reflexivity.
Qed.

Lemma encode_words_spec (ws : list Z) :
  Forall (fits 5) ws ->
  forall chk result,
    Bech32.encode_words ws chk result = Ok (polymod ws chk, result ++ chars ws).
Proof.
  intros H. induction H as [|x ws Hx _ IH]; intros chk result.
  - cbn [Bech32.encode_words polymod fold_left chars flat_map]. rewrite app_nil_r. reflexivity.
  - cbn [Bech32.encode_words]. unfold fits in Hx.
    rewrite Z.shiftr_div_pow2, Z.div_small by lia. cbn [Z.eqb negb].
    rewrite IH, chars_cons, <- app_assoc. reflexivity.
Qed.

Lemma prefixChk_qtc : Bech32.prefixChk qtc = inr qtc_chk.
Proof. vm_compute. reflexivity. Qed.

Lemma qtc_chk_u30 : u30 qtc_chk.
Proof. unfold u30, qtc_chk. lia. Qed.

Lemma append_groups (result : jsstr) (c : Z) :
  fold_left
    (fun res i => res ++ Bech32.ALPHABET_charAt (Z.land (Z.shiftr c ((5 - i) * 5)) 0x1f))
    [0; 1; 2; 3; 4; 5] result
  = result ++ chars (groups c).
Proof.
  unfold chars, groups. cbn [fold_left map flat_map].
  rewrite app_nil_r, <- !app_assoc. reflexivity.
Qed.

Lemma six_steps (chk : Z) :
  fold_left (fun c (_ : Z) => Bech32.polymodStep c) [0; 1; 2; 3; 4; 5] chk
  = Nat.iter 6 Bech32.polymodStep chk.
Proof. unfold Nat.iter. cbn [fold_left nat_rect]. reflexivity. Qed.

Lemma encode_text (K : Z) (data : list Z) :
  Forall (fits 5) data -> (List.length data <= 80)%nat ->
  Bech32.encode K qtc data = Ok (encoded_text K data).
Proof.
  intros Hdata Hlen. unfold Bech32.encode.
  change (List.length qtc) with 3%nat.
  replace (90 <? Z.of_nat 3 + 7 + Z.of_nat (List.length data)) with false
    by (symmetry; apply Z.ltb_ge; lia).
  change (toLowerCase qtc) with qtc. rewrite prefixChk_qtc.
  rewrite encode_words_spec by exact Hdata.
  rewrite six_steps, append_groups. unfold encoded_text.
  rewrite <- !app_assoc. reflexivity.
Qed.

(** The data characters: every value is pushed while more than six
    characters remain. *)
Lemma decode_chars_data (data : list Z) (tail : jsstr) :
  Forall (fits 5) data -> (6 <= List.length tail)%nat ->
  forall chk words,
    Bech32.decode_chars (chars data ++ tail) chk words
    = Bech32.decode_chars tail (polymod data chk) (words ++ data).
Proof.
  intros H Htail. induction H as [|x data Hx _ IH]; intros chk words.
  - cbn [chars flat_map app polymod fold_left]. rewrite app_nil_r. reflexivity.
  - destruct (alphabet_char x Hx) as (c & Hc & Hm & _).
    rewrite chars_cons, Hc. cbn [app Bech32.decode_chars]. rewrite Hm.
    replace (Z.of_nat (List.length (c :: chars data ++ tail)) <=? 6) with false.
    + rewrite IH. cbn [polymod fold_left]. rewrite <- app_assoc. reflexivity.
    + symmetry. apply Z.leb_gt. cbn [List.length]. rewrite length_app. lia.
Qed.

(** The checksum characters: fed into the state, not pushed. *)
Lemma decode_chars_checksum (cs : list Z) :
  Forall (fits 5) cs -> (List.length cs <= 6)%nat ->
  forall chk words,
    Bech32.decode_chars (chars cs) chk words = inr (polymod cs chk, words).
Proof.
  intros H. induction H as [|x cs Hx Hcs IH]; intros Hlen chk words; [reflexivity|].
  destruct (alphabet_char x Hx) as (c & Hc & Hm & _).
  rewrite chars_cons, Hc. cbn [app Bech32.decode_chars]. rewrite Hm.
  replace (Z.of_nat (List.length (c :: chars cs)) <=? 6) with true.
  - rewrite IH by (cbn [List.length] in Hlen; lia). reflexivity.
  - symmetry. apply Z.leb_le. cbn [List.length] in *.
    rewrite chars_length by exact Hcs. lia.
Qed.

Lemma groups_fits (c : Z) : Forall (fits 5) (groups c).
Proof. exact (groups_range c). Qed.

Lemma groups_length (c : Z) : List.length (groups c) = 6%nat.
Proof. reflexivity. Qed.

(** Decoding what [encode] built, with the codec of constant [K']: prefix
    and data come back when the constants agree, the checksum is refused
    when they differ. *)
Lemma decode_encoded_text (K K' : Z) (data : list Z) :
  u30 K -> Forall (fits 5) data -> (List.length data <= 80)%nat ->
  Bech32.decode K' (encoded_text K data)
  = if K =? K' then Ok (Bech32.mkDecoded qtc data)
    else Throw (Error (Bech32.with_text "Invalid checksum for " (encoded_text K data))).
Proof.
  intros HK Hdata Hlen.
  set (s := polymod data qtc_chk).
  assert (Hs : u30 s) by (apply polymod_u30; [exact qtc_chk_u30 | exact Hdata]).
  set (cs := groups (Z.lxor (Nat.iter 6 Bech32.polymodStep s) K)).
  assert (Hcs : Forall (fits 5) cs) by apply groups_fits.
  assert (Hall : Forall (fits 5) (data ++ cs)) by (apply Forall_app; split; assumption).
  assert (Htext : encoded_text K data = qtc ++ ["1"%char] ++ chars (data ++ cs)).
  { unfold encoded_text. fold s. fold cs. rewrite chars_app. reflexivity. }
  assert (Hl : List.length (encoded_text K data) = (4 + List.length data + 6)%nat).
  { rewrite Htext, !length_app, chars_length, length_app by exact Hall. reflexivity. }
  unfold Bech32.decode, Bech32.__decode. rewrite Hl.
  replace (Z.of_nat (4 + List.length data + 6) <? 8) with false
    by (symmetry; apply Z.ltb_ge; lia).
  replace (90 <? Z.of_nat (4 + List.length data + 6)) with false
    by (symmetry; apply Z.ltb_ge; lia).
  assert (Hlow : toLowerCase (encoded_text K data) = encoded_text K data).
  { rewrite Htext. unfold toLowerCase. rewrite !map_app.
    fold (toLowerCase (chars (data ++ cs))). rewrite chars_lower by exact Hall.
    reflexivity. }
  rewrite Hlow, jsstr_eqb_refl. cbn [negb andb].
  assert (Hsplit : lastIndexOf (encoded_text K data) "1" = 3).
  { rewrite Htext. unfold lastIndexOf, qtc. cbn [list_ascii_of_string app lastIndexOf_from].
    cbn [Ascii.eqb Bool.eqb]. cbn [Z.add Pos.add Pos.succ].
    apply chars_no_separator. exact Hall. }
  rewrite Hsplit. cbn [Z.eqb].
  assert (Htake : firstn (Z.to_nat 3) (encoded_text K data) = qtc)
    by (rewrite Htext; reflexivity).
  assert (Hdrop : skipn (Z.to_nat (3 + 1)) (encoded_text K data) = chars (data ++ cs))
    by (rewrite Htext; reflexivity).
  rewrite Htake, Hdrop, prefixChk_qtc.
  rewrite chars_length, length_app by exact Hall.
  rewrite chars_app.
  replace (Z.of_nat (List.length data + List.length cs) <? 6) with false
    by (symmetry; apply Z.ltb_ge; unfold cs; rewrite groups_length; lia).
  rewrite decode_chars_data
    by (try exact Hdata; rewrite chars_length by exact Hcs; unfold cs;
        rewrite groups_length; lia).
  rewrite decode_chars_checksum by (try exact Hcs; unfold cs; rewrite groups_length; lia).
  fold s. unfold cs. rewrite checksum_verifies by assumption.
  rewrite app_nil_l. destruct (K =? K'); reflexivity.
Qed.

Lemma is_byte_fits (program : list Z) : Forall Spec.is_byte program -> Forall (fits 8) program.
Proof.
  intros H. induction H as [|b l Hb _ IH]; constructor; [exact Hb | exact IH].
Qed.

(** The round trip, for either codec of the package. *)
Lemma round_trip_with (K witnessVersion : Z) (program : list Z) :
  u30 K -> 0 <= witnessVersion <= 31 ->
  List.length program = 20%nat -> Forall Spec.is_byte program ->
  exists text,
    AddressCodec.encode_with K witnessVersion program = Ok text /\
    AddressCodec.decode_with K text = Ok (qtc, witnessVersion, program).
Proof.
  intros HK Hv Hlen Hbytes. apply is_byte_fits in Hbytes.
  destruct (toWords_20 program Hlen Hbytes) as (Hl & Hf & _).
  assert (Hdata : Forall (fits 5) (witnessVersion :: Bech32.toWords program)).
  { constructor; [unfold fits; lia | exact Hf]. }
  exists (encoded_text K (witnessVersion :: Bech32.toWords program)). split.
  - unfold AddressCodec.encode_with. apply encode_text; [exact Hdata|].
    cbn [List.length]. lia.
  - unfold AddressCodec.decode_with.
    rewrite decode_encoded_text; [|exact HK|exact Hdata|cbn [List.length]; lia].
    rewrite Z.eqb_refl, bind_Ok. cbn [Bech32.words Bech32.prefix].
    replace ((witnessVersion <? 0) || (31 <? witnessVersion)) with false
      by (symmetry; apply orb_false_iff; split; apply Z.ltb_ge; lia).
    rewrite fromWords_toWords by assumption. rewrite bind_Ok. reflexivity.
Qed.

(** The other side of the checksum constant: a decoder of the bech32m codec
    refuses every address the scripts can produce. *)
Lemma bech32m_decoder_rejects (witnessVersion : Z) (program : list Z) :
  0 <= witnessVersion <= 31 ->
  List.length program = 20%nat -> Forall Spec.is_byte program ->
  exists text,
    AddressCodec.encode witnessVersion program = Ok text /\
    AddressCodec.decode_with Bech32.bech32m_CONST text
    = Throw (Error (Bech32.with_text "Invalid checksum for " text)).
Proof.
  intros Hv Hlen Hbytes. apply is_byte_fits in Hbytes.
  destruct (toWords_20 program Hlen Hbytes) as (Hl & Hf & _).
  assert (Hdata : Forall (fits 5) (witnessVersion :: Bech32.toWords program)).
  { constructor; [unfold fits; lia | exact Hf]. }
  exists (encoded_text Bech32.bech32_CONST (witnessVersion :: Bech32.toWords program)).
  split.
  - unfold AddressCodec.encode, AddressCodec.encode_with. apply encode_text; [exact Hdata|].
    cbn [List.length]. lia.
  - unfold AddressCodec.decode_with.
    rewrite decode_encoded_text;
      [|unfold u30, Bech32.bech32_CONST; lia|exact Hdata|cbn [List.length]; lia].
    change (Bech32.bech32_CONST =? Bech32.bech32m_CONST) with false.
    cbv iota. rewrite bind_Throw. reflexivity.
Qed.

(** C7, at every input. For every witness version from 0 to 31 and every
    20-byte program the scripts return an address, and the decoder of the
    specification refuses it with a checksum error: the scripts compute the
    checksum with the bech32 constant, the specified codec is bech32m.  The
    round trip of the claim holds for no address the scripts produce.  It
    does hold when the address is encoded with the bech32m constant, which is
    what the comments of the scripts announce. *)
Theorem generated_addresses_fail_round_trip (witnessVersion : Z) (program : list Z) :
  0 <= witnessVersion <= 31 ->
  List.length program = 20%nat -> Forall Spec.is_byte program ->
  (exists text,
     AddressCodec.encode witnessVersion program = Ok text /\
     AddressCodec.decode text
     = Throw (Error (Bech32.with_text "Invalid checksum for " text))) /\
  (exists text,
     pqhd.step4c_address program = Ok text /\
     AddressCodec.decode text
     = Throw (Error (Bech32.with_text "Invalid checksum for " text))) /\
  (exists text,
     AddressCodec.encode_with Bech32.bech32m_CONST witnessVersion program = Ok text /\
     AddressCodec.decode text = Ok (qtc, witnessVersion, program)).
Proof.
  intros Hv Hlen Hbytes. split; [|split].
  - exact (bech32m_decoder_rejects witnessVersion program Hv Hlen Hbytes).
  - rewrite pqhd_step4c_is_encode.
    exact (bech32m_decoder_rejects 2 program ltac:(lia) Hlen Hbytes).
  - apply (round_trip_with Bech32.bech32m_CONST); try assumption.
    unfold u30, Bech32.bech32m_CONST. lia.
Qed.

Lemma generated_addresses_fail_round_trip_witness :
  (exists text,
     pqhd.step4c_address (repeat 0 20) = Ok text /\
     AddressCodec.decode text
     = Throw (Error (Bech32.with_text "Invalid checksum for " text))) /\
  (exists text,
     AddressCodec.encode_with Bech32.bech32m_CONST 2 (repeat 0 20) = Ok text /\
     AddressCodec.decode text = Ok (qtc, 2, repeat 0 20)).
Proof.
  apply (generated_addresses_fail_round_trip 2 (repeat 0 20)).
  - lia.
  - reflexivity.
  - cbn [repeat]. repeat (constructor; [unfold Spec.is_byte; lia|]). constructor.
Defined.

(* ===================================================================== *)
(** * Further properties of the code                                      *)
(* ===================================================================== *)

(** ** The shape of the addresses *)

Lemma chars_alphabet (vs : list Z) :
  Forall (fun c => In c Bech32.ALPHABET) (chars vs).
Proof.
  induction vs as [|x vs IH]; [constructor|].
  rewrite chars_cons. apply Forall_app. split; [|exact IH].
  unfold Bech32.ALPHABET_charAt. destruct (x <? 0); [constructor|].
  destruct (nth_error Bech32.ALPHABET (Z.to_nat x)) as [c|] eqn:E; [|constructor].
  constructor; [|constructor]. eapply nth_error_In, E.
Qed.

Lemma encoded_text_shape (K : Z) (data : list Z) :
  Forall (fits 5) data ->
  List.length (encoded_text K data) = (10 + List.length data)%nat /\
  firstn 4 (encoded_text K data) = list_ascii_of_string "qtc1" /\
  skipn 4 (encoded_text K data)
  = chars data ++ chars (groups (Z.lxor (Nat.iter 6 Bech32.polymodStep (polymod data qtc_chk)) K)).
Proof.
  intros Hd. unfold encoded_text. split; [|split; reflexivity].
  rewrite !length_app, !chars_length by (exact Hd || apply groups_fits).
  rewrite groups_length. change (List.length qtc) with 3%nat. cbn [List.length]. lia.
Qed.

Lemma versioned_address_shape (K v : Z) (c : ascii) (x : Buffer) :
  fits 5 v -> Bech32.ALPHABET_charAt v = [c] ->
  well_formed_address 43 (list_ascii_of_string "qtc1" ++ [c])
    (AddressCodec.encode_with K v (firstn 20 (Keccak.SHA3_256 x))).
Proof.
  intros Hv Hc. destruct (program_bytes x) as [Hlen Hbytes].
  destruct (toWords_20 _ Hlen Hbytes) as (Hwl & Hwf & _).
  assert (Hdata : Forall (fits 5) (v :: Bech32.toWords (firstn 20 (Keccak.SHA3_256 x))))
    by (constructor; assumption).
  unfold AddressCodec.encode_with. rewrite encode_text; [|exact Hdata|cbn [List.length]; lia].
  destruct (encoded_text_shape K _ Hdata) as (Hl & Hh & Hs).
  eexists. split; [reflexivity|]. split; [|split].
  - rewrite Hl. cbn [List.length]. rewrite Hwl. reflexivity.
  - unfold encoded_text. rewrite chars_cons, Hc. reflexivity.
  - rewrite Hs. apply Forall_app. split; apply chars_alphabet.
Qed.

Lemma unversioned_address_shape (K : Z) (x : Buffer) :
  well_formed_address 42 (list_ascii_of_string "qtc1")
    (Bech32.encode K qtc (Bech32.toWords (firstn 20 (Keccak.SHA3_256 x)))).
Proof.
  destruct (program_bytes x) as [Hlen Hbytes].
  destruct (toWords_20 _ Hlen Hbytes) as (Hwl & Hwf & _).
  rewrite encode_text; [|exact Hwf|lia].
  destruct (encoded_text_shape K _ Hwf) as (Hl & Hh & Hs).
  eexists. split; [reflexivity|]. split; [|split].
  - rewrite Hl, Hwl. reflexivity.
  - exact Hh.
  - rewrite Hs. apply Forall_app. split; apply chars_alphabet.
Qed.

(** X1. Whatever is hashed, the address step of every script returns, and
    its address has a fixed form: qtc1 followed by 38 characters of the
    bech32 alphabet in qti2.js (42 characters in all), and qtc1p (qtc2.js) or
    qtc1z (the PQ-HD scripts and QTCHDNode.generateAddress of a node that
    has its key pair) followed by 38 such characters, 43 in all.  bech32.encode
    never throws there. *)
Theorem generated_addresses_well_formed (pk master_entropy : Buffer) (this : QTCHDNode) :
  publicKey this = Some pk ->
  well_formed_address 42 (list_ascii_of_string "qtc1")
    (qti2.step4c_address (qti2.step4_addressBytes pk)) /\
  well_formed_address 43 (list_ascii_of_string "qtc1p")
    (qtc2.step4c_address (qtc2.step4_addressBytes pk)) /\
  well_formed_address 43 (list_ascii_of_string "qtc1z")
    (pqhd.step4c_address (pqhd.step4_addressBytes master_entropy)) /\
  well_formed_address 43 (list_ascii_of_string "qtc1z")
    (HDWallet.generateAddress this).
Proof.
  intros Hpk.
  split; [apply unversioned_address_shape|].
  split; [apply (versioned_address_shape 1 1 "p"); [unfold fits; lia|reflexivity]|].
  split; [apply (versioned_address_shape 1 2 "z"); [unfold fits; lia|reflexivity]|].
  rewrite (generateAddress_is_encode this pk Hpk).
  apply (versioned_address_shape 1 2 "z"); [unfold fits; lia|reflexivity].
Qed.

Lemma generated_addresses_well_formed_witness :
  publicKey node_with_key = Some [1; 2; 3] /\
  well_formed_address 43 (list_ascii_of_string "qtc1z") (HDWallet.generateAddress node_with_key).
Proof.
  split; [reflexivity|].
  exact (proj2 (proj2 (proj2 (generated_addresses_well_formed [1; 2; 3] [] node_with_key eq_refl)))).
Defined.

(** ** Hexadecimal seeds *)

Lemma small_cases (P : Z -> Prop) (n : nat) :
  (forall k, (k < n)%nat -> P (Z.of_nat k)) -> forall x, 0 <= x < Z.of_nat n -> P x.
Proof.
  intros H x Hx. rewrite <- (Z2Nat.id x) by lia. apply H. lia.
Qed.

Lemma nyb_hex_digit (n : Z) : 0 <= n < 16 -> Cli.nyb (hex_digit n) = n.
Proof.
  intros Hn. pattern n. apply (small_cases _ 16); [|exact Hn].
  intros k Hk. do 16 (destruct k as [|k]; [reflexivity|]). lia.
Qed.

Lemma hex_byte (b : Z) :
  fits 8 b ->
  Z.lor (Z.shiftl (Z.shiftr b 4) 4) (Z.land b 15) = b.
Proof.
  intros Hb. unfold fits in Hb.
  change 15 with (Z.ones 4). rewrite Z.land_ones by lia.
  rewrite Z.shiftl_mul_pow2, Z.shiftr_div_pow2 by lia.
  rewrite (lor_disjoint _ _ 4); [|lia|apply Z.divide_factor_r|apply Z.mod_pos_bound; lia].
  change (2 ^ 4) with 16. pose proof (Z.div_mod b 16). lia.
Qed.

Lemma toString_hex_length (buf : Buffer) :
  List.length (toString_hex buf) = (2 * List.length buf)%nat.
Proof.
  unfold toString_hex. induction buf as [|b buf IH]; [reflexivity|].
  cbn [flat_map app List.length]. rewrite IH. lia.
Qed.

Lemma hex_pairs_toString_hex (buf : Buffer) :
  Forall (fits 8) buf -> Cli.hex_pairs (toString_hex buf) = inr buf.
Proof.
  intros H. unfold toString_hex. induction H as [|b buf Hb _ IH]; [reflexivity|].
  cbn [flat_map app Cli.hex_pairs]. unfold fits in Hb.
  assert (Hhi : 0 <= Z.shiftr b 4 < 16).
  { rewrite Z.shiftr_div_pow2 by lia. change (2 ^ 4) with 16.
    split; [apply Z.div_pos; lia|apply Z.div_lt_upper_bound; lia]. }
  assert (Hlo : 0 <= Z.land b 15 < 16).
  { change 15 with (Z.ones 4). rewrite Z.land_ones by lia. apply Z.mod_pos_bound. lia. }
  rewrite !nyb_hex_digit by assumption.
  replace ((Z.shiftr b 4 <? 0) || (Z.land b 15 <? 0)) with false
    by (symmetry; apply orb_false_iff; split; apply Z.ltb_ge; lia).
  rewrite IH, hex_byte by exact Hb. reflexivity.
Qed.

Lemma odd_double (n : nat) : Nat.odd (2 * n) = false.
Proof. rewrite Nat.odd_mul. reflexivity. Qed.

Lemma hex2bin_of_hex (buf : Buffer) :
  Forall (fits 8) buf -> Cli.hex2bin (toString_hex buf) = inr buf.
Proof.
  intros H. unfold Cli.hex2bin. rewrite toString_hex_length, odd_double.
  apply hex_pairs_toString_hex, H.
Qed.

(** X2. The hexadecimal text Node makes of a buffer of bytes is decoded by
    hex2bin of oqs_wallet_cli to the same bytes: the seed a script passes
    on the command line is the seed the tool works with. *)
Theorem hex2bin_toString_hex (buf : Buffer) :
  Forall (fits 8) buf -> Cli.hex2bin (toString_hex buf) = inr buf.
Proof.
  intros H. unfold Cli.hex2bin. rewrite toString_hex_length, odd_double.
  apply hex_pairs_toString_hex, H.
Qed.

Lemma hex2bin_toString_hex_witness :
  Cli.hex2bin (toString_hex [0; 171; 255]) = inr [0; 171; 255].
Proof.
  apply (hex2bin_toString_hex [0; 171; 255]).
  repeat (constructor; [unfold fits; lia|]). constructor.
Defined.

Lemma nyb_range (c : ascii) : -1 <= Cli.nyb c < 16.
Proof.
  unfold Cli.nyb. 
  destruct ((48 <=? charCode c) && (charCode c <=? 57)) eqn:E1.
  { apply andb_true_iff in E1 as [A B]. lia. }
  destruct ((97 <=? charCode c) && (charCode c <=? 102)) eqn:E2.
  { apply andb_true_iff in E2 as [A B]. lia. }
  destruct ((65 <=? charCode c) && (charCode c <=? 70)) eqn:E3.
  { apply andb_true_iff in E3 as [A B]. lia. }
  lia.
Qed.

Lemma nibbles_byte (hi lo : Z) :
  0 <= hi < 16 -> 0 <= lo < 16 -> fits 8 (Z.lor (Z.shiftl hi 4) lo).
Proof.
  intros Hh Hl. rewrite Z.shiftl_mul_pow2 by lia.
  rewrite (lor_disjoint _ _ 4); [|lia|apply Z.divide_factor_r|lia].
  unfold fits. lia.
Qed.

Lemma hex_pairs_spec (n : nat) :
  forall hex, List.length hex = (2 * n)%nat ->
  match Cli.hex_pairs hex with
  | inr out => forallb is_hex_char hex = true /\ List.length out = n /\ Forall (fits 8) out
  | inl e => forallb is_hex_char hex = false /\ e = "invalid hex"%string
  end.
Proof.
  induction n as [|n IH]; intros hex Hlen.
  - destruct hex; [|cbn in Hlen; lia]. cbn. split; [reflexivity|]. split; [reflexivity|constructor].
  - destruct hex as [|h [|l rest]]; [cbn in Hlen; lia|cbn in Hlen; lia|].
    cbn [List.length] in Hlen. specialize (IH rest ltac:(lia)).
    cbn [Cli.hex_pairs forallb]. unfold is_hex_char at 1 2 4 5.
    rewrite !(Z.leb_antisym _ 0).
    pose proof (nyb_range h) as Hh. pose proof (nyb_range l) as Hl.
    destruct (Cli.nyb h <? 0) eqn:Eh; [split; reflexivity|].
    destruct (Cli.nyb l <? 0) eqn:El; [split; reflexivity|].
    apply Z.ltb_ge in Eh, El. cbn [orb andb negb].
    destruct (Cli.hex_pairs rest) as [e|out].
    + exact IH.
    + destruct IH as (A & B & C). split; [exact A|]. split; [cbn [List.length]; lia|].
      constructor; [apply nibbles_byte; lia|exact C].
Qed.

Lemma even_length_half (hex : jsstr) :
  Nat.odd (List.length hex) = false -> exists n, List.length hex = (2 * n)%nat.
Proof.
  intros H. exists (Nat.div2 (List.length hex)).
  rewrite (Nat.div2_odd (List.length hex)) at 1. rewrite H. cbn [Nat.b2n]. lia.
Qed.

Lemma hex2bin_cases (hex : jsstr) :
  match Cli.hex2bin hex with
  | inr out =>
      Nat.odd (List.length hex) = false /\ forallb is_hex_char hex = true /\
      List.length hex = (2 * List.length out)%nat /\ Forall (fits 8) out
  | inl e =>
      if Nat.odd (List.length hex) then e = "seed_hex length must be even"%string
      else forallb is_hex_char hex = false /\ e = "invalid hex"%string
  end.
Proof.
  unfold Cli.hex2bin. destruct (Nat.odd (List.length hex)) eqn:E; [reflexivity|].
  destruct (even_length_half hex E) as [n Hn].
  pose proof (hex_pairs_spec n hex Hn) as H.
  destruct (Cli.hex_pairs hex) as [e|out]; [exact H|].
  destruct H as (A & B & C). split; [reflexivity|]. split; [exact A|]. split; [lia|exact C].
Qed.

(** X3. hex2bin returns bytes exactly when the text has an even length and
    consists of hexadecimal digits: it then returns half as many values as
    there are characters, each a byte.  A text of odd length is refused with
    the message seed_hex length must be even, before any character is read;
    a text of even length with another character is refused with invalid hex. *)
Theorem hex2bin_spec (hex : jsstr) :
  match Cli.hex2bin hex with
  | inr out =>
      Nat.odd (List.length hex) = false /\ forallb is_hex_char hex = true /\
      List.length hex = (2 * List.length out)%nat /\ Forall (fits 8) out
  | inl e =>
      if Nat.odd (List.length hex) then e = "seed_hex length must be even"%string
      else forallb is_hex_char hex = false /\ e = "invalid hex"%string
  end.
Proof.
  unfold Cli.hex2bin. destruct (Nat.odd (List.length hex)) eqn:E; [reflexivity|].
  destruct (even_length_half hex E) as [n Hn].
  pose proof (hex_pairs_spec n hex Hn) as H.
  destruct (Cli.hex_pairs hex) as [e|out]; [exact H|].
  destruct H as (A & B & C). split; [reflexivity|]. split; [exact A|]. split; [lia|exact C].
Qed.

Lemma nyb_toUpperChar (c : ascii) : Cli.nyb (toUpperChar c) = Cli.nyb c.
Proof.
  destruct c as [[] [] [] [] [] [] [] []]; vm_compute; reflexivity.
Qed.

Lemma hex_pairs_toUpperCase (n : nat) :
  forall hex, (List.length hex <= n)%nat ->
  Cli.hex_pairs (toUpperCase hex) = Cli.hex_pairs hex.
Proof.
  induction n as [|n IH]; intros hex Hlen.
  - destruct hex; [reflexivity|cbn in Hlen; lia].
  - destruct hex as [|h [|l rest]]; try reflexivity.
    cbn [List.length] in Hlen. unfold toUpperCase in *. cbn [map Cli.hex_pairs].
    rewrite !nyb_toUpperChar, IH by lia. reflexivity.
Qed.

(** X4. hex2bin reads upper-case and lower-case digits alike: putting a
    text in upper case changes neither the bytes nor the error. *)
Theorem hex2bin_case_insensitive (hex : jsstr) :
  Cli.hex2bin (toUpperCase hex) = Cli.hex2bin hex.
Proof.
  unfold Cli.hex2bin. unfold toUpperCase at 1. rewrite length_map.
  rewrite (hex_pairs_toUpperCase (List.length hex)) by lia. reflexivity.
Qed.

(** ** Base64 *)

Lemma b64_char_index (v : Z) :
  0 <= v < 64 -> indexOf_from (b64_char v) b64_table 0 = Some v.
Proof.
  intros Hv. pattern v. apply (small_cases _ 64); [|exact Hv].
  intros k Hk. do 64 (destruct k as [|k]; [reflexivity|]). lia.
Qed.

Lemma b64_char_table (v : Z) : 0 <= v < 64 -> In (b64_char v) b64_table.
Proof.
  intros Hv. unfold b64_char. apply nth_In.
  change (List.length b64_table) with 64%nat. lia.
Qed.

Lemma sextet_range (v : Z) : 0 <= Z.land v 63 < 64.
Proof.
  change 63 with (Z.ones 6). rewrite Z.land_ones by lia.
  apply Z.mod_pos_bound. lia.
Qed.

Lemma pack3 (d0 d1 d2 : Z) :
  fits 8 d0 -> fits 8 d1 -> fits 8 d2 ->
  Z.lor (Z.lor (Z.shiftl d0 16) (Z.shiftl d1 8)) d2 = d0 * 65536 + d1 * 256 + d2.
Proof.
  unfold fits. intros H0 H1 H2. rewrite !Z.shiftl_mul_pow2 by lia.
  rewrite (lor_disjoint (d0 * 2 ^ 16) (d1 * 2 ^ 8) 16);
    [|lia|apply Z.divide_factor_r|lia].
  rewrite (lor_disjoint _ d2 8); [lia|lia| |lia].
  apply Z.divide_add_r; [exists (d0 * 2 ^ 8); lia|apply Z.divide_factor_r].
Qed.

Lemma unpack4 (v : Z) :
  0 <= v < 2 ^ 24 ->
  Z.lor (Z.lor (Z.lor (Z.shiftl (Z.land (Z.shiftr v 18) 63) 18)
                      (Z.shiftl (Z.land (Z.shiftr v 12) 63) 12))
               (Z.shiftl (Z.land (Z.shiftr v 6) 63) 6))
        (Z.land v 63) = v.
Proof.
  intros Hv. apply Z.bits_inj'. intros n Hn.
  rewrite !Z.lor_spec, !Z.shiftl_spec by lia.
  change 63 with (Z.ones 6).
  destruct (Z.ltb_spec n 6).
  { rewrite !(Z.testbit_neg_r _ (n - _)) by lia.
    rewrite Z.land_spec, Z.ones_spec_low by lia. cbn [orb]. apply andb_true_r. }
  destruct (Z.ltb_spec n 12).
  { rewrite !(Z.testbit_neg_r _ (n - 12)), !(Z.testbit_neg_r _ (n - 18)) by lia.
    rewrite !Z.land_spec, Z.shiftr_spec by lia.
    rewrite Z.ones_spec_low, Z.ones_spec_high by lia.
    replace (n - 6 + 6) with n by lia. cbn [orb]. rewrite andb_true_r, andb_false_r, orb_false_r.
    reflexivity. }
  destruct (Z.ltb_spec n 18).
  { rewrite !(Z.testbit_neg_r _ (n - 18)) by lia.
    rewrite !Z.land_spec, !Z.shiftr_spec by lia.
    rewrite (Z.ones_spec_low 6 (n - 12)), !Z.ones_spec_high by lia.
    replace (n - 12 + 12) with n by lia. cbn [orb].
    rewrite andb_true_r, !andb_false_r, !orb_false_r. reflexivity. }
  destruct (Z.ltb_spec n 24).
  { rewrite !Z.land_spec, !Z.shiftr_spec by lia.
    rewrite (Z.ones_spec_low 6 (n - 18)), !Z.ones_spec_high by lia.
    replace (n - 18 + 18) with n by lia.
    rewrite andb_true_r, !andb_false_r, !orb_false_r. reflexivity. }
  rewrite !Z.land_spec, !Z.shiftr_spec by lia.
  rewrite !Z.ones_spec_high by lia.
  rewrite !andb_false_r. cbn [orb]. symmetry. apply (testbit_high 24); lia.
Qed.

Lemma bytes_of_pack (d0 d1 d2 : Z) :
  fits 8 d0 -> fits 8 d1 -> fits 8 d2 ->
  Z.land (Z.shiftr (d0 * 65536 + d1 * 256 + d2) 16) 255 = d0 /\
  Z.land (Z.shiftr (d0 * 65536 + d1 * 256 + d2) 8) 255 = d1 /\
  Z.land (d0 * 65536 + d1 * 256 + d2) 255 = d2.
Proof.
  unfold fits. intros H0 H1 H2. change 255 with (Z.ones 8).
  rewrite !Z.land_ones, !Z.shiftr_div_pow2 by lia.
  change (2 ^ 16) with 65536. change (2 ^ 8) with 256.
  repeat split; Z.div_mod_to_equations; lia.
Qed.

Lemma pack_bound (d0 d1 d2 : Z) :
  fits 8 d0 -> fits 8 d1 -> fits 8 d2 -> 0 <= d0 * 65536 + d1 * 256 + d2 < 2 ^ 24.
Proof. unfold fits. lia. Qed.

Lemma b64_sextets_cons (v : Z) (rest : jsstr) :
  0 <= v < 64 -> b64_sextets (b64_char v :: rest) = v :: b64_sextets rest.
Proof. intros Hv. cbn [b64_sextets]. rewrite b64_char_index by exact Hv. reflexivity. Qed.

Lemma b64_sextets_pad (rest : jsstr) : b64_sextets ("="%char :: rest) = [].
Proof. reflexivity. Qed.

Lemma base64_round_trip_aux (n : nat) :
  forall data, (List.length data <= n)%nat -> Forall (fits 8) data ->
  b64_bytes (b64_sextets (b64_encode data)) = data.
Proof.
  induction n as [|n IH]; intros data Hlen Hd.
  { destruct data; [reflexivity|cbn in Hlen; lia]. }
  destruct data as [|d0 [|d1 [|d2 rest]]]; [reflexivity| | |].
  - (* one byte *)
    apply Forall_cons in Hd as [H0 _].
    cbn [b64_encode].
    assert (Z0 : fits 8 0) by (unfold fits; lia).
    pose proof (pack3 d0 0 0 H0 Z0 Z0) as Hp. cbn [Z.shiftl] in Hp. rewrite !Z.lor_0_r in Hp.
    rewrite !b64_sextets_cons, b64_sextets_pad by apply sextet_range.
    cbn [b64_bytes].
    pose proof (unpack4 (Z.shiftl d0 16)) as Hu.
    rewrite Hp in Hu |- *. specialize (Hu ltac:(replace (d0 * 65536 + 0 * 256 + 0) with (d0 * 65536 + 0 * 256 + 0) by lia; apply pack_bound; assumption)).
    replace (Z.land (Z.shiftr (d0 * 65536 + 0 * 256 + 0) 6) 63) with 0 in Hu.
    2:{ change 63 with (Z.ones 6). rewrite Z.land_ones, Z.shiftr_div_pow2 by lia.
        unfold fits in H0. change (2 ^ 6) with 64. Z.div_mod_to_equations; lia. }
    replace (Z.land (d0 * 65536 + 0 * 256 + 0) 63) with 0 in Hu.
    2:{ change 63 with (Z.ones 6). rewrite Z.land_ones by lia.
        unfold fits in H0. change (2 ^ 6) with 64. Z.div_mod_to_equations; lia. }
    cbn [Z.shiftl] in Hu. rewrite !Z.lor_0_r in Hu. rewrite Hu.
    destruct (bytes_of_pack d0 0 0 H0 Z0 Z0) as (A & _). rewrite A. reflexivity.
  - (* two bytes *)
    apply Forall_cons in Hd as [H0 Hd]. apply Forall_cons in Hd as [H1 _].
    cbn [b64_encode].
    assert (Z0 : fits 8 0) by (unfold fits; lia).
    pose proof (pack3 d0 d1 0 H0 H1 Z0) as Hp. rewrite Z.lor_0_r in Hp.
    rewrite !b64_sextets_cons, b64_sextets_pad by apply sextet_range.
    cbn [b64_bytes].
    pose proof (unpack4 (Z.lor (Z.shiftl d0 16) (Z.shiftl d1 8))) as Hu.
    rewrite Hp in Hu |- *. specialize (Hu ltac:(apply pack_bound; assumption)).
    replace (Z.land (d0 * 65536 + d1 * 256 + 0) 63) with 0 in Hu.
    2:{ change 63 with (Z.ones 6). rewrite Z.land_ones by lia.
        unfold fits in H0, H1. change (2 ^ 6) with 64. Z.div_mod_to_equations; lia. }
    rewrite Z.lor_0_r in Hu. rewrite Hu.
    destruct (bytes_of_pack d0 d1 0 H0 H1 Z0) as (A & B & _). 
    rewrite A, B. reflexivity.
  - (* three bytes and the rest *)
    apply Forall_cons in Hd as [H0 Hd]. apply Forall_cons in Hd as [H1 Hd].
    apply Forall_cons in Hd as [H2 Hd].
    cbn [List.length] in Hlen.
    cbn [b64_encode app]. rewrite pack3 by assumption.
    rewrite !b64_sextets_cons
      by apply sextet_range.
    cbn [b64_bytes]. rewrite unpack4 by (apply pack_bound; assumption).
    destruct (bytes_of_pack d0 d1 d2 H0 H1 H2) as (A & B & C).
    rewrite A, B, C, IH by (lia || exact Hd). reflexivity.
Qed.

Lemma base64_round_trip (data : list Z) :
  Forall (fits 8) data -> Buffer_from_base64 (b64_encode data) = data.
Proof.
  intros H. apply (base64_round_trip_aux (List.length data)); [lia|exact H].
Qed.

(** X5. What b64_encode of oqs_wallet_cli writes for a sequence of bytes,
    Buffer.from(text, "base64") reads back as the same bytes: the keys the
    tool prints are the keys the scripts get.  The same holds for the base64
    members of the wallet files, which Node writes in the same alphabet. *)
Theorem Buffer_from_base64_b64_encode (data : list Z) :
  Forall (fits 8) data ->
  Buffer_from_base64 (b64_encode data) = data /\
  Buffer_from_base64 (toString_base64 data) = data.
Proof.
  intros H. unfold toString_base64, Buffer_from_base64.
  split; apply (base64_round_trip_aux (List.length data)); (lia || exact H).
Qed.

Lemma Buffer_from_base64_b64_encode_witness :
  Buffer_from_base64 (b64_encode [250; 31; 68; 105]) = [250; 31; 68; 105].
Proof.
  refine (proj1 (Buffer_from_base64_b64_encode [250; 31; 68; 105] _)).
  repeat (constructor; [unfold fits; lia|]). constructor.
Defined.

Lemma b64_char_not_padding (v : Z) : 0 <= v < 64 -> is_padding (b64_char v) = false.
Proof.
  intros Hv. pattern v. apply (small_cases _ 64); [|exact Hv].
  intros k Hk. do 64 (destruct k as [|k]; [reflexivity|]). lia.
Qed.

Lemma b64_char_ok (v : Z) : is_b64_char (b64_char (Z.land v 63)).
Proof. left. apply b64_char_table, sextet_range. Qed.

Lemma b64_char_keep (v : Z) (rest : jsstr) :
  List.filter is_padding (b64_char (Z.land v 63) :: rest) = List.filter is_padding rest.
Proof.
  cbn [List.filter]. rewrite b64_char_not_padding by apply sextet_range.
  reflexivity.
Qed.

Lemma b64_shape_aux (n : nat) :
  forall data, (List.length data <= n)%nat ->
  List.length (b64_encode data) = (4 * ((List.length data + 2) / 3))%nat /\
  Forall is_b64_char (b64_encode data) /\
  List.length (List.filter is_padding (b64_encode data)) = ((3 - List.length data mod 3) mod 3)%nat.
Proof.
  induction n as [|n IH]; intros data Hlen.
  { destruct data; [|cbn in Hlen; lia]. split; [reflexivity|]. split; [constructor|reflexivity]. }
  destruct data as [|d0 [|d1 [|d2 rest]]].
  - split; [reflexivity|]. split; [constructor|reflexivity].
  - cbn [b64_encode]. split; [reflexivity|]. split.
    + repeat (constructor; [first [apply b64_char_ok | right; reflexivity]|]). constructor.
    + rewrite !b64_char_keep. reflexivity.
  - cbn [b64_encode]. split; [reflexivity|]. split.
    + repeat (constructor; [first [apply b64_char_ok | right; reflexivity]|]). constructor.
    + rewrite !b64_char_keep. reflexivity.
  - cbn [List.length] in Hlen. destruct (IH rest ltac:(lia)) as (A & B & C).
    cbn [b64_encode app]. split; [|split].
    + cbn [List.length]. rewrite A.
      replace (S (S (S (List.length rest))) + 2)%nat with (List.length rest + 2 + 1 * 3)%nat by lia.
      rewrite Nat.div_add by lia. lia.
    + repeat (constructor; [apply b64_char_ok|]). exact B.
    + rewrite !b64_char_keep. rewrite C. cbn [List.length].
      replace (S (S (S (List.length rest)))) with (List.length rest + 1 * 3)%nat by lia.
      rewrite Nat.Div0.mod_add. reflexivity.
Qed.

Lemma b64_shape (data : list Z) :
  List.length (b64_encode data) = (4 * ((List.length data + 2) / 3))%nat /\
  Forall is_b64_char (b64_encode data) /\
  List.length (List.filter is_padding (b64_encode data)) = ((3 - List.length data mod 3) mod 3)%nat.
Proof. apply (b64_shape_aux (List.length data)). lia. Qed.

(** X6. b64_encode writes four characters for every three bytes begun:
    the length is 4 * ((len + 2) / 3), the capacity it reserves; every
    character is of the base64 table or the padding sign; and the padding
    signs number (3 - len mod 3) mod 3. *)
Theorem b64_encode_shape (data : list Z) :
  List.length (b64_encode data) = (4 * ((List.length data + 2) / 3))%nat /\
  Forall is_b64_char (b64_encode data) /\
  List.length (List.filter is_padding (b64_encode data))
    = ((3 - List.length data mod 3) mod 3)%nat.
Proof. apply (b64_shape_aux (List.length data)). lia. Qed.

(** ** The text oqs_wallet_cli prints *)

Lemma json_escape_b64_char (c : ascii) : is_b64_char c -> JsonEmit.json_escape_char c = [c].
Proof.
  intros [H | ->]; [|reflexivity].
  unfold b64_table in H. cbn [list_ascii_of_string In] in H.
  repeat (destruct H as [<- | H]; [reflexivity|]). destruct H.
Qed.

Lemma json_escape_plain (s : jsstr) : Forall is_b64_char s -> JsonEmit.json_escape s = s.
Proof.
  intros H. unfold JsonEmit.json_escape. induction H as [|c s Hc _ IH]; [reflexivity|].
  cbn [flat_map]. rewrite json_escape_b64_char, IH by exact Hc. reflexivity.
Qed.

Lemma json_escape_b64_encode (data : list Z) :
  JsonEmit.json_escape (b64_encode data) = b64_encode data.
Proof. apply json_escape_plain, b64_shape. Qed.

Lemma expand_length (seed : list Z) (domain : jsstr) :
  List.length (Cli.shake256_expand_seed_48 seed domain) = 48%nat.
Proof. apply SHAKE256_length. Qed.

Lemma RngScope_ok (L : LibOQS) (seed : list Z) (domain : jsstr) :
  Cli.RngScope L seed domain
  = inr (OQS_randombytes_nist_kat_init_256bit L (Cli.shake256_expand_seed_48 seed domain)).
Proof.
  unfold Cli.RngScope, Cli.init_nist_kat_drbg_48. rewrite expand_length. reflexivity.
Qed.

Lemma main_gen_kyber (L : LibOQS) (seed_hex : jsstr) :
  Cli.main L [gen_kyber_from_seed; seed_hex]
  = match Cli.cmd_gen_kyber_from_seed L seed_hex with
    | inr r => r
    | inl _ => Cli.mkProcessResult 99 []
    end.
Proof. reflexivity. Qed.

Lemma main_gen_dilithium (L : LibOQS) (seed_hex : jsstr) :
  Cli.main L [gen_dilithium_from_seed; seed_hex]
  = match Cli.cmd_gen_dilithium_from_seed L seed_hex with
    | inr r => r
    | inl _ => Cli.mkProcessResult 99 []
    end.
Proof. reflexivity. Qed.

Lemma main_kem_self (L : LibOQS) (seed_hex : jsstr) :
  Cli.main L [kem_self_from_seed; seed_hex]
  = match Cli.cmd_kem_self_from_seed L seed_hex with
    | inr r => r
    | inl _ => Cli.mkProcessResult 99 []
    end.
Proof. reflexivity. Qed.

(** A command's result, once the seed has been decoded. *)
Lemma cmd_gen_dilithium_eq (L : LibOQS) (seed_hex : jsstr) (seed : list Z) :
  Cli.hex2bin seed_hex = inr seed ->
  Cli.cmd_gen_dilithium_from_seed L seed_hex
  = inr (if negb (sig_new_any L) then Cli.mkProcessResult 2 []
         else match OQS_SIG_keypair L (drbg_of L seed "dilithium_keygen") with
              | (None, _) => Cli.mkProcessResult 3 []
              | (Some (pk, sk), _) =>
                  Cli.mkProcessResult 0
                    [Cli.json_pair "dilithium_public_b64" (b64_encode pk);
                     Cli.json_pair "dilithium_private_b64" (b64_encode sk)]
              end).
Proof.
  intros H. unfold Cli.cmd_gen_dilithium_from_seed. rewrite H, RngScope_ok.
  unfold drbg_of. destruct (negb (sig_new_any L)); [reflexivity|].
  destruct (OQS_SIG_keypair L _) as [[[pk sk]|] d]; reflexivity.
Qed.

Lemma cmd_gen_kyber_eq (L : LibOQS) (seed_hex : jsstr) (seed : list Z) :
  Cli.hex2bin seed_hex = inr seed ->
  Cli.cmd_gen_kyber_from_seed L seed_hex
  = inr (if negb (kem_new_any L) then Cli.mkProcessResult 2 []
         else match OQS_KEM_keypair L (drbg_of L seed "kyber_keygen") with
              | (None, _) => Cli.mkProcessResult 3 []
              | (Some (pk, sk), _) =>
                  Cli.mkProcessResult 0
                    [Cli.json_pair "kyber_public_b64" (b64_encode pk);
                     Cli.json_pair "kyber_private_b64" (b64_encode sk)]
              end).
Proof.
  intros H. unfold Cli.cmd_gen_kyber_from_seed. rewrite H, RngScope_ok.
  unfold drbg_of. destruct (negb (kem_new_any L)); [reflexivity|].
  destruct (OQS_KEM_keypair L _) as [[[pk sk]|] d]; reflexivity.
Qed.

Lemma cmd_kem_self_eq (L : LibOQS) (seed_hex : jsstr) (seed : list Z) :
  Cli.hex2bin seed_hex = inr seed ->
  Cli.cmd_kem_self_from_seed L seed_hex
  = inr (if negb (kem_new_any L) then Cli.mkProcessResult 2 []
         else match OQS_KEM_keypair L (drbg_of L seed "kyber_kem_self") with
              | (None, _) => Cli.mkProcessResult 3 []
              | (Some (pk, sk), scope) =>
                  match OQS_KEM_encaps L pk scope with
                  | (None, _) => Cli.mkProcessResult 4 []
                  | (Some (ct, ss), _) =>
                      Cli.mkProcessResult 0
                        [Cli.json_pair "kyber_public_b64" (b64_encode pk);
                         Cli.json_pair "kyber_private_b64" (b64_encode sk);
                         Cli.json_pair "shared_b64" (b64_encode ss)]
                  end
              end).
Proof.
  intros H. unfold Cli.cmd_kem_self_from_seed. rewrite H, RngScope_ok.
  unfold drbg_of. destruct (negb (kem_new_any L)); [reflexivity|].
  destruct (OQS_KEM_keypair L _) as [[[pk sk]|] d]; [|reflexivity].
  destruct (OQS_KEM_encaps L pk d) as [[[ct ss]|] d2]; reflexivity.
Qed.

Lemma cmd_bad_hex (L : LibOQS) (seed_hex : jsstr) (e : string) :
  Cli.hex2bin seed_hex = inl e ->
  Cli.cmd_gen_kyber_from_seed L seed_hex = inl e /\
  Cli.cmd_gen_dilithium_from_seed L seed_hex = inl e /\
  Cli.cmd_kem_self_from_seed L seed_hex = inl e.
Proof.
  intros H. unfold Cli.cmd_gen_kyber_from_seed, Cli.cmd_gen_dilithium_from_seed,
    Cli.cmd_kem_self_from_seed. rewrite H. repeat split.
Qed.

Lemma main_two_args (L : LibOQS) (cmd seed_hex : jsstr) :
  Cli.main L [cmd; seed_hex]
  = match (if jsstr_eqb cmd gen_kyber_from_seed then Cli.cmd_gen_kyber_from_seed L seed_hex
           else if jsstr_eqb cmd gen_dilithium_from_seed
                then Cli.cmd_gen_dilithium_from_seed L seed_hex
                else if jsstr_eqb cmd kem_self_from_seed
                     then Cli.cmd_kem_self_from_seed L seed_hex
                     else inr (Cli.mkProcessResult 1 [])) with
    | inr r => r
    | inl _ => Cli.mkProcessResult 99 []
    end.
Proof. reflexivity. Qed.

Ltac cmd_cases L seed_hex :=
  let e := fresh "e" in
  let seed := fresh "seed" in
  let E := fresh "E" in
  destruct (Cli.hex2bin seed_hex) as [e|seed] eqn:E;
  [ let A := fresh in let B := fresh in let C := fresh in
    destruct (cmd_bad_hex L seed_hex e E) as (A & B & C); rewrite ?A, ?B, ?C
  | rewrite ?(cmd_gen_kyber_eq L seed_hex seed E), ?(cmd_gen_dilithium_eq L seed_hex seed E),
      ?(cmd_kem_self_eq L seed_hex seed E) ].

Lemma json_pair_b64 (k : string) (data : list Z) :
  JsonEmit.json_escape (list_ascii_of_string k) = list_ascii_of_string k ->
  JsonEmit.json_pair (list_ascii_of_string k) (b64_encode data) true
  = quoted (list_ascii_of_string k) ++ list_ascii_of_string ": " ++ quoted (b64_encode data).
Proof.
  intros Hk. unfold JsonEmit.json_pair, quoted. rewrite Hk, json_escape_b64_encode.
  rewrite <- !app_assoc. reflexivity.
Qed.

Lemma stdout_text_2 (k1 k2 : string) (d1 d2 : list Z) :
  JsonEmit.json_escape (list_ascii_of_string k1) = list_ascii_of_string k1 ->
  JsonEmit.json_escape (list_ascii_of_string k2) = list_ascii_of_string k2 ->
  JsonEmit.stdout_text
    (Cli.mkProcessResult 0 [Cli.json_pair k1 (b64_encode d1); Cli.json_pair k2 (b64_encode d2)])
  = list_ascii_of_string "{"
    ++ members_text [(k1, b64_encode d1); (k2, b64_encode d2)]
    ++ list_ascii_of_string "}" ++ [ascii_of_N 10].
Proof.
  intros H1 H2. unfold JsonEmit.stdout_text, JsonEmit.json_obj, Cli.json_pair.
  cbn [Cli.status Cli.stdout Z.eqb map fst snd JsonEmit.json_obj_loop Nat.ltb Nat.leb].
  rewrite !json_pair_b64 by assumption. cbn [members_text].
  rewrite <- !app_assoc. reflexivity.
Qed.

Lemma stdout_text_3 (k1 k2 k3 : string) (d1 d2 d3 : list Z) :
  JsonEmit.json_escape (list_ascii_of_string k1) = list_ascii_of_string k1 ->
  JsonEmit.json_escape (list_ascii_of_string k2) = list_ascii_of_string k2 ->
  JsonEmit.json_escape (list_ascii_of_string k3) = list_ascii_of_string k3 ->
  JsonEmit.stdout_text
    (Cli.mkProcessResult 0 [Cli.json_pair k1 (b64_encode d1); Cli.json_pair k2 (b64_encode d2);
                            Cli.json_pair k3 (b64_encode d3)])
  = list_ascii_of_string "{"
    ++ members_text [(k1, b64_encode d1); (k2, b64_encode d2); (k3, b64_encode d3)]
    ++ list_ascii_of_string "}" ++ [ascii_of_N 10].
Proof.
  intros H1 H2 H3. unfold JsonEmit.stdout_text, JsonEmit.json_obj, Cli.json_pair.
  cbn [Cli.status Cli.stdout Z.eqb map fst snd JsonEmit.json_obj_loop Nat.ltb Nat.leb].
  rewrite !json_pair_b64 by assumption. cbn [members_text].
  rewrite <- !app_assoc. reflexivity.
Qed.

(** X7. Whenever oqs_wallet_cli ends with status 0, what it has written to
    standard output is one object and a newline in which every key and every
    base64 value stands between double quotes as it is: json_escape changes
    none of them. *)
Theorem stdout_text_needs_no_escaping (L : LibOQS) (args : list jsstr) :
  Cli.status (Cli.main L args) = 0 ->
  JsonEmit.stdout_text (Cli.main L args)
  = list_ascii_of_string "{" ++ members_text (Cli.stdout (Cli.main L args))
    ++ list_ascii_of_string "}" ++ [ascii_of_N 10].
Proof.
  destruct args as [|cmd [|seed_hex [|x rest]]]; try (cbn; discriminate).
  rewrite main_two_args.
  destruct (jsstr_eqb cmd gen_kyber_from_seed) eqn:E1;
    [|destruct (jsstr_eqb cmd gen_dilithium_from_seed) eqn:E2;
      [|destruct (jsstr_eqb cmd kem_self_from_seed) eqn:E3]].
  4:{ cbn. discriminate. }
  all: cmd_cases L seed_hex; [cbn; discriminate|].
  - destruct (negb (kem_new_any L)); [cbn; discriminate|].
    destruct (OQS_KEM_keypair L _) as [[[pk sk]|] d]; [|cbn; discriminate].
    intros _. cbn [Cli.stdout]. apply stdout_text_2; reflexivity.
  - destruct (negb (sig_new_any L)); [cbn; discriminate|].
    destruct (OQS_SIG_keypair L _) as [[[pk sk]|] d]; [|cbn; discriminate].
    intros _. cbn [Cli.stdout]. apply stdout_text_2; reflexivity.
  - destruct (negb (kem_new_any L)); [cbn; discriminate|].
    destruct (OQS_KEM_keypair L _) as [[[pk sk]|] d]; [|cbn; discriminate].
    destruct (OQS_KEM_encaps L pk d) as [[[ct ss]|] d2]; [|cbn; discriminate].
    intros _. cbn [Cli.stdout]. apply stdout_text_3; reflexivity.
Qed.

Lemma stdout_text_needs_no_escaping_witness :
  Cli.status (Cli.main Fixtures.echo_liboqs [gen_kyber_from_seed; list_ascii_of_string "00ff"]) = 0 /\
  JsonEmit.stdout_text (Cli.main Fixtures.echo_liboqs [gen_kyber_from_seed; list_ascii_of_string "00ff"])
  = list_ascii_of_string "{"
    ++ members_text (Cli.stdout (Cli.main Fixtures.echo_liboqs
                                   [gen_kyber_from_seed; list_ascii_of_string "00ff"]))
    ++ list_ascii_of_string "}" ++ [ascii_of_N 10].
Proof.
  assert (H : Cli.status (Cli.main Fixtures.echo_liboqs
                            [gen_kyber_from_seed; list_ascii_of_string "00ff"]) = 0)
    by (vm_compute; reflexivity).
  split; [exact H|].
  exact (stdout_text_needs_no_escaping Fixtures.echo_liboqs _ H).
Defined.

(** ** oqs_wallet_cli: seeds and exit status *)

(** X8. shake256_expand_seed_48 returns exactly 48 bytes for every seed and
    domain, so the length check of init_nist_kat_drbg_48 never fails where
    RngScope calls it: the DRBG is seeded with the expanded bytes. *)
Theorem expanded_seed_passes_length_check (L : LibOQS) (seed : list Z) (domain : jsstr) :
  List.length (Cli.shake256_expand_seed_48 seed domain) = 48%nat /\
  Forall (fits 8) (Cli.shake256_expand_seed_48 seed domain) /\
  Cli.RngScope L seed domain
  = inr (OQS_randombytes_nist_kat_init_256bit L (Cli.shake256_expand_seed_48 seed domain)).
Proof.
  split; [apply expand_length|]. split; [apply sponge_bytes|apply RngScope_ok].
Qed.

(** X9. The exit status of oqs_wallet_cli is 0, 1, 2, 3, 4 or 99.  Unless
    it is 0 nothing is written to standard output.  When it is 0 the tool was
    called with two arguments, a known command and a seed that hex2bin
    accepts, and it has written the members of that command: the public and
    the private key, and for kem_self_from_seed the shared secret as well. *)
Theorem main_output_only_on_success (L : LibOQS) (args : list jsstr) :
  In (Cli.status (Cli.main L args)) [0; 1; 2; 3; 4; 99] /\
  (Cli.status (Cli.main L args) <> 0 -> Cli.stdout (Cli.main L args) = []) /\
  (Cli.status (Cli.main L args) = 0 ->
     exists cmd seed_hex seed,
       args = [cmd; seed_hex] /\ known_command cmd = true /\ Cli.hex2bin seed_hex = inr seed /\
       map fst (Cli.stdout (Cli.main L args)) = printed_keys cmd).
Proof.
  destruct args as [|cmd [|seed_hex [|x rest]]];
    try (cbn; split; [tauto|]; split; [reflexivity|discriminate]).
  rewrite main_two_args. unfold known_command, printed_keys.
  destruct (jsstr_eqb cmd gen_kyber_from_seed) eqn:E1;
    [|destruct (jsstr_eqb cmd gen_dilithium_from_seed) eqn:E2;
      [|destruct (jsstr_eqb cmd kem_self_from_seed) eqn:E3]].
  4:{ cbn. split; [tauto|]. split; [reflexivity|discriminate]. }
  all: cmd_cases L seed_hex;
    [cbn; split; [tauto|]; split; [reflexivity|discriminate]|].
  - destruct (negb (kem_new_any L)); [cbn; split; [tauto|]; split; [reflexivity|discriminate]|].
    destruct (OQS_KEM_keypair L _) as [[[pk sk]|] d];
      [|cbn; split; [tauto|]; split; [reflexivity|discriminate]].
    cbn [Cli.status Cli.stdout]. split; [cbn; tauto|]. split; [intros H; contradiction|].
    intros _. exists cmd, seed_hex, seed. split; [reflexivity|].
    split; [rewrite ?E1, ?E2, ?E3, ?orb_true_r; reflexivity|]. split; [exact E|].
    rewrite ?E1, ?E2, ?E3. reflexivity.
  - destruct (negb (sig_new_any L)); [cbn; split; [tauto|]; split; [reflexivity|discriminate]|].
    destruct (OQS_SIG_keypair L _) as [[[pk sk]|] d];
      [|cbn; split; [tauto|]; split; [reflexivity|discriminate]].
    cbn [Cli.status Cli.stdout]. split; [cbn; tauto|]. split; [intros H; contradiction|].
    intros _. exists cmd, seed_hex, seed. split; [reflexivity|].
    split; [rewrite ?E1, ?E2, ?E3, ?orb_true_r; reflexivity|]. split; [exact E|].
    rewrite ?E1, ?E2, ?E3. reflexivity.
  - destruct (negb (kem_new_any L)); [cbn; split; [tauto|]; split; [reflexivity|discriminate]|].
    destruct (OQS_KEM_keypair L _) as [[[pk sk]|] d];
      [|cbn; split; [tauto|]; split; [reflexivity|discriminate]].
    destruct (OQS_KEM_encaps L pk d) as [[[ct ss]|] d2];
      [|cbn; split; [tauto|]; split; [reflexivity|discriminate]].
    cbn [Cli.status Cli.stdout]. split; [cbn; tauto|]. split; [intros H; contradiction|].
    intros _. exists cmd, seed_hex, seed. split; [reflexivity|].
    split; [rewrite ?E1, ?E2, ?E3, ?orb_true_r; reflexivity|]. split; [exact E|].
    rewrite ?E1, ?E2, ?E3. reflexivity.
Qed.

(** X10. A known command with a seed of odd length, or with a character
    that is no hexadecimal digit, ends with status 99 and writes nothing:
    the exception of hex2bin is caught in main. *)
Theorem main_rejects_bad_seed (L : LibOQS) (cmd seed_hex : jsstr) :
  known_command cmd = true ->
  Nat.odd (List.length seed_hex) = true \/ forallb is_hex_char seed_hex = false ->
  Cli.main L [cmd; seed_hex] = Cli.mkProcessResult 99 [].
Proof.
  intros Hk Hbad.
  assert (He : exists e, Cli.hex2bin seed_hex = inl e).
  { pose proof (hex2bin_cases seed_hex) as H.
    destruct (Cli.hex2bin seed_hex) as [e|out]; [exists e; reflexivity|].
    destruct H as (A & B & _). destruct Hbad as [C | C]; congruence. }
  destruct He as [e He]. destruct (cmd_bad_hex L seed_hex e He) as (A & B & C).
  rewrite main_two_args, A, B, C. unfold known_command in Hk.
  destruct (jsstr_eqb cmd gen_kyber_from_seed); [reflexivity|].
  destruct (jsstr_eqb cmd gen_dilithium_from_seed); [reflexivity|].
  destruct (jsstr_eqb cmd kem_self_from_seed); [reflexivity|discriminate Hk].
Qed.

Lemma main_rejects_bad_seed_witness :
  Cli.main Fixtures.echo_liboqs [kem_self_from_seed; list_ascii_of_string "abc"]
  = Cli.mkProcessResult 99 [].
Proof.
  apply (main_rejects_bad_seed Fixtures.echo_liboqs kem_self_from_seed
           (list_ascii_of_string "abc")).
  - reflexivity.
  - left. reflexivity.
Defined.

(** ** The scripts that call oqs_wallet_cli *)

(** The result of the Dilithium call of the scripts when the tool is in
    place, by cases on what liboqs does. *)
Lemma sig_keygen_eq (h : Host) (L : LibOQS) (seed : Buffer) :
  ensureCliBuilt h = Ok true ->
  Forall (fits 8) seed ->
  qti3_hd_cli.sig_keygen h L seed
  = if negb (sig_new_any L) then Throw (Error "oqs_wallet_cli failed")
    else match OQS_SIG_keypair L (drbg_of L seed "dilithium_keygen") with
         | (None, _) => Throw (Error "oqs_wallet_cli failed")
         | (Some (pk, sk), _) =>
             Ok (Buffer_from_base64 (b64_encode pk), Buffer_from_base64 (b64_encode sk))
         end.
Proof.
  intros Hcli Hs. unfold qti3_hd_cli.sig_keygen. rewrite Hcli, bind_Ok. unfold spawnSync.
  change (list_ascii_of_string "gen_dilithium_from_seed") with gen_dilithium_from_seed.
  rewrite main_gen_dilithium, (cmd_gen_dilithium_eq L _ seed) by (apply hex2bin_of_hex, Hs).
  destruct (negb (sig_new_any L)); [reflexivity|].
  destruct (OQS_SIG_keypair L _) as [[[pk sk]|] d]; reflexivity.
Qed.

Lemma kem_self_eq (h : Host) (L : LibOQS) (rng : OsRng) :
  ensureCliBuilt h = Ok true ->
  Forall (fits 8) (firstn 64 rng) ->
  qti3_hd_cli.kem_self h L rng
  = (if negb (kem_new_any L) then Throw (Error "kem_self failed")
     else match OQS_KEM_keypair L (drbg_of L (firstn 64 rng) "kyber_kem_self") with
          | (None, _) => Throw (Error "kem_self failed")
          | (Some (pk, sk), scope) =>
              match OQS_KEM_encaps L pk scope with
              | (None, _) => Throw (Error "kem_self failed")
              | (Some (ct, ss), _) =>
                  Ok (Buffer_from_base64 (b64_encode pk), Buffer_from_base64 (b64_encode sk),
                      Buffer_from_base64 (b64_encode ss))
              end
          end,
     skipn 64 rng).
Proof.
  intros Hcli Hs. unfold qti3_hd_cli.kem_self. rewrite Hcli. unfold spawnSync, randomBytes.
  change (list_ascii_of_string "kem_self_from_seed") with kem_self_from_seed.
  rewrite main_kem_self, (cmd_kem_self_eq L _ (firstn 64 rng)) by (apply hex2bin_of_hex, Hs).
  destruct (negb (kem_new_any L)); [reflexivity|].
  destruct (OQS_KEM_keypair L _) as [[[pk sk]|] d]; [|reflexivity].
  destruct (OQS_KEM_encaps L pk d) as [[[ct ss]|] d2]; reflexivity.
Qed.

(** X11. The bridge of the HD script to oqs_wallet_cli loses nothing.  When
    the tool is in place, liboqs provides both algorithms and its operations
    succeed, step 1 of generateMaster returns the Kyber key pair and the
    shared secret that liboqs produced from the DRBG seeded with the 64 random
    bytes (domain kyber_kem_self) and reads no other random byte, and the
    Dilithium call returns the key pair liboqs produced from the DRBG seeded
    with the given seed (domain dilithium_keygen): hexadecimal and base64 both
    round-trip. *)
Theorem cli_bridge_is_lossless (h : Host) (L : LibOQS) (rng : OsRng) (seed : Buffer)
    (kpk ksk ct ss dpk dsk : Buffer) (d1 d2 d3 : Drbg) :
  ensureCliBuilt h = Ok true ->
  Forall (fits 8) (firstn 64 rng) -> Forall (fits 8) seed ->
  kem_new_any L = true -> sig_new_any L = true ->
  OQS_KEM_keypair L (drbg_of L (firstn 64 rng) "kyber_kem_self") = (Some (kpk, ksk), d1) ->
  OQS_KEM_encaps L kpk d1 = (Some (ct, ss), d2) ->
  OQS_SIG_keypair L (drbg_of L seed "dilithium_keygen") = (Some (dpk, dsk), d3) ->
  Forall (fits 8) kpk -> Forall (fits 8) ksk -> Forall (fits 8) ss ->
  Forall (fits 8) dpk -> Forall (fits 8) dsk ->
  qti3_hd_cli.kem_self h L rng = (Ok (kpk, ksk, ss), skipn 64 rng) /\
  qti3_hd_cli.sig_keygen h L seed = Ok (dpk, dsk).
Proof.
  intros Hcli Hr Hs Hk Hg E1 E2 E3 B1 B2 B3 B4 B5. split.
  - rewrite kem_self_eq, Hk, E1, E2 by assumption. cbn [negb].
    rewrite !base64_round_trip by assumption. reflexivity.
  - rewrite sig_keygen_eq, Hg, E3 by assumption. cbn [negb].
    rewrite !base64_round_trip by assumption. reflexivity.
Qed.

Lemma cli_bridge_is_lossless_witness :
  exists kpk ksk ss dpk dsk,
    qti3_hd_cli.kem_self Fixtures.ready_host Fixtures.echo_liboqs Fixtures.tape_a
      = (Ok (kpk, ksk, ss), skipn 64 Fixtures.tape_a) /\
    qti3_hd_cli.sig_keygen Fixtures.ready_host Fixtures.echo_liboqs [1; 2; 3] = Ok (dpk, dsk).
Proof.
  eassert (E1 : OQS_KEM_keypair Fixtures.echo_liboqs
                  (drbg_of Fixtures.echo_liboqs (firstn 64 Fixtures.tape_a) "kyber_kem_self")
                = (Some (_, _), _)) by (vm_compute; reflexivity).
  match type of E1 with _ = (Some (?pk, _), ?d) =>
    eassert (E2 : OQS_KEM_encaps Fixtures.echo_liboqs pk d = (Some (_, _), _))
      by (vm_compute; reflexivity)
  end.
  eassert (E3 : OQS_SIG_keypair Fixtures.echo_liboqs
                  (drbg_of Fixtures.echo_liboqs [1; 2; 3] "dilithium_keygen")
                = (Some (_, _), _)) by (vm_compute; reflexivity).
  eexists _, _, _, _, _.
  eapply (fun Hr Hs B1 B2 B3 B4 B5 =>
            cli_bridge_is_lossless Fixtures.ready_host Fixtures.echo_liboqs Fixtures.tape_a
              [1; 2; 3] _ _ _ _ _ _ _ _ _ eq_refl Hr Hs eq_refl eq_refl E1 E2 E3
              B1 B2 B3 B4 B5);
    apply bytes_checked; vm_compute; reflexivity.
Defined.

Lemma member_base64_not_exit (o : list (string * jsstr)) (key : string) (c : Z) :
  member_base64 o key <> Exit c.
Proof. unfold member_base64. destruct (find _ o) as [[k v]|]; discriminate. Qed.

Lemma catch_exit_outcome {A} (body : completion A) :
  (forall c, body <> Exit c \/ c = 1) -> returned_or_exit_1 (catch_exit body).
Proof.
  intros H. destruct body as [a|e|c]; cbn; [exact I|reflexivity|].
  destruct (H c) as [H'| ->]; [exfalso; apply H'|]; reflexivity.
Qed.

(** [ensureCliBuilt] returns or ends the process with status 1. *)
Lemma ensureCliBuilt_outcome (h : Host) :
  (exists cli, ensureCliBuilt h = Ok cli) \/ ensureCliBuilt h = Exit 1.
Proof.
  unfold ensureCliBuilt. destruct (negb (existsSync_cliBin h)); [|left; eexists; reflexivity].
  destruct (build_status h) as [[|p|p]|]; try (right; reflexivity).
  left. eexists. reflexivity.
Qed.

Lemma step1_kyber_outcome (h : Host) (L : LibOQS) (rng : OsRng) :
  returned_or_exit_1 (fst (qti3.step1_kyber h L rng)) /\
  snd (qti3.step1_kyber h L rng) = if is_Ok (ensureCliBuilt h) then skipn 64 rng else rng.
Proof.
  unfold qti3.step1_kyber, randomBytes.
  destruct (ensureCliBuilt_outcome h) as [[cli ->]| ->]; [|split; reflexivity].
  cbn [is_Ok]. destruct (spawnSync cli L _) as [r1|]; [|split; reflexivity].
  cbn [fst snd]. split; [|reflexivity].
  destruct (negb _); [reflexivity|].
  apply catch_exit_outcome. intros c. left.
  destruct (member_base64 _ "kyber_public_b64") as [a| |] eqn:E1;
    [rewrite bind_Ok|rewrite bind_Throw; discriminate|
     exfalso; exact (member_base64_not_exit _ _ _ E1)].
  destruct (member_base64 _ "kyber_private_b64") as [b| |] eqn:E2;
    [rewrite bind_Ok|rewrite bind_Throw; discriminate|
     exfalso; exact (member_base64_not_exit _ _ _ E2)].
  destruct (member_base64 _ "shared_b64") as [s| |] eqn:E3;
    [rewrite bind_Ok; discriminate|rewrite bind_Throw; discriminate|
     exfalso; exact (member_base64_not_exit _ _ _ E3)].
Qed.

Lemma step2_dilithium_outcome (h : Host) (L : LibOQS) (sharedSecret : Buffer) :
  returned_or_exit_1 (qti3.step2_dilithium h L sharedSecret).
Proof.
  unfold qti3.step2_dilithium. apply catch_exit_outcome. intros c. cbv zeta.
  destruct (ensureCliBuilt_outcome h) as [[cli ->]| ->];
    [rewrite bind_Ok|rewrite bind_Exit; destruct (Z.eq_dec c 1) as [->|Hc];
                     [right; reflexivity|left; congruence]].
  left. destruct (spawnSync cli L _) as [res2|]; [|discriminate].
  destruct (negb _); [discriminate|].
  destruct (member_base64 _ "dilithium_public_b64") as [a| |] eqn:E1;
    [rewrite bind_Ok|rewrite bind_Throw; discriminate|
     exfalso; exact (member_base64_not_exit _ _ _ E1)].
  destruct (member_base64 _ "dilithium_private_b64") as [b| |] eqn:E2;
    [rewrite bind_Ok; discriminate|rewrite bind_Throw; discriminate|
     exfalso; exact (member_base64_not_exit _ _ _ E2)].
Qed.

Lemma step6_save_outcome (h : Host) (w : pqhd.Wallet) :
  pqhd.step6_save h w
  = match writeFileSync h "qti3_pqhd_wallet.json" (pqhd.json_of_wallet w) with
    | None => Ok tt
    | Some _ => Exit 1
    end.
Proof.
  unfold pqhd.step6_save, fs_writeFileSync. destruct (writeFileSync h _ _); reflexivity.
Qed.

Lemma pqhd_address_ok (master_entropy : Buffer) :
  well_formed_address 43 (list_ascii_of_string "qtc1z")
    (pqhd.step4c_address (pqhd.step4_addressBytes master_entropy)).
Proof.
  apply (versioned_address_shape 1 2 "z"); [unfold fits; lia|reflexivity].
Qed.

(** What qti3.js does after its two calls of the tool have returned: the
    wallet is complete, and it is returned when it could be written. *)
Lemma qti3_after_keys (h : Host) (L : LibOQS) (rng : OsRng) (kpk ksk ss dpk dsk : Buffer) :
  fst (qti3.step1_kyber h L rng) = Ok (kpk, ksk, ss) ->
  qti3.step2_dilithium h L ss = Ok (dpk, dsk) ->
  exists address,
    pqhd.step4c_address (pqhd.step4_addressBytes (Keccak.SHAKE256 (ss ++ dpk) 32)) = Ok address /\
    let me := Keccak.SHAKE256 (ss ++ dpk) 32 in
    let l := pqhd.mkLocals kpk ksk ss dpk dsk me (pqhd.step4_addressBytes me) address in
    let w := {| pqhd.address := address;
                pqhd.method := list_ascii_of_string "PQ-HD";
                pqhd.witness_version := 2;
                pqhd.master_entropy_b64 := toString_base64 me;
                pqhd.kyber_public_b64 := toString_base64 kpk;
                pqhd.kyber_private_b64 := toString_base64 ksk;
                pqhd.dilithium_public_b64 := toString_base64 dpk;
                pqhd.dilithium_private_b64 := toString_base64 dsk;
                pqhd.kyber_shared_secret_b64 := toString_base64 ss;
                pqhd.combined_input_b64 := toString_base64 (ss ++ dpk) |} in
    fst (qti3.generatePQHDWallet h L rng)
    = match writeFileSync h "qti3_pqhd_wallet.json" (pqhd.json_of_wallet w) with
      | None => Ok (l, w)
      | Some _ => Exit 1
      end.
Proof.
  intros E1 E2. unfold qti3.generatePQHDWallet.
  destruct (qti3.step1_kyber h L rng) as [r rng']. cbn [fst] in E1 |- *. subst r.
  rewrite bind_Ok. cbv beta iota. rewrite E2, bind_Ok. cbv beta iota zeta.
  unfold qti3.step3_master_entropy, qti3.step3_combined_input.
  rewrite Buffer_concat2, digest_n_one_update.
  destruct (pqhd_address_ok (Keccak.SHAKE256 (ss ++ dpk) 32)) as (address & Ea & _).
  exists address. split; [exact Ea|].
  rewrite Ea, bind_Ok, step5_wallet_qti3, bind_Ok, step6_save_outcome.
  destruct (writeFileSync h _ _); reflexivity.
Qed.

(** On a machine without the tool and without the means to build it, the
    script ends before it has read a random byte; on a machine where no file
    can be written, the Primary script ends at its last step. *)
Example qti3_without_the_tool :
  qti3.generatePQHDWallet Fixtures.bare_host Fixtures.echo_liboqs Fixtures.tape_a
  = (Exit 1, Fixtures.tape_a).
Proof. reflexivity. Qed.

Example qti2_without_the_file :
  fst (qti2.generateWallet Fixtures.readonly_host Fixtures.echo_noble Fixtures.tape_a)
  = Exit 1.
Proof. vm_compute. reflexivity. Qed.

(** X12. generatePQHDWallet of qti3.js never ends in an uncaught
    exception: it returns its wallet or the process exits with status 1,
    whatever the build, liboqs and the file system do.  It reads exactly 64
    bytes from the operating system's generator, and none when the tool is
    missing and the build fails. *)
Theorem qti3_never_throws (h : Host) (L : LibOQS) (rng : OsRng) :
  returned_or_exit_1 (fst (qti3.generatePQHDWallet h L rng)) /\
  snd (qti3.generatePQHDWallet h L rng)
  = if is_Ok (ensureCliBuilt h) then skipn 64 rng else rng.
Proof.
  destruct (step1_kyber_outcome h L rng) as [H1 Hrng]. split.
  - destruct (fst (qti3.step1_kyber h L rng)) as [[[kpk ksk] ss]| |c] eqn:E1.
    + pose proof (step2_dilithium_outcome h L ss) as H2.
      destruct (qti3.step2_dilithium h L ss) as [[dpk dsk]| |c] eqn:E2.
      * destruct (qti3_after_keys h L rng _ _ _ _ _ E1 E2) as (address & _ & E).
        cbv zeta in E. rewrite E. destruct (writeFileSync h _ _); [reflexivity|exact I].
      * destruct H2.
      * unfold qti3.generatePQHDWallet. destruct (qti3.step1_kyber h L rng) as [r rng'].
        cbn [fst] in E1 |- *. subst r. rewrite bind_Ok. cbv beta iota.
        rewrite E2, bind_Exit. exact H2.
    + destruct H1.
    + unfold qti3.generatePQHDWallet. destruct (qti3.step1_kyber h L rng) as [r rng'].
      cbn [fst] in E1 |- *. subst r. rewrite bind_Exit. exact H1.
  - unfold qti3.generatePQHDWallet. destruct (qti3.step1_kyber h L rng) as [r rng'].
    cbn [snd] in Hrng |- *. exact Hrng.
Qed.

Lemma step2_is_sig_keygen (h : Host) (L : LibOQS) (ss : Buffer) :
  qti3.step2_dilithium h L ss
  = catch_exit (qti3_hd_cli.sig_keygen h L (pqhd.dilithium_seed ss)).
Proof. reflexivity. Qed.

Lemma dilithium_seed_bytes (ss : Buffer) : Forall (fits 8) (pqhd.dilithium_seed ss).
Proof. apply sponge_bytes. Qed.

Lemma step1_kyber_eq (h : Host) (L : LibOQS) (rng : OsRng) :
  ensureCliBuilt h = Ok true ->
  Forall (fits 8) (firstn 64 rng) ->
  fst (qti3.step1_kyber h L rng)
  = if negb (kem_new_any L) then Exit 1
    else match OQS_KEM_keypair L (drbg_of L (firstn 64 rng) "kyber_kem_self") with
         | (None, _) => Exit 1
         | (Some (pk, sk), scope) =>
             match OQS_KEM_encaps L pk scope with
             | (None, _) => Exit 1
             | (Some (ct, ss), _) =>
                 Ok (Buffer_from_base64 (b64_encode pk), Buffer_from_base64 (b64_encode sk),
                     Buffer_from_base64 (b64_encode ss))
             end
         end.
Proof.
  intros Hcli Hs. unfold qti3.step1_kyber. rewrite Hcli. unfold spawnSync, randomBytes.
  cbn [fst].
  change (list_ascii_of_string "kem_self_from_seed") with kem_self_from_seed.
  rewrite main_kem_self, (cmd_kem_self_eq L _ (firstn 64 rng)) by (apply hex2bin_of_hex, Hs).
  destruct (negb (kem_new_any L)); [reflexivity|].
  destruct (OQS_KEM_keypair L _) as [[[pk sk]|] d]; [|reflexivity].
  destruct (OQS_KEM_encaps L pk d) as [[[ct ss]|] d2]; reflexivity.
Qed.

(** X13. When the tool is in place, liboqs provides both algorithms, its
    operations succeed and the wallet file can be written, qti3.js returns a
    wallet whose Kyber keys, shared secret and Dilithium keys are those liboqs
    produced (the Dilithium pair from the seed derived from the shared
    secret), whose master entropy is the first 32 bytes of SHAKE256 of the
    shared secret followed by the Dilithium public key, and whose
    master_entropy_b64 member decodes to that entropy. *)
Theorem qti3_returns_liboqs_keys (h : Host) (L : LibOQS) (rng : OsRng)
    (kpk ksk ct ss dpk dsk : Buffer) (d1 d2 d3 : Drbg) :
  ensureCliBuilt h = Ok true ->
  can_write h "qti3_pqhd_wallet.json" ->
  Forall (fits 8) (firstn 64 rng) ->
  kem_new_any L = true -> sig_new_any L = true ->
  OQS_KEM_keypair L (drbg_of L (firstn 64 rng) "kyber_kem_self") = (Some (kpk, ksk), d1) ->
  OQS_KEM_encaps L kpk d1 = (Some (ct, ss), d2) ->
  OQS_SIG_keypair L (drbg_of L (pqhd.dilithium_seed ss) "dilithium_keygen")
    = (Some (dpk, dsk), d3) ->
  Forall (fits 8) kpk -> Forall (fits 8) ksk -> Forall (fits 8) ss ->
  Forall (fits 8) dpk -> Forall (fits 8) dsk ->
  exists l w,
    fst (qti3.generatePQHDWallet h L rng) = Ok (l, w) /\
    pqhd.kyber_pk l = kpk /\ pqhd.kyber_sk l = ksk /\ pqhd.sharedSecret l = ss /\
    pqhd.dilithium_pk l = dpk /\ pqhd.dilithium_sk l = dsk /\
    pqhd.master_entropy l = firstn 32 (Keccak.SHAKE256 (ss ++ dpk) 64) /\
    Buffer_from_base64 (pqhd.master_entropy_b64 w) = pqhd.master_entropy l.
Proof.
  intros Hcli Hw Hr Hk Hg E1 E2 E3 B1 B2 B3 B4 B5.
  assert (S1 : fst (qti3.step1_kyber h L rng) = Ok (kpk, ksk, ss)).
  { rewrite step1_kyber_eq, Hk, E1, E2 by assumption. cbn [negb].
    rewrite !base64_round_trip by assumption. reflexivity. }
  assert (S2 : qti3.step2_dilithium h L ss = Ok (dpk, dsk)).
  { rewrite step2_is_sig_keygen, sig_keygen_eq, Hg, E3
      by (exact Hcli || apply dilithium_seed_bytes).
    cbn [negb catch_exit]. rewrite !base64_round_trip by assumption. reflexivity. }
  destruct (qti3_after_keys h L rng _ _ _ _ _ S1 S2) as (address & _ & E).
  cbv zeta in E. rewrite Hw in E. rewrite E.
  eexists _, _. split; [reflexivity|].
  cbn [pqhd.kyber_pk pqhd.kyber_sk pqhd.sharedSecret pqhd.dilithium_pk pqhd.dilithium_sk
       pqhd.master_entropy pqhd.master_entropy_b64].
  repeat (split; [reflexivity|]).
  split; [apply SHAKE256_prefix; lia|].
  apply base64_round_trip, sponge_bytes.
Qed.

Lemma qti3_returns_liboqs_keys_witness :
  exists l w,
    fst (qti3.generatePQHDWallet Fixtures.ready_host Fixtures.echo_liboqs Fixtures.tape_a)
      = Ok (l, w) /\
    pqhd.master_entropy l
      = firstn 32 (Keccak.SHAKE256 (pqhd.sharedSecret l ++ pqhd.dilithium_pk l) 64) /\
    Buffer_from_base64 (pqhd.master_entropy_b64 w) = pqhd.master_entropy l.
Proof.
  eassert (E1 : OQS_KEM_keypair Fixtures.echo_liboqs
                  (drbg_of Fixtures.echo_liboqs (firstn 64 Fixtures.tape_a) "kyber_kem_self")
                = (Some (_, _), _)) by (vm_compute; reflexivity).
  match type of E1 with _ = (Some (?pk, _), ?d) =>
    eassert (E2 : OQS_KEM_encaps Fixtures.echo_liboqs pk d = (Some (_, _), _))
      by (vm_compute; reflexivity)
  end.
  match type of E2 with _ = (Some (_, ?ss), _) =>
    eassert (E3 : OQS_SIG_keypair Fixtures.echo_liboqs
                    (drbg_of Fixtures.echo_liboqs (pqhd.dilithium_seed ss) "dilithium_keygen")
                  = (Some (_, _), _)) by (vm_compute; reflexivity)
  end.
  edestruct (fun Hr B1 B2 B3 B4 B5 =>
               qti3_returns_liboqs_keys Fixtures.ready_host Fixtures.echo_liboqs
                 Fixtures.tape_a _ _ _ _ _ _ _ _ _ eq_refl (fun value => eq_refl)
                 Hr eq_refl eq_refl E1 E2 E3 B1 B2 B3 B4 B5)
    as (l & w & E & _ & _ & Hss & Hpk & _ & Hme & Hb64);
    try (apply bytes_checked; vm_compute; reflexivity).
  exists l, w. split; [exact E|]. split; [|exact Hb64].
  rewrite Hss, Hpk. exact Hme.
Defined.

(** X14. The scripts that take their keys from oqs_wallet_cli depend on
    the operating system's generator through the 64-byte seed only: on one
    machine, two futures of the generator that agree on their first 64 bytes
    give the same result, for qti3.js and for the HD script. *)
Theorem cli_scripts_depend_on_seed_only (h : Host) (L : LibOQS) (count account change : Z)
    (rng1 rng2 : OsRng) :
  firstn 64 rng1 = firstn 64 rng2 ->
  fst (qti3.generatePQHDWallet h L rng1) = fst (qti3.generatePQHDWallet h L rng2) /\
  fst (qti3_hd_cli.main h L count account change rng1)
  = fst (qti3_hd_cli.main h L count account change rng2).
Proof.
  intros H. split.
  - apply qti3_determined_by_seed, H.
  - apply qti3_hd_cli_determined_by_seed, H.
Qed.

Lemma cli_scripts_depend_on_seed_only_witness :
  fst (qti3.generatePQHDWallet Fixtures.ready_host Fixtures.echo_liboqs Fixtures.tape_a)
  = fst (qti3.generatePQHDWallet Fixtures.ready_host Fixtures.echo_liboqs Fixtures.tape_b).
Proof.
  exact (proj1 (cli_scripts_depend_on_seed_only Fixtures.ready_host Fixtures.echo_liboqs
                  0 0 0 Fixtures.tape_a Fixtures.tape_b eq_refl)).
Defined.

(** ** The Primary scripts *)

Lemma skipn_skipn_96 (rng : OsRng) : skipn 32 (skipn 64 rng) = skipn 96 rng.
Proof. rewrite skipn_skipn. reflexivity. Qed.

Lemma primary_step6_save (h : Host) (w : qti2.Wallet) :
  qti2.step6_save h w
  = match writeFileSync h "qti2_wallet.json" (qti2.json_of_wallet w) with
    | None => Ok tt
    | Some _ => Exit 1
    end.
Proof.
  unfold qti2.step6_save, fs_writeFileSync. destruct (writeFileSync h _ _); reflexivity.
Qed.

(** X15. With the library calls returning, generateWallet of qti2.js and of
    qtc2.js reads 96 bytes from the operating system's generator (64 for the
    seed, 32 for the encapsulation) and puts a wallet together: the address
    program has 20 bytes, the address has the fixed form of its script, the
    wallet carries that address, and its entropy_b64 member decodes to the
    entropy, which has 64 bytes in qti2.js and 32 in qtc2.js.  The wallet is
    returned when the file qti2_wallet.json could be written; otherwise the
    process exits with status 1.  Neither script ends in an uncaught
    exception. *)
Theorem primary_scripts_outcome (h : Host) (N : Noble) (rng : OsRng) :
  (exists l w,
     qti2.generateWallet h N rng
     = (match writeFileSync h "qti2_wallet.json" (qti2.json_of_wallet w) with
        | None => Ok (l, w)
        | Some _ => Exit 1
        end, skipn 96 rng) /\
     List.length (qti2.entropy l) = 64%nat /\
     List.length (qti2.addressBytes l) = 20%nat /\
     well_formed_address 42 (list_ascii_of_string "qtc1") (Ok (qti2.address l)) /\
     qti2.address_ w = qti2.address l /\
     Buffer_from_base64 (qti2.entropy_b64 w) = qti2.entropy l) /\
  (exists l w,
     qtc2.generateWallet h N rng
     = (match writeFileSync h "qti2_wallet.json" (qti2.json_of_wallet w) with
        | None => Ok (l, w)
        | Some _ => Exit 1
        end, skipn 96 rng) /\
     List.length (qtc2.entropy l) = 32%nat /\
     List.length (qtc2.addressBytes l) = 20%nat /\
     well_formed_address 43 (list_ascii_of_string "qtc1p") (Ok (qtc2.address l)) /\
     qti2.address_ w = qtc2.address l /\
     Buffer_from_base64 (qti2.entropy_b64 w) = qtc2.entropy l).
Proof.
  split.
  - unfold qti2.generateWallet. rewrite noble_kyber_step_draws_twice, skipn_skipn_96.
    destruct (ml_kem1024_keygen N (firstn 64 rng)) as [kpk ksk].
    set (ss := snd (ml_kem1024_encapsulate_msg N kpk (firstn 32 (skipn 64 rng)))).
    destruct (qti2.step3_dilithium N (qti2.step2_entropy ss)) as [dpk dsk].
    pose proof (unversioned_address_shape 1 dpk) as Hw.
    change (Bech32.encode 1 qtc (Bech32.toWords (firstn 20 (Keccak.SHA3_256 dpk))))
      with (qti2.step4c_address (qti2.step4_addressBytes dpk)) in Hw.
    destruct Hw as (address & Ea & Hshape). rewrite Ea, bind_Ok. cbv zeta.
    rewrite primary_step6_save.
    match goal with |- context [Ok (?l0, ?w0)] => exists l0, w0 end.
    split; [destruct (writeFileSync h _ _); reflexivity|].
    cbn [qti2.entropy qti2.addressBytes qti2.address qti2.step5_wallet qti2.address_
         qti2.entropy_b64].
    split; [apply SHA3_512_length|]. split; [apply program_bytes|].
    split; [exists address; split; [reflexivity|exact Hshape]|]. split; [reflexivity|].
    apply base64_round_trip, sponge_bytes.
  - unfold qtc2.generateWallet. rewrite noble_kyber_step_draws_twice, skipn_skipn_96.
    destruct (ml_kem1024_keygen N (firstn 64 rng)) as [kpk ksk].
    set (ss := snd (ml_kem1024_encapsulate_msg N kpk (firstn 32 (skipn 64 rng)))).
    destruct (qtc2.step3_dilithium N (qtc2.step2_entropy ss)) as [dpk dsk].
    pose proof (versioned_address_shape 1 1 "p" dpk ltac:(unfold fits; lia) eq_refl) as Hw.
    change (AddressCodec.encode_with 1 1 (firstn 20 (Keccak.SHA3_256 dpk)))
      with (qtc2.step4c_address (qtc2.step4_addressBytes dpk)) in Hw.
    destruct Hw as (address & Ea & Hshape). rewrite Ea, bind_Ok. cbv zeta.
    change (qtc2.step6_save h ?w) with (qti2.step6_save h w).
    rewrite primary_step6_save.
    match goal with |- context [Ok (?l0, ?w0)] => exists l0, w0 end.
    split; [destruct (writeFileSync h _ _); reflexivity|].
    cbn [qtc2.entropy qtc2.addressBytes qtc2.address qtc2.step5_wallet qti2.address_
         qti2.entropy_b64].
    split; [apply SHAKE256_length|]. split; [apply program_bytes|].
    split; [exists address; split; [reflexivity|exact Hshape]|]. split; [reflexivity|].
    apply base64_round_trip, sponge_bytes.
Qed.

(** X26. The scripts on noble-post-quantum never look at what decapsulate
    returns: the shared secret they go on with is the one from encapsulate,
    and with any other decapsulation the Primary scripts and the HD script
    give the same result. *)
Theorem decapsulation_is_never_checked (h : Host) (N : Noble)
    (decapsulate : Buffer -> Buffer -> Buffer)
    (count account change : Z) (rng : OsRng) :
  qti2.generateWallet h (with_decapsulate N decapsulate) rng = qti2.generateWallet h N rng /\
  qtc2.generateWallet h (with_decapsulate N decapsulate) rng = qtc2.generateWallet h N rng /\
  qti3_hd_noble.main h (with_decapsulate N decapsulate) count account change rng
  = qti3_hd_noble.main h N count account change rng.
Proof.
  assert (Hstep : noble_kyber_step (with_decapsulate N decapsulate) rng = noble_kyber_step N rng).
  { rewrite !noble_kyber_step_draws_twice. reflexivity. }
  split; [|split].
  - unfold qti2.generateWallet. rewrite Hstep. reflexivity.
  - unfold qtc2.generateWallet. rewrite Hstep. reflexivity.
  - unfold qti3_hd_noble.main, HDWallet.main, HDWallet.generateMaster, qti3_hd_noble.kem_self.
    rewrite Hstep. reflexivity.
Qed.

(** ** HD paths: printing and parsing *)

Lemma digits_of_digits (d : Decimal.uint) : all_digits (digits_of d) = true.
Proof.
  unfold all_digits, digits_of. induction d; cbn [NilEmpty.string_of_uint list_ascii_of_string forallb];
    [reflexivity|rewrite IHd; reflexivity ..].
Qed.

Lemma parseInt_acc (d : Decimal.uint) (acc : positive) :
  fold_left (fun a c => a * 10 + (charCode c - 48)) (digits_of d) (Z.pos acc)
  = Z.pos (Pos.of_uint_acc d acc).
Proof.
  unfold digits_of. revert acc.
  induction d; intros acc; cbn [NilEmpty.string_of_uint list_ascii_of_string fold_left Pos.of_uint_acc];
    [reflexivity|rewrite <- IHd; f_equal;
     match goal with |- context [charCode ?c] => let v := eval vm_compute in (charCode c) in change (charCode c) with v end; lia ..].
Qed.

Lemma parseInt_digits (d : Decimal.uint) :
  HDPath.parseInt (digits_of d) = Z.of_N (Pos.of_uint d).
Proof.
  unfold HDPath.parseInt, digits_of.
  induction d; cbn [NilEmpty.string_of_uint list_ascii_of_string fold_left Pos.of_uint];
    [reflexivity | exact IHd | apply (parseInt_acc d) ..].
Qed.

Lemma number_toString_digits (n : Z) :
  0 <= n ->
  exists d, number_toString n = digits_of d /\ d <> Decimal.Nil /\ Z.of_N (Pos.of_uint d) = n.
Proof.
  intros Hn. unfold number_toString. destruct n as [|p|p]; [| |lia].
  - exists (Decimal.D0 Decimal.Nil). split; [reflexivity|]. split; [discriminate|reflexivity].
  - exists (Pos.to_uint p). cbn [Z.to_int NilZero.string_of_int].
    assert (Hd : Pos.to_uint p <> Decimal.Nil).
    { intros E. pose proof (DecimalPos.Unsigned.of_to p) as H. rewrite E in H. discriminate H. }
    split; [|split; [exact Hd|rewrite DecimalPos.Unsigned.of_to; reflexivity]].
    unfold NilZero.string_of_uint, digits_of. destruct (Pos.to_uint p); [contradiction|reflexivity ..].
Qed.

Lemma digits_of_nonempty (d : Decimal.uint) : d <> Decimal.Nil -> digits_of d <> [].
Proof. destruct d; [contradiction|discriminate ..]. Qed.

Lemma span_digits_app (ds rest : jsstr) :
  all_digits ds = true -> stops rest -> HDPath.span_digits (ds ++ rest) = (ds, rest).
Proof.
  intros Hd Hr. induction ds as [|c ds IH].
  - destruct rest as [|c rest]; [reflexivity|]. cbn in Hr |- *. rewrite Hr. reflexivity.
  - cbn [all_digits forallb] in Hd. apply andb_true_iff in Hd as [Hc Hd].
    cbn [app HDPath.span_digits]. rewrite Hc, (IH Hd). reflexivity.
Qed.

Lemma group_digits_number (n : Z) (rest : jsstr) :
  0 <= n -> stops rest ->
  HDPath.group_digits (number_toString n ++ rest) = Some (number_toString n, rest).
Proof.
  intros Hn Hr. destruct (number_toString_digits n Hn) as (d & -> & Hd & _).
  unfold HDPath.group_digits. rewrite span_digits_app by (apply digits_of_digits || exact Hr).
  pose proof (digits_of_nonempty d Hd). destruct (digits_of d); [contradiction|reflexivity].
Qed.

Lemma parseInt_number (n : Z) : 0 <= n -> HDPath.parseInt (number_toString n) = n.
Proof.
  intros Hn. destruct (number_toString_digits n Hn) as (d & -> & _ & Hv).
  rewrite parseInt_digits. exact Hv.
Qed.

Lemma fromString_round_trip (p : QTCHDPath) :
  safe_path p -> HDPath.fromString (HDPath.toString p) = Ok p.
Proof.
  intros (H1 & H2 & H3 & H4). unfold safe_integer in *.
  destruct p as [n1 n2 n3 n4]. cbn [purpose account change addressIndex] in *.
  unfold HDPath.fromString, HDPath.path_match, HDPath.toString.
  cbn [purpose account change addressIndex list_ascii_of_string app HDPath.literal Ascii.eqb Bool.eqb mbind option_bind].
  rewrite group_digits_number by (lia || reflexivity).
  cbn [mbind option_bind app HDPath.literal Ascii.eqb Bool.eqb].
  rewrite group_digits_number by (lia || reflexivity).
  cbn [mbind option_bind app HDPath.literal Ascii.eqb Bool.eqb].
  rewrite group_digits_number by (lia || reflexivity).
  cbn [mbind option_bind app HDPath.literal Ascii.eqb Bool.eqb].
  rewrite <- (app_nil_r (number_toString n4)).
  rewrite group_digits_number by (lia || reflexivity).
  cbn [mbind option_bind].
  rewrite !parseInt_number by lia. reflexivity.
Qed.

(** X16. Parsing the text of a path gives the path back, and the text
    identifies the path: for paths whose four components are non-negative
    integers below 2^53, QTCHDPath.fromString(p.toString()) is p, and two
    paths that print alike are the same path. *)
Theorem fromString_toString (p q : QTCHDPath) :
  safe_path p -> safe_path q ->
  HDPath.fromString (HDPath.toString p) = Ok p /\
  (HDPath.toString p = HDPath.toString q -> p = q).
Proof.
  intros Hp Hq. pose proof (fromString_round_trip p Hp) as Ep. split; [exact Ep|].
  intros E. rewrite E, (fromString_round_trip q Hq) in Ep.
  injection Ep as <-. reflexivity.
Qed.

Lemma fromString_toString_witness :
  HDPath.fromString (HDPath.toString (new_QTCHDPath 44 0 0 17)) = Ok (new_QTCHDPath 44 0 0 17) /\
  HDPath.toString (new_QTCHDPath 44 0 0 17) <> HDPath.toString (new_QTCHDPath 44 0 0 18).
Proof.
  destruct (fromString_toString (new_QTCHDPath 44 0 0 17) (new_QTCHDPath 44 0 0 18))
    as [A B].
  - unfold safe_path, safe_integer. cbn [purpose account change addressIndex]. lia.
  - unfold safe_path, safe_integer. cbn [purpose account change addressIndex]. lia.
  - split; [exact A|]. intros E. apply B in E. discriminate E.
Defined.

Lemma span_digits_digits (s : jsstr) : all_digits (fst (HDPath.span_digits s)) = true.
Proof.
  induction s as [|c s IH]; [reflexivity|].
  cbn [HDPath.span_digits]. destruct (HDPath.is_digit c) eqn:E; [|reflexivity].
  destruct (HDPath.span_digits s) as [ds tl]. cbn [fst all_digits forallb] in *.
  rewrite E, IH. reflexivity.
Qed.

Lemma group_digits_digits (s ds tl : jsstr) :
  HDPath.group_digits s = Some (ds, tl) -> all_digits ds = true.
Proof.
  unfold HDPath.group_digits. pose proof (span_digits_digits s) as H.
  destruct (HDPath.span_digits s) as [[|c ds'] tl']; [discriminate|].
  intros E. injection E as <- <-. exact H.
Qed.

Lemma parseInt_nonneg_acc (ds : jsstr) (acc : Z) :
  all_digits ds = true -> 0 <= acc ->
  0 <= fold_left (fun a c => a * 10 + (charCode c - 48)) ds acc.
Proof.
  revert acc. induction ds as [|c ds IH]; intros acc Hd Ha; [exact Ha|].
  cbn [all_digits forallb] in Hd. apply andb_true_iff in Hd as [Hc Hd].
  cbn [fold_left]. apply IH; [exact Hd|].
  unfold HDPath.is_digit in Hc. apply andb_true_iff in Hc as [A B]. lia.
Qed.

Lemma parseInt_nonneg (ds : jsstr) : all_digits ds = true -> 0 <= HDPath.parseInt ds.
Proof. intros H. apply parseInt_nonneg_acc; [exact H|lia]. Qed.

Ltac step_match H :=
  match type of H with
  | (?m ≫= _) = Some _ =>
      let E := fresh "E" in
      destruct m as [?|] eqn:E; cbn [mbind option_bind] in H; [|discriminate H]
  end.

Lemma path_match_digits (s g1 g2 g3 g4 : jsstr) :
  HDPath.path_match s = Some (g1, g2, g3, g4) ->
  all_digits g1 = true /\ all_digits g2 = true /\ all_digits g3 = true /\ all_digits g4 = true.
Proof.
  unfold HDPath.path_match. intros H.
  step_match H. step_match H. step_match H. destruct p as [a1 s1].
  step_match H. step_match H. step_match H. destruct p as [a2 s2].
  step_match H. step_match H. step_match H. destruct p as [a3 s3].
  step_match H. step_match H. destruct p as [a4 s4].
  destruct s4; [|discriminate H]. injection H as <- <- <- <-.
  repeat split; eapply group_digits_digits; eassumption.
Qed.

(** X17. QTCHDPath.fromString either returns a path whose four components
    are non-negative, or throws the Error with message Invalid HD path
    format; it ends in no other way. *)
Theorem fromString_outcome (pathString : jsstr) :
  match HDPath.fromString pathString with
  | Ok p => 0 <= purpose p /\ 0 <= account p /\ 0 <= change p /\ 0 <= addressIndex p
  | Throw e => e = Error "Invalid HD path format"
  | Exit _ => False
  end.
Proof.
  unfold HDPath.fromString.
  destruct (HDPath.path_match pathString) as [[[[g1 g2] g3] g4]|] eqn:E; [|reflexivity].
  apply path_match_digits in E as (A & B & C & D).
  cbn [purpose account change addressIndex].
  repeat split; apply parseInt_nonneg; assumption.
Qed.

(** ** The HD wallet *)

Lemma deriveChild_ok (this : QTCHDNode) (i : Z) :
  uint32 i ->
  HDWallet.deriveChild this i
  = let childPath :=
      new_QTCHDPath (purpose (path this)) (account (path this)) (change (path this)) i in
    Ok (new_QTCHDNode
          (Keccak.SHA3_512
             (masterEntropy this ++ Buffer_from_utf8 (HDPath.toString childPath)
                ++ Spec.bigEndianUint32 i))
          childPath).
Proof.
  intros Hi. unfold HDWallet.deriveChild.
  rewrite writeUInt32BE_bigEndian by exact Hi. rewrite bind_Ok.
  rewrite Buffer_concat3, digest_SHA3_512. reflexivity.
Qed.

(** X18. deriveChild accepts exactly the indices that fit in 32 unsigned
    bits.  For such an index it returns a node with that address index, 64
    bytes of entropy and no keys; for any other index it throws a RangeError
    (from writeUInt32BE) and returns no node. *)
Theorem deriveChild_index_range (this : QTCHDNode) (index : Z) :
  (uint32 index ->
   exists child,
     HDWallet.deriveChild this index = Ok child /\
     addressIndex (path child) = index /\
     List.length (masterEntropy child) = 64%nat /\
     publicKey child = None /\ privateKey child = None) /\
  (~ uint32 index ->
   exists message, HDWallet.deriveChild this index = Throw (RangeError message)).
Proof.
  split.
  - intros Hi. rewrite deriveChild_ok by exact Hi. eexists. split; [reflexivity|].
    cbn [path addressIndex masterEntropy publicKey privateKey new_QTCHDNode].
    split; [reflexivity|]. split; [apply SHA3_512_length|]. split; reflexivity.
  - intros Hi. unfold HDWallet.deriveChild.
    rewrite writeUInt32BE_out_of_range by (unfold uint32 in Hi; lia).
    rewrite bind_Throw. eexists. reflexivity.
Qed.

Lemma slice32_length (b : Buffer) :
  (32 <= List.length b)%nat -> List.length (Buffer_slice0 32 b) = 32%nat.
Proof. intros H. unfold Buffer_slice0. rewrite length_firstn. lia. Qed.

(** X27. Every seed handed to the Dilithium key generation has 32 bytes:
    the first half of the entropy in qti2.js and qtc2.js, the SHAKE256 digest
    of the PQ-HD scripts, and the first half of the entropy of every node that
    deriveChild returns, whose hexadecimal text for oqs_wallet_cli has 64
    characters. *)
Theorem dilithium_seeds_have_32_bytes (sharedSecret : Buffer) (this child : QTCHDNode)
    (index : Z) :
  HDWallet.deriveChild this index = Ok child ->
  List.length (Buffer_slice0 32 (qti2.step2_entropy sharedSecret)) = 32%nat /\
  List.length (Buffer_slice0 32 (qtc2.step2_entropy sharedSecret)) = 32%nat /\
  List.length (pqhd.dilithium_seed sharedSecret) = 32%nat /\
  List.length (Buffer_slice0 32 (masterEntropy child)) = 32%nat /\
  List.length (toString_hex (Buffer_slice0 32 (masterEntropy child))) = 64%nat /\
  Forall (fits 8) (Buffer_slice0 32 (masterEntropy child)).
Proof.
  intros Hd.
  split; [apply slice32_length; unfold qti2.step2_entropy;
          rewrite digest_createHash, SHA3_512_length; lia|].
  split; [apply slice32_length; unfold qtc2.step2_entropy;
          rewrite digest_n_one_update, SHAKE256_length; lia|].
  split; [apply SHAKE256_length|].
  unfold HDWallet.deriveChild in Hd.
  destruct (writeUInt32BE (Buffer_alloc 4) index) as [indexData| |]; step_bind Hd.
  injection Hd as <-. cbn [masterEntropy new_QTCHDNode]. rewrite digest_SHA3_512.
  match goal with |- context [Keccak.SHA3_512 ?m] =>
    pose proof (SHA3_512_length m) as H64;
    pose proof (sponge_bytes 72 6 m 64) as Hb;
    change (Keccak.sponge 72 6 m 64) with (Keccak.SHA3_512 m) in Hb;
    generalize dependent (Keccak.SHA3_512 m)
  end.
  intros e H64 Hb.
  assert (H32 : List.length (Buffer_slice0 32 e) = 32%nat) by (apply slice32_length; lia).
  split; [exact H32|]. split; [rewrite toString_hex_length, H32; reflexivity|].
  apply Forall_take, Hb.
Qed.

Lemma dilithium_seeds_have_32_bytes_witness :
  exists child,
    HDWallet.deriveChild node_with_key 3 = Ok child /\
    List.length (Buffer_slice0 32 (masterEntropy child)) = 32%nat.
Proof.
  eassert (E : HDWallet.deriveChild node_with_key 3 = Ok _) by (vm_compute; reflexivity).
  eexists. split; [exact E|].
  exact (proj1 (proj2 (proj2 (proj2 (dilithium_seeds_have_32_bytes [] node_with_key _ 3 E))))).
Defined.

(** X19. The classes refuse steps taken out of order.  A node fresh from
    deriveChild has no key pair, whatever its parent has, so generateAddress
    on it throws Must generate keypair first; generateAddresses on a wallet
    without master node throws Must generate master wallet first; and
    exportWallet on such a wallet throws a TypeError. *)
Theorem hd_steps_out_of_order (sig_keygen : Buffer -> completion (Buffer * Buffer))
    (this child : QTCHDNode) (i count account change : Z) (entries : list AddressEntry) :
  HDWallet.deriveChild this i = Ok child ->
  HDWallet.generateAddress child = Throw (Error "Must generate keypair first") /\
  HDWallet.generateAddresses sig_keygen new_QTCPQHDWallet count account change
    = Throw (Error "Must generate master wallet first") /\
  exists message,
    HDWallet.exportWallet new_QTCPQHDWallet entries = Throw (TypeError message).
Proof.
  intros Hd. split; [|split; [reflexivity|eexists; reflexivity]].
  unfold HDWallet.deriveChild in Hd.
  destruct (writeUInt32BE (Buffer_alloc 4) i) as [indexData| |]; step_bind Hd.
  injection Hd as <-. reflexivity.
Qed.

Lemma hd_steps_out_of_order_witness :
  exists child,
    HDWallet.deriveChild node_with_key 3 = Ok child /\
    HDWallet.generateAddress child = Throw (Error "Must generate keypair first").
Proof.
  eassert (E : HDWallet.deriveChild node_with_key 3 = Ok _) by (vm_compute; reflexivity).
  eexists. split; [exact E|].
  exact (proj1 (hd_steps_out_of_order (qti3_hd_noble.sig_keygen Fixtures.echo_noble)
                  node_with_key _ 3 0 0 0 [] E)).
Defined.








(** ** The command line of qtc2.js and qti3.js *)

Lemma dashes_token (k : jsstr) :
  CommandLine.startsWith_dashes k = true -> k = list_ascii_of_string "--" ++ skipn 2 k.
Proof.
  destruct k as [|c1 [|c2 key]]; try discriminate. cbn [CommandLine.startsWith_dashes].
  intros H. apply andb_true_iff in H as [H1 H2].
  apply Ascii.eqb_eq in H1, H2. subst. reflexivity.
Qed.

Lemma key_of_token (k : jsstr) (name : string) :
  CommandLine.startsWith_dashes k = true ->
  string_of_list_ascii (skipn 2 k) = name -> k = option_token name.
Proof.
  intros Hk <-. unfold option_token. rewrite list_ascii_of_string_of_list_ascii.
  apply dashes_token, Hk.
Qed.

Lemma set_property_other (args : Args) (key : jsstr) (val : ArgValue) (name : string) :
  string_of_list_ascii key <> name ->
  CommandLine.set_property args key val !! name = args !! name.
Proof.
  intros H. unfold CommandLine.set_property.
  destruct (jsstr_eqb key _); [reflexivity|]. apply lookup_insert_ne, H.
Qed.

Lemma set_property_lookup (args : Args) (key : jsstr) (val v : ArgValue) (name : string) :
  CommandLine.set_property args key val !! name = Some v ->
  v = val \/ args !! name = Some v.
Proof.
  unfold CommandLine.set_property. destruct (jsstr_eqb key _); [right; assumption|].
  destruct (decide (string_of_list_ascii key = name)) as [->|Hne].
  - rewrite lookup_insert_eq. intros H. injection H as <-. left. reflexivity.
  - rewrite lookup_insert_ne by exact Hne. right. assumption.
Qed.

Lemma tidy_set (args : Args) (items : list jsstr) (k : jsstr) (val : ArgValue) :
  tidy args items ->
  CommandLine.startsWith_dashes k = true -> k <> option_token "_" ->
  match val with VText s => clean s | VTrue => True | VArray _ => False end ->
  tidy (CommandLine.set_property args (skipn 2 k) val) items.
Proof.
  intros (H1 & H2 & H3) Hk Hne Hval. split; [|split; [exact H2|]].
  - rewrite set_property_other; [exact H1|]. intros E. apply Hne, key_of_token; assumption.
  - intros name s Hs. apply set_property_lookup in Hs as [<- | Hs]; [exact Hval|].
    eapply H3, Hs.
Qed.

Lemma tidy_push (args : Args) (items : list jsstr) (k : jsstr) :
  tidy args items -> clean k ->
  CommandLine.push_positional args k = Ok (<["_"%string := VArray (items ++ [k])]> args) /\
  tidy (<["_"%string := VArray (items ++ [k])]> args) (items ++ [k]).
Proof.
  intros (H1 & H2 & H3) Hk. unfold CommandLine.push_positional. rewrite H1.
  split; [reflexivity|]. split; [apply lookup_insert_eq|]. split.
  - apply Forall_app. split; [exact H2|]. constructor; [exact Hk|constructor].
  - intros name s Hs. destruct (decide ("_"%string = name)) as [<-|Hne].
    + rewrite lookup_insert_eq in Hs. discriminate Hs.
    + rewrite lookup_insert_ne in Hs by exact Hne. eapply H3, Hs.
Qed.

Lemma parseArgs_loop_spec (n : nat) :
  forall argv args items,
    (List.length argv <= n)%nat -> ~ In (option_token "_") argv -> tidy args items ->
    exists args' more,
      CommandLine.parseArgs_loop argv args = Ok args' /\
      tidy args' (items ++ more) /\
      incl more argv /\
      (forall name, name <> "_"%string -> args !! name = None ->
                    ~ In (option_token name) argv -> args' !! name = None).
Proof.
  induction n as [|n IH]; intros argv args items Hlen Hno Ht.
  { destruct argv; [|cbn in Hlen; lia]. exists args, []. rewrite app_nil_r.
    split; [reflexivity|]. split; [exact Ht|]. split; [apply incl_refl|]. intros; assumption. }
  destruct argv as [|k rest].
  { exists args, []. rewrite app_nil_r.
    split; [reflexivity|]. split; [exact Ht|]. split; [apply incl_refl|]. intros; assumption. }
  cbn [List.length] in Hlen.
  assert (Hk_ne : k <> option_token "_") by (intros ->; apply Hno; left; reflexivity).
  assert (Hno_rest : ~ In (option_token "_") rest) by (intros H; apply Hno; right; exact H).
  cbn [CommandLine.parseArgs_loop].
  destruct (CommandLine.startsWith_dashes k) eqn:Ek.
  - (* an option *)
    assert (Hother : forall name val, name <> "_"%string -> args !! name = None ->
              ~ In (option_token name) (k :: rest) ->
              CommandLine.set_property args (skipn 2 k) val !! name = None).
    { intros name val _ Hnone Hnot. rewrite set_property_other; [exact Hnone|].
      intros E. apply Hnot. left. apply key_of_token; assumption. }
    destruct rest as [|next rest'].
    + exists (CommandLine.set_property args (skipn 2 k) VTrue), []. rewrite app_nil_r.
      split; [reflexivity|]. split; [apply tidy_set; auto|].
      split; [apply incl_nil_l|]. intros name Hn Hnone Hnot. apply Hother; assumption.
    + destruct (CommandLine.startsWith_dashes next) eqn:En; cbn [negb].
      * destruct (IH (next :: rest') (CommandLine.set_property args (skipn 2 k) VTrue) items)
          as (args' & more & E & Ht' & Hincl & Hkeys);
          [lia|exact Hno_rest|apply tidy_set; auto|].
        exists args', more. split; [exact E|]. split; [exact Ht'|].
        split; [apply incl_tl, Hincl|].
        intros name Hn Hnone Hnot. apply Hkeys; [exact Hn|apply Hother; assumption|].
        intros H. apply Hnot. right. exact H.
      * destruct (IH rest' (CommandLine.set_property args (skipn 2 k) (VText next)) items)
          as (args' & more & E & Ht' & Hincl & Hkeys);
          [cbn [List.length] in Hlen; lia
          |intros H; apply Hno_rest; right; exact H
          |apply tidy_set; auto|].
        exists args', more. split; [exact E|]. split; [exact Ht'|].
        split; [apply incl_tl, incl_tl, Hincl|].
        intros name Hn Hnone Hnot. apply Hkeys; [exact Hn|apply Hother; assumption|].
        intros H. apply Hnot. right. right. exact H.
  - (* a positional argument *)
    destruct (tidy_push args items k Ht Ek) as [Ep Ht'].
    rewrite Ep, bind_Ok.
    destruct (IH rest _ (items ++ [k]) ltac:(lia) Hno_rest Ht')
      as (args' & more & E & Ht'' & Hincl & Hkeys).
    exists args', (k :: more). split; [exact E|].
    split; [rewrite <- app_assoc in Ht''; exact Ht''|].
    split; [apply incl_cons; [left; reflexivity|apply incl_tl, Hincl]|].
    intros name Hn Hnone Hnot. apply Hkeys; [exact Hn| |intros H; apply Hnot; right; exact H].
    rewrite lookup_insert_ne by (intros E'; apply Hn; symmetry; exact E'). exact Hnone.
Qed.

Lemma tidy_initial : tidy (<["_"%string := VArray []]> ∅) [].
Proof.
  split; [apply lookup_insert_eq|]. split; [constructor|].
  intros name s Hs. destruct (decide ("_"%string = name)) as [<-|Hne].
  - rewrite lookup_insert_eq in Hs. discriminate Hs.
  - rewrite lookup_insert_ne, lookup_empty in Hs by exact Hne. discriminate Hs.
Qed.

(** X21. Unless the option --_ is given, parseArgs returns, and it keeps
    options and positional arguments apart: the positional arguments are an
    array of tokens of the command line none of which begins with two dashes,
    no text stored as the value of an option begins with two dashes, and an
    option that does not occur on the command line is not set. *)
Theorem parseArgs_keeps_tokens_apart (argv : list jsstr) :
  ~ In (option_token "_") argv ->
  exists args positionals,
    CommandLine.parseArgs argv = Ok args /\
    args !! "_"%string = Some (VArray positionals) /\
    Forall clean positionals /\ incl positionals argv /\
    (forall name s, args !! name = Some (VText s) -> clean s) /\
    (forall name, name <> "_"%string -> ~ In (option_token name) argv -> args !! name = None).
Proof.
  intros Hno.
  destruct (parseArgs_loop_spec (List.length argv) argv _ [] ltac:(lia) Hno tidy_initial)
    as (args & more & E & (H1 & H2 & H3) & Hincl & Hkeys).
  exists args, more. split; [exact E|]. split; [exact H1|]. split; [exact H2|].
  split; [exact Hincl|]. split; [exact H3|].
  intros name Hn Hnot. apply Hkeys; [exact Hn| |exact Hnot].
  rewrite lookup_insert_ne, lookup_empty by (intros E'; apply Hn; symmetry; exact E').
  reflexivity.
Qed.

Lemma no_underscore_option : ~ In (option_token "_") argv_options.
Proof. intros [H|[H|[H|[]]]]; discriminate H. Qed.

Lemma parseArgs_keeps_tokens_apart_witness :
  exists args positionals,
    CommandLine.parseArgs argv_options = Ok args /\
    args !! "_"%string = Some (VArray positionals) /\
    Forall clean positionals.
Proof.
  destruct (parseArgs_keeps_tokens_apart argv_options no_underscore_option)
    as (args & ps & E & H1 & H2 & _).
  exists args, ps. split; [exact E|]. split; [exact H1|exact H2].
Defined.

Lemma jsstr_eqb_true (a b : jsstr) : jsstr_eqb a b = true -> a = b.
Proof.
  revert b. induction a as [|x a IH]; intros [|y b]; try discriminate; [reflexivity|].
  cbn [jsstr_eqb]. intros H. apply andb_true_iff in H as [H1 H2].
  apply Ascii.eqb_eq in H1. rewrite H1, (IH b H2). reflexivity.
Qed.

Lemma not_a_command (cmd : jsstr) (name : string) :
  ~ In (string_of_list_ascii cmd) command_names -> In name command_names ->
  CommandLine.is_command cmd name = false.
Proof.
  intros Hno Hin. unfold CommandLine.is_command.
  destruct (jsstr_eqb cmd (list_ascii_of_string name)) eqn:E; [|reflexivity].
  apply jsstr_eqb_true in E. subst cmd. rewrite string_of_list_ascii_of_string in Hno.
  contradiction.
Qed.

Lemma cmd_not_exit {A} (c : completion A) (k : A -> Started) (code : Z) :
  (forall code', c <> Exit code') -> (r ← c; Ok (k r)) <> Exit code.
Proof. destruct c as [a|e|x]; intros H; [discriminate|discriminate|]. exfalso. apply (H x). reflexivity. Qed.

(** X22. Unless the option --_ is given, the last block of the scripts
    never ends in an uncaught exception: it starts the wallet generation or a
    command, or the process exits with status 1. *)
Theorem top_level_never_throws (env : gmap string jsstr) (argv : list jsstr) :
  ~ In (option_token "_") argv ->
  returned_or_exit_1 (CommandLine.top_level env argv).
Proof.
  intros Hno.
  destruct (parseArgs_loop_spec (List.length argv) argv _ [] ltac:(lia) Hno tidy_initial)
    as (args & more & Ep & _).
  unfold CommandLine.top_level, CommandLine.parseArgs. rewrite Ep, bind_Ok. cbv zeta.
  apply catch_exit_outcome. intros code. left. unfold CommandLine.dispatch.
  repeat match goal with
  | |- (if ?b then _ else _) <> _ => destruct b
  end; try discriminate;
  apply cmd_not_exit; intros code';
  unfold CommandLine.cmdBalance, CommandLine.cmdImportAddress, CommandLine.cmdImportPrivKey,
    CommandLine.cmdFundRaw, CommandLine.cmdSignRaw, CommandLine.cmdBroadcast;
  match goal with
  | |- context [args !! ?name] => destruct (args !! name) as [v|]; [|discriminate]
  end;
  match goal with
  | |- (if ?b then _ else _) <> _ => destruct b; discriminate
  end.
Qed.

Lemma top_level_never_throws_witness :
  returned_or_exit_1 (CommandLine.top_level ∅ argv_options).
Proof. exact (top_level_never_throws ∅ argv_options no_underscore_option). Defined.

Lemma command_name_first (args : Args) (cmd : jsstr) :
  CommandLine.first_positional args = Some cmd -> cmd <> [] ->
  CommandLine.command_name args = cmd.
Proof.
  intros E Hne. unfold CommandLine.command_name. rewrite E.
  destruct cmd; [contradiction|reflexivity].
Qed.

(** X23. A command that checks for an option ends the process with status
    1, before any request is made, when that option is not set: whenever
    parseArgs returns, the first positional argument it collected is balance
    or import-address and args.address is undefined or empty, or it is
    import-privkey and args.privkey is, or it is fund-raw, sign-raw or
    broadcast and args.hex is. *)
Theorem command_without_its_option_exits (env : gmap string jsstr) (argv : list jsstr)
    (args : Args) (cmd opt : string) :
  In (cmd, opt) checked_options ->
  CommandLine.parseArgs argv = Ok args ->
  CommandLine.first_positional args = Some (list_ascii_of_string cmd) ->
  CommandLine.truthy (args !! opt) = false ->
  CommandLine.top_level env argv = Exit 1.
Proof.
  intros Hin Ep Hfirst Hopt. unfold CommandLine.top_level. rewrite Ep, bind_Ok. cbv zeta.
  unfold checked_options in Hin. cbn [In] in Hin.
  repeat (destruct Hin as [Hin|Hin];
          [injection Hin as <- <-;
           rewrite (command_name_first _ _ Hfirst) by discriminate;
           unfold CommandLine.dispatch, CommandLine.is_command,
             CommandLine.cmdBalance, CommandLine.cmdImportAddress,
             CommandLine.cmdImportPrivKey, CommandLine.cmdFundRaw, CommandLine.cmdSignRaw,
             CommandLine.cmdBroadcast;
           cbn [jsstr_eqb list_ascii_of_string Ascii.eqb Bool.eqb andb];
           match goal with |- context [args !! ?o] =>
             destruct (args !! o) as [v|]; [rewrite Hopt|]; reflexivity end|]).
  destruct Hin.
Qed.

Lemma command_without_its_option_exits_witness :
  CommandLine.top_level ∅
    [list_ascii_of_string "--rpc"; list_ascii_of_string "http://node:8332";
     list_ascii_of_string "balance"; list_ascii_of_string "--label"] = Exit 1.
Proof.
  eassert (Ep : CommandLine.parseArgs
                  [list_ascii_of_string "--rpc"; list_ascii_of_string "http://node:8332";
                   list_ascii_of_string "balance"; list_ascii_of_string "--label"] = Ok _)
    by reflexivity.
  apply (command_without_its_option_exits ∅ _ _ "balance" "address" (or_introl eq_refl) Ep);
    reflexivity.
Defined.

(** X24. When parseArgs returns and the first positional argument it
    collected is a text that is not empty and is none of the nine command
    names, the process exits with status 1.  When there is no positional
    argument, or the first one is the empty text, the wallet generation is
    started. *)
Theorem unknown_command_exits (env : gmap string jsstr) (argv : list jsstr) (args : Args) :
  CommandLine.parseArgs argv = Ok args ->
  (forall cmd,
     CommandLine.first_positional args = Some cmd -> cmd <> [] ->
     ~ In (string_of_list_ascii cmd) command_names ->
     CommandLine.top_level env argv = Exit 1) /\
  (CommandLine.first_positional args = None \/ CommandLine.first_positional args = Some [] ->
   CommandLine.top_level env argv = Ok Generates).
Proof.
  intros Ep. unfold CommandLine.top_level. rewrite Ep, bind_Ok. cbv zeta. split.
  - intros cmd Hfirst Hne Hunknown. rewrite (command_name_first _ _ Hfirst Hne).
    unfold CommandLine.dispatch.
    rewrite !(not_a_command cmd) by (exact Hunknown || (unfold command_names; cbn [In]; tauto)).
    reflexivity.
  - intros H. unfold CommandLine.command_name. destruct H as [-> | ->]; reflexivity.
Qed.

Lemma unknown_command_exits_witness :
  CommandLine.top_level ∅
    [list_ascii_of_string "--rpc"; list_ascii_of_string "http://node:8332";
     list_ascii_of_string "status"] = Exit 1 /\
  CommandLine.top_level ∅ argv_options = Ok Generates.
Proof.
  eassert (Ep : CommandLine.parseArgs
                  [list_ascii_of_string "--rpc"; list_ascii_of_string "http://node:8332";
                   list_ascii_of_string "status"] = Ok _) by reflexivity.
  eassert (Ep' : CommandLine.parseArgs argv_options = Ok _) by reflexivity.
  split.
  - apply (proj1 (unknown_command_exits ∅ _ _ Ep) (list_ascii_of_string "status")).
    + reflexivity.
    + discriminate.
    + unfold command_names. cbn [In string_of_list_ascii].
      intros H. repeat (destruct H as [H|H]; [discriminate H|]). exact H.
  - apply (proj2 (unknown_command_exits ∅ _ _ Ep')). left. reflexivity.
Defined.

Lemma utf8_bytes (s : jsstr) : Forall (fits 8) (Buffer_from_utf8 s).
Proof.
  unfold Buffer_from_utf8. apply Forall_map, List.Forall_forall. intros c _.
  unfold fits, charCode. pose proof (N_ascii_bounded c). lia.
Qed.

(** X25. The Authorization header of every request is Basic followed by
    base64 text that decodes to the user, a colon and the password of the
    configuration. *)
Theorem authorization_carries_credentials (cfg : RpcConfig) (method : string)
    (params : list Json) :
  firstn 6 (authorization (CommandLine.rpcCall cfg method params))
    = list_ascii_of_string "Basic " /\
  Buffer_from_base64 (skipn 6 (authorization (CommandLine.rpcCall cfg method params)))
    = Buffer_from_utf8
        (CommandLine.to_text (user cfg) ++ [":"%char] ++ CommandLine.to_text (pass cfg)).
Proof.
  split; [reflexivity|].
  unfold CommandLine.rpcCall. cbn [authorization list_ascii_of_string app skipn].
  apply base64_round_trip, utf8_bytes.
Qed.
